(** * yetinelv2: log parsers and detection engine

    A shallow embedding of the backend of the mini SIEM and the properties
    of its specification that were checked against it.

    The program
      - [JS]         the JavaScript values the backend manipulates
      - [Regex]      the regular expressions of the parsers
      - [Syslog]     [backend/parsers/syslogParser.js]
      - [AuthLog]    [backend/parsers/authLogParser.js]
      - [Windows]    the Windows event parser
      - [Detection]  [backend/services/detectionEngine.js]: the condition
                     matcher and the signature, threshold and correlation
                     rules
      - [Dispatch]   the default rules, the loop of [processEvent] and the
                     periodic sweep of the same file
      - [Domain], [RegexCheck], [WindowsRecord], [Properties]
                     the predicates the properties are stated with
    The properties
      - [RegexFacts], [JSFacts]       the equations the proofs compute with
      - [SyslogSpec], [WindowsSpec]   the parsers
      - [MatcherSpec]                 [matchesCondition]
      - [EngineSpec]                  the stateful rules
      - [MatcherLaws], [MatcherTotal] more of [getFieldValue] and
                                      [matchesCondition]
      - [EngineLaws], [CorrelationLaws], [SweepLaws]
                                      window states, sequences, the sweep
      - [DispatchLaws], [SignatureLaws]
                                      [processEvent]
      - [RegexLaws], [SyslogLaws], [WindowsLaws], [AuthLogLaws]
                                      more of the parsers
      - [PipelineLaws]                parsed events under the default rules

    Modelling conventions
      - a JS value is a JSON-like tree ([JS.value]); a number is an integer
        ([Z]) or NaN;
      - a string is a sequence of 8-bit code units (the Latin-1 part of JS's
        UTF-16 strings);
      - members inherited from prototypes (methods, [constructor], ...) are
        functions, which are outside [JS.value]: looking one up yields
        [VUndef] in the model, and the conversion to a string always
        returns; [Domain] has the keys and the values on which this is
        what JavaScript does, and the properties that depend on it are
        stated on them;
      - a thrown exception is the [Throw] of [JS.outcome];
      - the clock, [Date], [RegExp], [JSON], [uuid] and the database are
        the runtime's and are taken as parameters;
      - the HTTP routes, the database layer and the loading of the rules
        from a file are not part of the model. *)

From Stdlib Require Import ZArith Ascii String List Bool Lia.
From stdpp Require Import base tactics option list strings pretty gmap.

Set Warnings "-register-all".
Local Open Scope string_scope.

(** ** JavaScript values *)

Module JS.

Inductive value : Type :=
  | VUndef
  | VNull
  | VBool (b : bool)
  | VNum (n : Z)
  | VNaN
  | VStr (s : string)
  | VArr (xs : list value)
  | VObj (fields : list (string * value)).

Inductive exn : Type := TypeError | RangeError | SyntaxError | SinkError.

Inductive outcome (A : Type) : Type :=
  | Ret (a : A)
  | Throw (e : exn).
Arguments Ret {A} a.
Arguments Throw {A} e.

#[global] Instance outcome_ret : MRet outcome := fun A a => Ret a.
#[global] Instance outcome_bind : MBind outcome := fun A B f m =>
  match m with
  | Ret a => f a
  | Throw e => Throw e
  end.

(** [!v] is [negb (truthy v)]. *)
Definition truthy (v : value) : bool :=
  match v with
  | VUndef | VNull | VNaN => false
  | VBool b => b
  | VNum n => negb (n =? 0)%Z
  | VStr s => negb (String.eqb s "")
  | VArr _ | VObj _ => true
  end.

(** [a || b] on values. *)
Definition or_else (a b : value) : value := if truthy a then a else b.

Definition is_nullish (v : value) : bool :=
  match v with VUndef | VNull => true | _ => false end.

Definition isArray (v : value) : bool :=
  match v with VArr _ => true | _ => false end.

Definition isString (v : value) : bool :=
  match v with VStr _ => true | _ => false end.

Definition elems (v : value) : list value :=
  match v with VArr xs => xs | _ => [] end.

Fixpoint join (sep : string) (l : list string) : string :=
  match l with
  | [] => ""
  | [x] => x
  | x :: l' => x +:+ sep +:+ join sep l'
  end.

(** [String(v)] and the conversion of a template literal, on the values
    of [Domain.printable]: integers of magnitude below 10^21, written
    with all their digits, and objects without an own member [toString],
    on which the conversion of JS is a TypeError. *)
Fixpoint toString (v : value) : string :=
  match v with
  | VUndef => "undefined"
  | VNull => "null"
  | VBool true => "true"
  | VBool false => "false"
  | VNum n => pretty n
  | VNaN => "NaN"
  | VStr s => s
  | VArr xs =>
      join "," ((fix each (l : list value) : list string :=
                   match l with
                   | [] => []
                   | x :: l' =>
                       (if is_nullish x then "" else toString x) :: each l'
                   end) xs)
  | VObj _ => "[object Object]"
  end.

(** [a === b].  Arrays and objects compare by reference: the two operands
    of every [===] in this program come from different allocations (an
    event and a rule), so they are never the same object. *)
Definition strict_eq (a b : value) : bool :=
  match a, b with
  | VUndef, VUndef => true
  | VNull, VNull => true
  | VBool x, VBool y => Bool.eqb x y
  | VNum x, VNum y => (x =? y)%Z
  | VStr x, VStr y => String.eqb x y
  | _, _ => false
  end.

Fixpoint own (fields : list (string * value)) (k : string) : value :=
  match fields with
  | [] => VUndef
  | (k', v) :: rest => if String.eqb k' k then v else own rest k
  end.

Definition digit_val (c : ascii) : option N :=
  let n := N_of_ascii c in
  if ((48 <=? n) && (n <=? 57))%N then Some (n - 48)%N else None.

Fixpoint digits_val (acc : N) (s : string) : option N :=
  match s with
  | "" => Some acc
  | String c s' =>
      match digit_val c with
      | Some d => digits_val (10 * acc + d)%N s'
      | None => None
      end
  end.

(** A property key that is a canonical array index ("0", "17", not "01"). *)
Definition array_index (k : string) : option nat :=
  match k with
  | "" => None
  | _ =>
      match digits_val 0 k with
      | Some n => if String.eqb (pretty n) k then Some (N.to_nat n) else None
      | None => None
      end
  end.

(** [v[k]] for a [v] that is neither [null] nor [undefined]: the own
    members.  A key that [v] inherits from its prototype
    ([Domain.inherited]) finds a function in JS and nothing here. *)
Definition prop (v : value) (k : string) : value :=
  match v with
  | VObj fs => own fs k
  | VArr xs =>
      if String.eqb k "length" then VNum (Z.of_nat (length xs))
      else match array_index k with
           | Some i => nth i xs VUndef
           | None => VUndef
           end
  | VStr s =>
      if String.eqb k "length" then VNum (Z.of_nat (String.length s))
      else match array_index k with
           | Some i =>
               match String.get i s with
               | Some c => VStr (String c "")
               | None => VUndef
               end
           | None => VUndef
           end
  | _ => VUndef
  end.

(** [v.k]: reading a property of [null] or [undefined] is a TypeError. *)
Definition getProp (v : value) (k : string) : outcome value :=
  if is_nullish v then Throw TypeError else Ret (prop v k).

(** [v?.k] *)
Definition optProp (v : value) (k : string) : value :=
  if is_nullish v then VUndef else prop v k.

(** [obj.k = x] on an object: an existing key keeps its place, a new one is
    appended. *)
Fixpoint set_own (fields : list (string * value)) (k : string) (x : value)
  : list (string * value) :=
  match fields with
  | [] => [(k, x)]
  | (k', v) :: rest =>
      if String.eqb k' k then (k', x) :: rest else (k', v) :: set_own rest k x
  end.

Definition setProp (v : value) (k : string) (x : value) : value :=
  match v with
  | VObj fs => VObj (set_own fs k x)
  | _ => v
  end.

Definition isObj (v : value) : bool :=
  match v with VObj _ => true | _ => false end.

(** *** Strings *)

Definition lower_ascii (c : ascii) : ascii :=
  let n := N_of_ascii c in
  if ((65 <=? n) && (n <=? 90))%N
     || ((192 <=? n) && (n <=? 222) && negb (n =? 215))%N
  then ascii_of_N (n + 32) else c.

Fixpoint toLowerCase (s : string) : string :=
  match s with
  | "" => ""
  | String c s' => String (lower_ascii c) (toLowerCase s')
  end.

(** [hay.includes(needle)] *)
Fixpoint includes (hay needle : string) : bool :=
  String.prefix needle hay ||
  match hay with
  | "" => false
  | String _ hay' => includes hay' needle
  end.

(** [s.split(c)] for a one-character separator. *)
Fixpoint split (c : ascii) (s : string) : list string :=
  match s with
  | "" => [""]
  | String a s' =>
      let r := split c s' in
      if Ascii.eqb a c then "" :: r
      else match r with
           | x :: r' => String a x :: r'
           | [] => [String a ""]
           end
  end.

(** [\s] of a regular expression, also what [trim] strips. *)
Definition is_space (c : ascii) : bool :=
  let n := N_of_ascii c in
  ((9 <=? n) && (n <=? 13) || (n =? 32) || (n =? 160))%N.

Fixpoint trimStart (s : string) : string :=
  match s with
  | "" => ""
  | String c s' => if is_space c then trimStart s' else s
  end.

Definition trim (s : string) : string :=
  String.rev (trimStart (String.rev (trimStart s))).

(** [parseInt(v)] in radix 10.  Every call in this program
    passes a capture of [\d+] or [undefined], so the hexadecimal prefix
    never occurs.  The result is the exact integer: it is the number JS
    returns for a numeral below [Domain.max_safe], and JS rounds a larger
    one to a double. *)
Fixpoint leading_digits (s : string) : string :=
  match s with
  | "" => ""
  | String c s' =>
      match digit_val c with
      | Some _ => String c (leading_digits s')
      | None => ""
      end
  end.

Definition parseInt (v : value) : value :=
  let s := trimStart (toString v) in
  let '(neg, body) :=
    match s with
    | String "-" s' => (true, s')
    | String "+" s' => (false, s')
    | _ => (false, s)
    end in
  match leading_digits body with
  | "" => VNaN
  | ds =>
      match digits_val 0 ds with
      | Some n => VNum (if neg then - Z.of_N n else Z.of_N n)%Z
      | None => VNaN
      end
  end.

(** *** Numbers *)

(** [ToNumber(v)]; [None] is NaN.  The conversion of a string is the
    runtime's ([strToNumber]). *)
Definition toNumber (strToNumber : string -> option Z) (v : value)
  : option Z :=
  match v with
  | VUndef | VNaN => None
  | VNull => Some 0%Z
  | VBool b => Some (if b then 1 else 0)%Z
  | VNum n => Some n
  | VStr s => strToNumber s
  | VArr _ | VObj _ => strToNumber (toString v)
  end.

(** Comparisons of numbers: false as soon as an operand is NaN. *)
Definition num_ge (a b : option Z) : bool :=
  match a, b with Some x, Some y => (y <=? x)%Z | _, _ => false end.
Definition num_gt (a b : option Z) : bool :=
  match a, b with Some x, Some y => (y <? x)%Z | _, _ => false end.
Definition num_lt (a b : option Z) : bool :=
  match a, b with Some x, Some y => (x <? y)%Z | _, _ => false end.
Definition num_sub (a b : option Z) : option Z :=
  match a, b with Some x, Some y => Some (x - y)%Z | _, _ => None end.
Definition num_mul (a b : option Z) : option Z :=
  match a, b with Some x, Some y => Some (x * y)%Z | _, _ => None end.

End JS.

(** ** Regular expressions

    A backtracking matcher with capture groups, greedy and lazy
    repetition and the anchors, in continuation-passing style: the order in
    which alternatives are tried is the one of the JS engine, so a match is
    the match JS finds and the captures are its captures. *)

Module Regex.

Inductive re : Type :=
  | Eps
  | Cls (p : ascii -> bool)
  | Cat (r1 r2 : re)
  | Alt (r1 r2 : re)
  | Star (lazy : bool) (r : re)
  | Grp (i : nat) (r : re)
  | Bol
  | Eol.

Definition captures : Type := list (nat * string).

Fixpoint cap (cs : captures) (i : nat) : JS.value :=
  match cs with
  | [] => JS.VUndef
  | (j, s) :: cs' => if Nat.eqb j i then JS.VStr s else cap cs' i
  end.

Definition consumed (s s' : string) : string :=
  String.substring 0 (String.length s - String.length s') s.

(** [go r pos s cs k]: match [r] at offset [pos], where [s] is the rest of
    the input, then continue with [k].  An iteration of a repetition that
    consumes nothing is rejected, as in JS, so a repetition runs at most
    [length s] times: the bound of its loop is never reached early
    ([RegexFacts.go_star_unfold] is its equation without the bound). *)
Fixpoint go {R : Type} (r : re) (pos : nat) (s : string) (cs : captures)
    (k : nat -> string -> captures -> option R) {struct r} : option R :=
  match r with
  | Eps => k pos s cs
  | Cls p =>
      match s with
      | String c s' => if p c then k (S pos) s' cs else None
      | "" => None
      end
  | Cat r1 r2 => go r1 pos s cs (fun pos' s' cs' => go r2 pos' s' cs' k)
  | Alt r1 r2 =>
      match go r1 pos s cs k with
      | Some x => Some x
      | None => go r2 pos s cs k
      end
  | Star lazy r1 =>
      (fix loop (fuel : nat) (pos : nat) (s : string) (cs : captures)
         : option R :=
         match fuel with
         | O => k pos s cs
         | S fuel' =>
             let again :=
               go r1 pos s cs (fun pos' s' cs' =>
                 if (String.length s' <? String.length s)%nat
                 then loop fuel' pos' s' cs' else None) in
             if lazy then
               match k pos s cs with
               | Some x => Some x
               | None => again
               end
             else
               match again with
               | Some x => Some x
               | None => k pos s cs
               end
         end) (String.length s) pos s cs
  | Grp i r1 =>
      go r1 pos s cs (fun pos' s' cs' => k pos' s' ((i, consumed s s') :: cs'))
  | Bol => if Nat.eqb pos 0 then k pos s cs else None
  | Eol => match s with "" => k pos s cs | _ => None end
  end.

(** The loop of a repetition, as [go] runs it. *)
Definition star_loop {R : Type} (lazy : bool) (r1 : re)
    (k : nat → string → captures → option R) :=
  fix loop (fuel : nat) (pos : nat) (s : string) (cs : captures)
    : option R :=
    match fuel with
    | O => k pos s cs
    | S fuel' =>
        let again :=
          go r1 pos s cs (fun pos' s' cs' =>
            if (String.length s' <? String.length s)%nat
            then loop fuel' pos' s' cs' else None) in
        if lazy then
          match k pos s cs with
          | Some x => Some x
          | None => again
          end
        else
          match again with
          | Some x => Some x
          | None => k pos s cs
          end
    end.

(** [s.match(r)] without the [g] flag: the leftmost match. *)
Fixpoint search (r : re) (pos : nat) (s : string) : option captures :=
  match go r pos s [] (fun _ _ cs => Some cs) with
  | Some cs => Some cs
  | None =>
      match s with
      | "" => None
      | String _ s' => search r (S pos) s'
      end
  end.

Definition exec (r : re) (s : string) : option captures := search r 0 s.

(** The syntax of the patterns. *)
Definition chr (c : ascii) : re := Cls (Ascii.eqb c).
Definition plus (r : re) : re := Cat r (Star false r).
Definition plus_lazy (r : re) : re := Cat r (Star true r).
Definition opt (r : re) : re := Alt r Eps.
Fixpoint rep (n : nat) (r : re) : re :=
  match n with
  | O => Eps
  | S O => r
  | S n' => Cat r (rep n' r)
  end.

Definition is_digit (c : ascii) : bool :=
  let n := N_of_ascii c in ((48 <=? n) && (n <=? 57))%N.
Definition is_word (c : ascii) : bool :=
  let n := N_of_ascii c in
  (((48 <=? n) && (n <=? 57)) || ((65 <=? n) && (n <=? 90))
   || ((97 <=? n) && (n <=? 122)) || (n =? 95))%N.
Definition is_dot (c : ascii) : bool :=
  let n := N_of_ascii c in negb ((n =? 10) || (n =? 13))%N.

Definition d : re := Cls is_digit.
Definition w : re := Cls is_word.
Definition s_ : re := Cls JS.is_space.
Definition S_ : re := Cls (fun c => negb (JS.is_space c)).
Definition dot : re := Cls is_dot.

End Regex.

(** ** The syslog parser ([backend/parsers/syslogParser.js]) *)

Module Syslog.
Import JS Regex.

(** What the parser uses of [Date]. *)
Record DateRt : Type := {
  date : Type;
  (** [new Date()] *)
  now : date;
  getFullYear : date -> Z;
  (** [new Date(year, month, day, hours, minutes, seconds)], all finite *)
  mkDate : Z -> Z -> Z -> Z -> Z -> Z -> date;
  (** [a > b] *)
  date_gt : date -> date -> bool;
  setFullYear : date -> Z -> date;
  toISOString : date -> string;
  (** [new Date(s)]; [None] is the Invalid Date *)
  parseDate : string -> option date
}.

Infix "⋅" := Cat (at level 41, right associativity).

(** The patterns are quoted with a space inside their last group, [(.* )],
    which the source does not have.

    [/^(?:<(\d+)>)?(\w{3}\s+\d{1,2}\s+\d{2}:\d{2}:\d{2})\s+(\S+)\s+(\S+?)(?:\[(\d+)\])?:\s*(.* )$/] *)
Definition SYSLOG_BSD_REGEX : re :=
  Bol ⋅ opt (chr "<" ⋅ Grp 1 (plus d) ⋅ chr ">")
  ⋅ Grp 2 (rep 3 w ⋅ plus s_ ⋅ d ⋅ opt d ⋅ plus s_
           ⋅ rep 2 d ⋅ chr ":" ⋅ rep 2 d ⋅ chr ":" ⋅ rep 2 d)
  ⋅ plus s_ ⋅ Grp 3 (plus S_)
  ⋅ plus s_ ⋅ Grp 4 (plus_lazy S_)
  ⋅ opt (chr "[" ⋅ Grp 5 (plus d) ⋅ chr "]")
  ⋅ chr ":" ⋅ Star false s_ ⋅ Grp 6 (Star false dot) ⋅ Eol.

(** [/^(\d{4}-\d{2}-\d{2}T\d{2}:\d{2}:\d{2}(?:\.\d+)?(?:[+-]\d{2}:\d{2}|Z)?)\s+(\S+)\s+(\S+?)(?:\[(\d+)\])?:\s*(.* )$/] *)
Definition SYSLOG_ISO_REGEX : re :=
  Bol
  ⋅ Grp 1 (rep 4 d ⋅ chr "-" ⋅ rep 2 d ⋅ chr "-" ⋅ rep 2 d ⋅ chr "T"
           ⋅ rep 2 d ⋅ chr ":" ⋅ rep 2 d ⋅ chr ":" ⋅ rep 2 d
           ⋅ opt (chr "." ⋅ plus d)
           ⋅ opt (Alt (Alt (chr "+") (chr "-") ⋅ rep 2 d ⋅ chr ":" ⋅ rep 2 d)
                      (chr "Z")))
  ⋅ plus s_ ⋅ Grp 2 (plus S_)
  ⋅ plus s_ ⋅ Grp 3 (plus_lazy S_)
  ⋅ opt (chr "[" ⋅ Grp 4 (plus d) ⋅ chr "]")
  ⋅ chr ":" ⋅ Star false s_ ⋅ Grp 5 (Star false dot) ⋅ Eol.

(** [/(\w{3})\s+(\d{1,2})\s+(\d{2}):(\d{2}):(\d{2})/] *)
Definition TIMESTAMP_REGEX : re :=
  Grp 1 (rep 3 w) ⋅ plus s_ ⋅ Grp 2 (d ⋅ opt d) ⋅ plus s_
  ⋅ Grp 3 (rep 2 d) ⋅ chr ":" ⋅ Grp 4 (rep 2 d) ⋅ chr ":" ⋅ Grp 5 (rep 2 d).

Definition MONTHS : value :=
  VObj [("Jan", VNum 0); ("Feb", VNum 1); ("Mar", VNum 2); ("Apr", VNum 3);
        ("May", VNum 4); ("Jun", VNum 5); ("Jul", VNum 6); ("Aug", VNum 7);
        ("Sep", VNum 8); ("Oct", VNum 9); ("Nov", VNum 10); ("Dec", VNum 11)].

(** [parsePriority]: the pair is [(facility, severity)].  [Math.floor(pri / 8)]
    is the floor division and [%] the remainder with the sign of [pri]. *)
Definition parsePriority (priority : value) : Z * Z :=
  match or_else (parseInt priority) (VNum 13) with
  | VNum pri => (pri / 8, Z.rem pri 8)%Z
  | _ => (0, 0)%Z
  end.

Definition mapSeverity (syslogSeverity : Z) : string :=
  if (syslogSeverity <=? 2)%Z then "critical"
  else if (syslogSeverity <=? 4)%Z then "warning"
  else "info".

Definition classifyEvent (program message : string) : string :=
  let prog := toLowerCase program in
  let msg := toLowerCase message in
  if String.eqb prog "sshd" || String.eqb prog "su" || String.eqb prog "sudo"
     || String.eqb prog "login" || String.eqb prog "passwd"
  then "authentication"
  else if String.eqb prog "iptables" || String.eqb prog "ufw"
          || String.eqb prog "firewalld" || includes msg "firewall"
  then "firewall"
  else if String.eqb prog "dhclient" || String.eqb prog "networkmanager"
          || includes msg "connection"
  then "network"
  else if String.eqb prog "kernel" || String.eqb prog "systemd"
          || String.eqb prog "init"
  then "system"
  else if String.eqb prog "cron" || includes msg "process"
          || includes msg "started" || includes msg "stopped"
  then "process"
  else "system".

Section WithDate.
Context (rt : DateRt).

(** [parseTimestamp].  A [Date] built from a NaN component is the Invalid
    Date: it compares false with [now] and its [toISOString] throws a
    RangeError. *)
Definition parseTimestamp (timestampStr : string) : outcome string :=
  match exec TIMESTAMP_REGEX timestampStr with
  | None => Ret (toISOString rt (now rt))
  | Some parts =>
      let month := prop MONTHS (toString (cap parts 1)) in
      let day := parseInt (cap parts 2) in
      let hours := parseInt (cap parts 3) in
      let minutes := parseInt (cap parts 4) in
      let seconds := parseInt (cap parts 5) in
      let year := getFullYear rt (now rt) in
      match month, day, hours, minutes, seconds with
      | VNum mo, VNum dd, VNum hh, VNum mi, VNum ss =>
          let date := mkDate rt year mo dd hh mi ss in
          let date :=
            if date_gt rt date (now rt) then setFullYear rt date (year - 1)%Z
            else date in
          Ret (toISOString rt date)
      | _, _, _, _, _ => Throw RangeError
      end
  end.

(** [parse(rawLog, metadata = {})].  [rawLog.match] is a TypeError unless
    [rawLog] is a string. *)
Definition parse (rawLog metadata : value) : outcome value :=
  let metadata := match metadata with VUndef => VObj [] | _ => metadata end in
  match rawLog with
  | VStr raw =>
      match exec SYSLOG_BSD_REGEX raw with
      | Some m =>
          let priority := cap m 1 in
          let timestampStr := cap m 2 in
          let hostname := cap m 3 in
          let program := cap m 4 in
          let pid := cap m 5 in
          let message := cap m 6 in
          let '(facility, syslogSeverity) := parsePriority priority in
          ts ← parseTimestamp (toString timestampStr);
          Ret (VObj
            [("timestamp", VStr ts);
             ("source", VStr "syslog");
             ("event_type",
                VStr (classifyEvent (toString program) (toString message)));
             ("severity", VStr (mapSeverity syslogSeverity));
             ("hostname", hostname);
             ("description",
                VStr ("[" +:+ toString program +:+ "] " +:+ toString message));
             ("raw_log", rawLog);
             ("parsed_data", VObj
                [("format", VStr "bsd");
                 ("priority", or_else (parseInt priority) VNull);
                 ("facility", VNum facility);
                 ("syslog_severity", VNum syslogSeverity);
                 ("program", program);
                 ("pid", if truthy pid then parseInt pid else VNull);
                 ("message", message)])])
      | None =>
          match exec SYSLOG_ISO_REGEX raw with
          | Some m =>
              let isoTimestamp := cap m 1 in
              let hostname := cap m 2 in
              let program := cap m 3 in
              let pid := cap m 4 in
              let message := cap m 5 in
              match parseDate rt (toString isoTimestamp) with
              | None => Throw RangeError
              | Some dt =>
                  Ret (VObj
                    [("timestamp", VStr (toISOString rt dt));
                     ("source", VStr "syslog");
                     ("event_type",
                        VStr (classifyEvent (toString program)
                                            (toString message)));
                     ("severity", VStr "info");
                     ("hostname", hostname);
                     ("description",
                        VStr ("[" +:+ toString program +:+ "] "
                              +:+ toString message));
                     ("raw_log", rawLog);
                     ("parsed_data", VObj
                        [("format", VStr "iso");
                         ("program", program);
                         ("pid", if truthy pid then parseInt pid else VNull);
                         ("message", message)])])
              end
          | None =>
              host ← getProp metadata "hostname";
              Ret (VObj
                [("timestamp", VStr (toISOString rt (now rt)));
                 ("source", VStr "syslog");
                 ("event_type", VStr "system");
                 ("severity", VStr "info");
                 ("hostname", or_else host (VStr "unknown"));
                 ("description", VStr (trim raw));
                 ("raw_log", rawLog);
                 ("parsed_data", VObj [("format", VStr "non-standard")])])
          end
      end
  | _ => Throw TypeError
  end.

End WithDate.

(** A runtime for closed examples: a date is its six local components, the
    clock stands at 2026-11-01 12:00:00 and the time zone is UTC. *)
Definition two (n : Z) : string :=
  if (n <? 10)%Z then "0" +:+ pretty n else pretty n.

(** The first date is after the second one, both given component by
    component from the year down. *)
Fixpoint later (components : list (Z * Z)) : bool :=
  match components with
  | [] => false
  | (a, b) :: rest => (b <? a)%Z || ((a =? b)%Z && later rest)
  end.

Definition rt0 : DateRt :=
  {| date := Z * Z * Z * Z * Z * Z;
     now := (2026, 10, 1, 12, 0, 0)%Z;
     getFullYear := fun '(y, _, _, _, _, _) => y;
     mkDate := fun y mo dd hh mi ss => (y, mo, dd, hh, mi, ss);
     date_gt := fun '(y, mo, dd, hh, mi, ss) '(y', mo', dd', hh', mi', ss') =>
       later [(y, y'); (mo, mo'); (dd, dd'); (hh, hh'); (mi, mi'); (ss, ss')];
     setFullYear := fun '(_, mo, dd, hh, mi, ss) y => (y, mo, dd, hh, mi, ss);
     toISOString := fun '(y, mo, dd, hh, mi, ss) =>
       pretty y +:+ "-" +:+ two (mo + 1) +:+ "-" +:+ two dd +:+ "T"
       +:+ two hh +:+ ":" +:+ two mi +:+ ":" +:+ two ss +:+ ".000Z";
     parseDate := fun _ => None |}.

Definition sample_line : string :=
  "<13>Jan 18 10:30:45 web-server-01 sshd[1234]: Failed password for root from 192.168.1.100 port 22 ssh2".

End Syslog.
(** ** The auth-log parser ([backend/parsers/authLogParser.js]) *)

Module AuthLog.
Import JS Regex.

Infix "⋅" := Cat (at level 41, right associativity).

(** A literal character, and one under the [i] flag: an ASCII letter
    matches both of its cases and nothing else. *)
Definition chr_i (c : ascii) : re :=
  Cls (fun x => Ascii.eqb (lower_ascii x) (lower_ascii c)
                && (N_of_ascii x <? 128)%N).

Fixpoint lit (s : string) : re :=
  match s with
  | "" => Eps
  | String c "" => chr c
  | String c s' => chr c ⋅ lit s'
  end.

Fixpoint lit_i (s : string) : re :=
  match s with
  | "" => Eps
  | String c "" => chr_i c
  | String c s' => chr_i c ⋅ lit_i s'
  end.

(** The patterns [parseAuthEvent] uses, in the order it tries them.

    [/Failed (?:password|publickey) for (?:invalid user )?(\S+) from (\S+) port (\d+)/i] *)
Definition SSH_FAILED : re :=
  lit_i "Failed " ⋅ Alt (lit_i "password") (lit_i "publickey")
  ⋅ lit_i " for " ⋅ opt (lit_i "invalid user ")
  ⋅ Grp 1 (plus S_) ⋅ lit_i " from " ⋅ Grp 2 (plus S_)
  ⋅ lit_i " port " ⋅ Grp 3 (plus d).

(** [/Accepted (?:password|publickey) for (\S+) from (\S+) port (\d+)/i] *)
Definition SSH_SUCCESS : re :=
  lit_i "Accepted " ⋅ Alt (lit_i "password") (lit_i "publickey")
  ⋅ lit_i " for " ⋅ Grp 1 (plus S_) ⋅ lit_i " from " ⋅ Grp 2 (plus S_)
  ⋅ lit_i " port " ⋅ Grp 3 (plus d).

(** [/Invalid user (\S+) from (\S+)/i] *)
Definition SSH_INVALID_USER : re :=
  lit_i "Invalid user " ⋅ Grp 1 (plus S_) ⋅ lit_i " from " ⋅ Grp 2 (plus S_).

(** [/(\S+) : TTY=(\S+) ; PWD=([^;]+) ; USER=(\S+) ; COMMAND=(.* )/], without
    the space in the last group *)
Definition SUDO_SUCCESS : re :=
  Grp 1 (plus S_) ⋅ lit " : TTY=" ⋅ Grp 2 (plus S_)
  ⋅ lit " ; PWD=" ⋅ Grp 3 (plus (Cls (fun c => negb (Ascii.eqb c ";"))))
  ⋅ lit " ; USER=" ⋅ Grp 4 (plus S_)
  ⋅ lit " ; COMMAND=" ⋅ Grp 5 (Star false dot).

(** [/(\S+) : .*authentication failure.*/i] *)
Definition SUDO_FAILURE : re :=
  Grp 1 (plus S_) ⋅ lit_i " : " ⋅ Star false dot
  ⋅ lit_i "authentication failure" ⋅ Star false dot.

(** [/Successful su for (\S+) by (\S+)/i] *)
Definition SU_SUCCESS : re :=
  lit_i "Successful su for " ⋅ Grp 1 (plus S_) ⋅ lit_i " by "
  ⋅ Grp 2 (plus S_).

(** [/FAILED su for (\S+) by (\S+)/i] *)
Definition SU_FAILURE : re :=
  lit_i "FAILED su for " ⋅ Grp 1 (plus S_) ⋅ lit_i " by " ⋅ Grp 2 (plus S_).

(** [/pam_unix\((\S+):auth\): authentication failure.* user=(\S+)/i] *)
Definition PAM_AUTH_FAILURE : re :=
  lit_i "pam_unix(" ⋅ Grp 1 (plus S_) ⋅ lit_i ":auth): authentication failure"
  ⋅ Star false dot ⋅ lit_i " user=" ⋅ Grp 2 (plus S_).

(** [/pam_unix\((\S+):session\): session (\w+) for user (\S+)/i] *)
Definition PAM_SESSION : re :=
  lit_i "pam_unix(" ⋅ Grp 1 (plus S_) ⋅ lit_i ":session): session "
  ⋅ Grp 2 (plus w) ⋅ lit_i " for user " ⋅ Grp 3 (plus S_).

(** [/password changed for (\S+)/i] *)
Definition PASSWORD_CHANGED : re :=
  lit_i "password changed for " ⋅ Grp 1 (plus S_).

(** [/new user: name=(\S+), UID=(\d+)/i] *)
Definition USER_ADDED : re :=
  lit_i "new user: name=" ⋅ Grp 1 (plus S_) ⋅ lit_i ", UID="
  ⋅ Grp 2 (plus d).

(** [{ ...v }]: the own enumerable properties of [v]. *)
Fixpoint indexed (i : N) (xs : list value) : list (string * value) :=
  match xs with
  | [] => []
  | x :: xs' => (pretty i, x) :: indexed (i + 1) xs'
  end.

Fixpoint chars (s : string) : list value :=
  match s with
  | "" => []
  | String c s' => VStr (String c "") :: chars s'
  end.

Definition spread (v : value) : value :=
  match v with
  | VObj fs => VObj fs
  | VArr xs => VObj (indexed 0 xs)
  | VStr s => VObj (indexed 0 (chars s))
  | _ => VObj []
  end.

(** [obj.k1 = v1; obj.k2 = v2; ...] *)
Fixpoint assign (obj : value) (kvs : list (string * value)) : value :=
  match kvs with
  | [] => obj
  | (k, v) :: rest => assign (setProp obj k v) rest
  end.

(** [result.parsed_data = { ...result.parsed_data, k1: v1, ... }] *)
Definition extend_data (result : value) (kvs : list (string * value))
  : value :=
  setProp result "parsed_data"
    (assign (spread (prop result "parsed_data")) kvs).

(** The branches of [parseAuthEvent], each on the captures of its
    pattern. *)
Definition ssh_failed (result : value) (m : captures) : value :=
  let result := setProp result "severity" (VStr "warning") in
  let result := setProp result "user" (cap m 1) in
  let result :=
    setProp result "description"
      (VStr ("SSH failed login for " +:+ toString (cap m 1) +:+ " from "
             +:+ toString (cap m 2))) in
  extend_data result
    [("auth_type", VStr "ssh"); ("auth_result", VStr "failure");
     ("username", cap m 1); ("source_ip", cap m 2);
     ("source_port", parseInt (cap m 3))].

Definition ssh_success (result : value) (m : captures) : value :=
  let result := setProp result "severity" (VStr "info") in
  let result := setProp result "user" (cap m 1) in
  let result :=
    setProp result "description"
      (VStr ("SSH successful login for " +:+ toString (cap m 1) +:+ " from "
             +:+ toString (cap m 2))) in
  extend_data result
    [("auth_type", VStr "ssh"); ("auth_result", VStr "success");
     ("username", cap m 1); ("source_ip", cap m 2);
     ("source_port", parseInt (cap m 3))].

Definition ssh_invalid_user (result : value) (m : captures) : value :=
  let result := setProp result "severity" (VStr "warning") in
  let result := setProp result "user" (cap m 1) in
  let result :=
    setProp result "description"
      (VStr ("SSH invalid user " +:+ toString (cap m 1) +:+ " from "
             +:+ toString (cap m 2))) in
  extend_data result
    [("auth_type", VStr "ssh"); ("auth_result", VStr "invalid_user");
     ("username", cap m 1); ("source_ip", cap m 2)].

Definition sudo_success (result : value) (m : captures) : value :=
  let toRoot := strict_eq (cap m 4) (VStr "root") in
  let result :=
    setProp result "severity" (VStr (if toRoot then "warning" else "info")) in
  let result := setProp result "user" (cap m 1) in
  let result :=
    setProp result "description"
      (VStr ("Sudo: " +:+ toString (cap m 1) +:+ " ran command as "
             +:+ toString (cap m 4) +:+ ": " +:+ toString (cap m 5))) in
  let result :=
    extend_data result
      [("auth_type", VStr "sudo"); ("auth_result", VStr "success");
       ("username", cap m 1); ("tty", cap m 2); ("pwd", cap m 3);
       ("target_user", cap m 4); ("command", cap m 5)] in
  if toRoot then
    let result := setProp result "event_type" (VStr "privilege") in
    setProp result "description"
      (VStr ("Privilege escalation: " +:+ toString (cap m 1)
             +:+ " -> root: " +:+ toString (cap m 5)))
  else result.

Definition sudo_failure (result : value) (m : captures) : value :=
  let result := setProp result "severity" (VStr "warning") in
  let result := setProp result "user" (cap m 1) in
  let result :=
    setProp result "description"
      (VStr ("Sudo authentication failure for " +:+ toString (cap m 1))) in
  extend_data result
    [("auth_type", VStr "sudo"); ("auth_result", VStr "failure");
     ("username", cap m 1)].

Definition su_success (result : value) (m : captures) : value :=
  let toRoot := strict_eq (cap m 1) (VStr "root") in
  let result :=
    setProp result "severity" (VStr (if toRoot then "warning" else "info")) in
  let result := setProp result "user" (cap m 2) in
  let result :=
    setProp result "description"
      (VStr ("SU: " +:+ toString (cap m 2) +:+ " switched to "
             +:+ toString (cap m 1))) in
  let result :=
    extend_data result
      [("auth_type", VStr "su"); ("auth_result", VStr "success");
       ("username", cap m 2); ("target_user", cap m 1)] in
  if toRoot then setProp result "event_type" (VStr "privilege") else result.

Definition su_failure (result : value) (m : captures) : value :=
  let result := setProp result "severity" (VStr "warning") in
  let result := setProp result "user" (cap m 2) in
  let result :=
    setProp result "description"
      (VStr ("SU failed: " +:+ toString (cap m 2) +:+ " to "
             +:+ toString (cap m 1))) in
  extend_data result
    [("auth_type", VStr "su"); ("auth_result", VStr "failure");
     ("username", cap m 2); ("target_user", cap m 1)].

Definition pam_auth_failure (result : value) (m : captures) : value :=
  let result := setProp result "severity" (VStr "warning") in
  let result := setProp result "user" (cap m 2) in
  let result :=
    setProp result "description"
      (VStr ("PAM authentication failure for " +:+ toString (cap m 2)
             +:+ " via " +:+ toString (cap m 1))) in
  extend_data result
    [("auth_type", VStr "pam"); ("auth_result", VStr "failure");
     ("pam_service", cap m 1); ("username", cap m 2)].

Definition pam_session (result : value) (m : captures) : value :=
  let result := setProp result "severity" (VStr "info") in
  let result := setProp result "user" (cap m 3) in
  let result :=
    setProp result "description"
      (VStr ("Session " +:+ toString (cap m 2) +:+ " for "
             +:+ toString (cap m 3) +:+ " via " +:+ toString (cap m 1))) in
  extend_data result
    [("auth_type", VStr "pam"); ("pam_service", cap m 1);
     ("session_action", cap m 2); ("username", cap m 3)].

Definition password_changed (result : value) (m : captures) : value :=
  let result := setProp result "severity" (VStr "warning") in
  let result := setProp result "user" (cap m 1) in
  let result :=
    setProp result "description"
      (VStr ("Password changed for " +:+ toString (cap m 1))) in
  let result := setProp result "event_type" (VStr "account") in
  extend_data result
    [("action", VStr "password_change"); ("username", cap m 1)].

Definition user_added (result : value) (m : captures) : value :=
  let result := setProp result "severity" (VStr "warning") in
  let result :=
    setProp result "description"
      (VStr ("New user created: " +:+ toString (cap m 1) +:+ " (UID: "
             +:+ toString (cap m 2) +:+ ")")) in
  let result := setProp result "event_type" (VStr "account") in
  extend_data result
    [("action", VStr "user_created"); ("username", cap m 1);
     ("uid", parseInt (cap m 2))].

(** The patterns in the order [parseAuthEvent] tries them, each with its
    branch. *)
Definition branches : list (re * (value → captures → value)) :=
  [(SSH_FAILED, ssh_failed); (SSH_SUCCESS, ssh_success);
   (SSH_INVALID_USER, ssh_invalid_user); (SUDO_SUCCESS, sudo_success);
   (SUDO_FAILURE, sudo_failure); (SU_SUCCESS, su_success);
   (SU_FAILURE, su_failure); (PAM_AUTH_FAILURE, pam_auth_failure);
   (PAM_SESSION, pam_session); (PASSWORD_CHANGED, password_changed);
   (USER_ADDED, user_added)].

Fixpoint first_match (bs : list (re * (value → captures → value)))
    (message : string) (result : value) : value :=
  match bs with
  | [] => result
  | (pattern, branch) :: rest =>
      match exec pattern message with
      | Some m => branch result m
      | None => first_match rest message result
      end
  end.

(** [parseAuthEvent(message, baseParsed)].  [message.match] is a
    TypeError unless [message] is a string. *)
Definition parseAuthEvent (message baseParsed : value) : outcome value :=
  let result :=
    setProp (spread baseParsed) "event_type" (VStr "authentication") in
  match message with
  | VStr msg => Ret (first_match branches msg result)
  | _ => Throw TypeError
  end.

Section WithDate.
Context (rt : Syslog.DateRt).

(** [parse(rawLog, metadata = {})] *)
Definition parse (rawLog metadata : value) : outcome value :=
  baseParsed ← Syslog.parse rt rawLog metadata;
  let message :=
    or_else (optProp (prop baseParsed "parsed_data") "message")
            (prop baseParsed "description") in
  authParsed ← parseAuthEvent message baseParsed;
  Ret (setProp authParsed "source" (VStr "auth")).

End WithDate.

Definition sudo_line : string :=
  "<38>Jan 18 10:31:00 db-server sudo: admin : TTY=pts/0 ; PWD=/home/admin ; USER=root ; COMMAND=/bin/bash".

End AuthLog.

(** ** The Windows event parser *)

Module Windows.
Import JS.

(** What the parser uses of the runtime. *)
Record Runtime : Type := {
  (** [JSON.parse]; [None] is a SyntaxError *)
  JSON_parse : string -> option value;
  (** [JSON.stringify] *)
  JSON_stringify : value -> value;
  (** [new Date().toISOString()] *)
  nowISO : string;
  strToNumber : string -> option Z
}.

Definition mapping (type severity desc : string) : value :=
  VObj [("type", VStr type); ("severity", VStr severity); ("desc", VStr desc)].

Definition EVENT_MAPPINGS : value :=
  VObj
    [("4624", mapping "authentication" "info" "Successful logon");
     ("4625", mapping "authentication" "warning" "Failed logon");
     ("4634", mapping "authentication" "info" "Logoff");
     ("4647", mapping "authentication" "info" "User initiated logoff");
     ("4648", mapping "authentication" "info" "Logon using explicit credentials");
     ("4672", mapping "privilege" "warning" "Special privileges assigned");
     ("4720", mapping "account" "warning" "User account created");
     ("4722", mapping "account" "warning" "User account enabled");
     ("4723", mapping "account" "info" "Password change attempted");
     ("4724", mapping "account" "warning" "Password reset attempted");
     ("4725", mapping "account" "warning" "User account disabled");
     ("4726", mapping "account" "warning" "User account deleted");
     ("4738", mapping "account" "info" "User account changed");
     ("4740", mapping "account" "warning" "User account locked out");
     ("4688", mapping "process" "info" "New process created");
     ("4689", mapping "process" "info" "Process exited");
     ("7045", mapping "service" "warning" "New service installed");
     ("4697", mapping "service" "warning" "Service installed");
     ("4656", mapping "file_access" "info" "Handle requested");
     ("4663", mapping "file_access" "info" "Object access attempted");
     ("4719", mapping "policy" "critical" "System audit policy changed");
     ("1102", mapping "security" "critical" "Audit log cleared");
     ("4616", mapping "security" "critical" "System time changed");
     ("4698", mapping "scheduled_task" "warning" "Scheduled task created");
     ("4699", mapping "scheduled_task" "info" "Scheduled task deleted");
     ("4702", mapping "scheduled_task" "warning" "Scheduled task updated")].

Definition LOGON_TYPES : value :=
  VObj
    [("2", VStr "Interactive"); ("3", VStr "Network"); ("4", VStr "Batch");
     ("5", VStr "Service"); ("7", VStr "Unlock");
     ("8", VStr "NetworkCleartext"); ("9", VStr "NewCredentials");
     ("10", VStr "RemoteInteractive"); ("11", VStr "CachedInteractive")].

(** [props[i]?.Value || props[i]] *)
Definition at_ (props : value) (i : string) : value :=
  or_else (optProp (prop props i) "Value") (prop props i).

(** [parsed.parsed_data.k = x] *)
Definition set_data (parsed : value) (k : string) (x : value) : value :=
  setProp parsed "parsed_data" (setProp (prop parsed "parsed_data") k x).

Definition is_num (v : value) (n : Z) : bool := strict_eq v (VNum n).

Fixpoint first_user (properties : list value) : value :=
  match properties with
  | [] => VNull
  | p :: rest =>
      match or_else (optProp p "Value") p with
      | VStr val =>
          if (0 <? String.length val)%nat && negb (includes val "\")
             && negb (includes val "-")
          then VStr val else first_user rest
      | _ => first_user rest
      end
  end.

Definition extractUser (properties eventId : value) : value :=
  if negb (truthy properties) || negb (isArray properties) then VNull
  else if is_num eventId 4624 || is_num eventId 4625
  then or_else (at_ properties "5") VNull
  else if is_num eventId 4688
  then or_else (at_ properties "1") VNull
  else first_user (elems properties).

Section WithRuntime.
Context (rt : Runtime).

(** [props.length >= n] *)
Definition length_ge (props : value) (n : Z) : bool :=
  num_ge (toNumber (strToNumber rt) (prop props "length")) (Some n).

Definition parseLogonEvent (parsed event : value) : value :=
  let props :=
    or_else (or_else (prop event "Properties") (prop event "properties"))
            (VArr []) in
  if length_ge props 10 then
    let parsed :=
      set_data parsed "logon_type"
        (or_else (prop LOGON_TYPES (toString (at_ props "8")))
                 (VStr "Unknown")) in
    let parsed := set_data parsed "target_user" (at_ props "5") in
    let parsed := set_data parsed "target_domain" (at_ props "6") in
    let parsed :=
      set_data parsed "source_ip" (or_else (at_ props "18") (VStr "local")) in
    let parsed := set_data parsed "source_port" (at_ props "19") in
    let parsed := set_data parsed "workstation" (at_ props "11") in
    let pd := prop parsed "parsed_data" in
    let logonType := toString (prop pd "logon_type") in
    let user := toString (prop pd "target_user") in
    let ip := toString (prop pd "source_ip") in
    if is_num (prop event "Id") 4625 then
      let parsed :=
        setProp parsed "description"
          (VStr ("Failed " +:+ logonType +:+ " logon for " +:+ user
                 +:+ " from " +:+ ip)) in
      set_data parsed "failure_reason" (at_ props "13")
    else
      setProp parsed "description"
        (VStr (logonType +:+ " logon for " +:+ user +:+ " from " +:+ ip))
  else parsed.

(** [x?.split('\\').pop()]: [undefined] on a nullish [x], the last segment
    of a string, and a TypeError on anything else, which has no [split]. *)
Definition split_pop (x : value) : outcome value :=
  match x with
  | VUndef | VNull => Ret VUndef
  | VStr p => Ret (VStr (List.last (split "\" p) ""))
  | _ => Throw TypeError
  end.

(** [x.toLowerCase()] *)
Definition lowered (x : value) : outcome string :=
  match x with
  | VStr p => Ret (toLowerCase p)
  | _ => Throw TypeError
  end.

Definition parseProcessEvent (parsed event : value) : outcome value :=
  let props :=
    or_else (or_else (prop event "Properties") (prop event "properties"))
            (VArr []) in
  if length_ge props 10 then
    let parsed := set_data parsed "new_process_name" (at_ props "5") in
    let parsed := set_data parsed "command_line" (at_ props "8") in
    let parsed := set_data parsed "creator_process" (at_ props "13") in
    let parsed := set_data parsed "token_elevation" (at_ props "6") in
    last ← split_pop (prop (prop parsed "parsed_data") "new_process_name");
    let processName := toString (or_else last (VStr "Unknown")) in
    let parsed :=
      setProp parsed "description" (VStr ("Process created: " +:+ processName)) in
    processPath ← lowered (or_else (at_ props "5") (VStr ""));
    if includes processPath "\temp\"
       || includes processPath "\tmp\"
       || includes processPath "\appdata\local\temp"
    then
      let parsed := setProp parsed "severity" (VStr "warning") in
      Ret (setProp parsed "description"
             (VStr ("Suspicious: Process from temp directory: "
                    +:+ processName)))
    else Ret parsed
  else Ret parsed.

Definition parseServiceEvent (parsed event : value) : value :=
  let props :=
    or_else (or_else (prop event "Properties") (prop event "properties"))
            (VArr []) in
  if length_ge props 5 then
    let parsed := set_data parsed "service_name" (at_ props "0") in
    let parsed := set_data parsed "service_path" (at_ props "1") in
    let parsed := set_data parsed "service_type" (at_ props "2") in
    let parsed := set_data parsed "service_start_type" (at_ props "3") in
    let parsed := set_data parsed "service_account" (at_ props "4") in
    let serviceName :=
      toString (or_else (prop (prop parsed "parsed_data") "service_name")
                        (VStr "Unknown")) in
    setProp parsed "description"
      (VStr ("New service installed: " +:+ serviceName))
  else parsed.

(** [parseWindowsEvent]: the first property read, [event.Id], is a
    TypeError when [event] is [null] or [undefined]. *)
Definition parseWindowsEvent (event : value) : outcome value :=
  id ← getProp event "Id";
  let eventId :=
    or_else (or_else id (prop event "EventId")) (prop event "event_id") in
  let mapping :=
    or_else (prop EVENT_MAPPINGS (toString eventId))
            (VObj [("type", VStr "windows"); ("severity", VStr "info");
                   ("desc", VStr ("Windows Event " +:+ toString eventId))]) in
  let parsed :=
    VObj
      [("timestamp",
          or_else (or_else (prop event "TimeCreated") (prop event "time_created"))
                  (VStr (nowISO rt)));
       ("source", VStr "windows");
       ("event_type", prop mapping "type");
       ("severity", prop mapping "severity");
       ("hostname",
          or_else (or_else (prop event "MachineName") (prop event "Computer"))
                  (prop event "hostname"));
       ("description", prop mapping "desc");
       ("raw_log", JSON_stringify rt event);
       ("parsed_data", VObj
          [("event_id", eventId);
           ("provider", or_else (prop event "ProviderName") (prop event "provider"));
           ("log_name",
              or_else (or_else (prop event "LogName") (prop event "log_name"))
                      (VStr "Security"));
           ("level", or_else (prop event "Level") (prop event "level"));
           ("keywords", or_else (prop event "Keywords") (prop event "keywords"));
           ("task", or_else (prop event "Task") (prop event "task"));
           ("opcode", or_else (prop event "Opcode") (prop event "opcode"))])] in
  let parsed :=
    if truthy (or_else (prop event "Properties") (prop event "properties"))
    then
      let props := or_else (prop event "Properties") (prop event "properties") in
      let parsed := setProp parsed "user" (extractUser props eventId) in
      set_data parsed "properties" props
    else parsed in
  if is_num eventId 4624 || is_num eventId 4625
  then Ret (parseLogonEvent parsed event)
  else if is_num eventId 4688
  then parseProcessEvent parsed event
  else if is_num eventId 7045 || is_num eventId 4697
  then Ret (parseServiceEvent parsed event)
  else Ret parsed.

(** [parse(rawData, metadata = {})] *)
Definition parse (rawData metadata : value) : outcome value :=
  let metadata := match metadata with VUndef => VObj [] | _ => metadata end in
  match rawData with
  | VStr raw =>
      match JSON_parse rt raw with
      | Some event => parseWindowsEvent event
      | None =>
          host ← getProp metadata "hostname";
          Ret (VObj
            [("timestamp", VStr (nowISO rt));
             ("source", VStr "windows");
             ("event_type", VStr "windows");
             ("severity", VStr "info");
             ("hostname", or_else host (VStr "unknown"));
             ("description", rawData);
             ("raw_log", rawData);
             ("parsed_data", VObj [("format", VStr "non-json")])])
      end
  | _ => parseWindowsEvent rawData
  end.

End WithRuntime.

(** The event id, the property array and the name of the executable as
    [parseWindowsEvent] and [parseProcessEvent] compute them, and the
    substrings the parser looks for in the lower-cased path. *)
Definition eventId_of (event : value) : value :=
  or_else (or_else (prop event "Id") (prop event "EventId"))
          (prop event "event_id").
Definition props_of (event : value) : value :=
  or_else (or_else (prop event "Properties") (prop event "properties"))
          (VArr []).
Definition processName_of (path : string) : string :=
  toString (or_else (VStr (List.last (split "\" path) "")) (VStr "Unknown")).
Definition from_temp (path : string) : bool :=
  includes (toLowerCase path) "\temp\"
  || includes (toLowerCase path) "\tmp\"
  || includes (toLowerCase path) "\appdata\local\temp".

(** A runtime for closed examples: its [JSON.parse] knows the one document
    ["null"] and rejects everything else, its [JSON.stringify] and clock
    return fixed strings. *)
Definition rt0 : Runtime :=
  {| JSON_parse := fun s => if String.eqb s "null" then Some VNull else None;
     JSON_stringify := fun _ => VStr "{}";
     nowISO := "2026-01-18T10:30:45.000Z";
     strToNumber := fun _ => None |}.

Definition process_event (path : string) : value :=
  VObj [("Id", VNum 4688);
        ("Properties",
           VArr [VStr "S-1-5-18"; VStr "alice"; VStr "CORP"; VStr "0x3e7";
                 VStr "0x1a2c"; VStr path; VStr "%%1936"; VStr "0x4";
                 VStr "cmd"; VStr "S-1-0-0"; VStr "-"; VStr "-"; VStr "0x0";
                 VStr "C:\Windows\explorer.exe"])].

End Windows.

(** ** The detection engine ([backend/services/detectionEngine.js]) *)

Module Detection.
Import JS.

(** What the engine uses of the runtime. *)
Record Runtime : Type := {
  (** [new Date(ts).getTime()]; [None] is NaN *)
  dateTime : value -> option Z;
  (** [new RegExp(pattern, 'i')]: [None] is a SyntaxError, otherwise the
      [test] of the compiled expression *)
  regExp : value -> option (string -> bool);
  strToNumber : string -> option Z
}.

(** A row of the [rules] table as [ruleOps.getEnabled] returns it; [id],
    [name] and [severity] are text columns, [description] may be null and
    [conditions] is the decoded JSON. *)
Record Rule : Type := {
  id : string;
  name : string;
  description : value;
  severity : string;
  conditions : value
}.

Record Alert : Type := {
  alert_id : string;
  alert_event_id : value;
  alert_rule_id : string;
  alert_severity : string;
  alert_status : string;
  alert_title : string;
  alert_description : string;
  alert_endpoint_id : value
}.

(** The collaborators of [createAlert]: the [uuid] generator and the two
    database statements, over a state [ext] of their own.  A statement that
    throws is [None]. *)
Record Sink : Type := {
  ext : Type;
  uuidv4 : ext -> string * ext;
  alertOps_insert : Alert -> ext -> option ext;
  ruleOps_incrementMatchCount : string -> ext -> option ext
}.

(** A value of the [thresholdState] map: [{ count, window_start, events }],
    an event entry being [{ id, timestamp }]. *)
Record WState : Type := {
  count : Z;
  window_start : Z;
  events : list (value * value)
}.

Definition fresh (now : Z) : WState :=
  {| count := 0; window_start := now; events := [] |}.

(** [getFieldValue].  [fieldPath.split] is a TypeError when [fieldPath] is
    truthy and not a string. *)
Fixpoint walk (parts : list string) (v : value) : value :=
  match parts with
  | [] => v
  | part :: rest => if is_nullish v then VUndef else walk rest (prop v part)
  end.

Definition getFieldValue (obj fieldPath : value) : outcome value :=
  if negb (truthy fieldPath) || negb (truthy obj) then Ret VUndef
  else match fieldPath with
       | VStr p => Ret (walk (split "." p) obj)
       | _ => Throw TypeError
       end.

(** [l.some(f)] and [l.every(f)] over the results of [f], left to right. *)
Fixpoint some (rs : list (outcome bool)) : outcome bool :=
  match rs with
  | [] => Ret false
  | r :: rs' => b ← r; if b : bool then Ret true else some rs'
  end.

Fixpoint every (rs : list (outcome bool)) : outcome bool :=
  match rs with
  | [] => Ret true
  | r :: rs' => b ← r; if b : bool then every rs' else Ret false
  end.

Section WithRuntime.
Context (rt : Runtime).

Definition present (v : value) : bool := negb (strict_eq v VUndef).

Definition equals_fails (condition fieldValue : value) : bool :=
  present (prop condition "equals")
  && negb (strict_eq fieldValue (prop condition "equals")).

Definition contains_fails (condition fieldValue : value) : bool :=
  present (prop condition "contains")
  && (negb (truthy fieldValue)
      || negb (includes (toLowerCase (toString fieldValue))
                 (toLowerCase (toString (prop condition "contains"))))).

Definition contains_any_fails (condition fieldValue : value) : bool :=
  truthy (prop condition "contains_any")
  && isArray (prop condition "contains_any")
  && (negb (truthy fieldValue)
      || negb (existsb
                 (fun c => includes (toLowerCase (toString fieldValue))
                             (toLowerCase (toString c)))
                 (elems (prop condition "contains_any")))).

(** The [try]/[catch] around the regular expression: a pattern that does
    not compile makes the check fail. *)
Definition matches_fails (condition fieldValue : value) : bool :=
  present (prop condition "matches")
  && match regExp rt (prop condition "matches") with
     | Some test =>
         negb (truthy fieldValue) || negb (test (toString fieldValue))
     | None => true
     end.

(** The body of [matchesCondition], given the results of its recursive
    calls: on the elements of [condition.any] and of [condition.all], on
    [condition.not] and on [condition.additional]. *)
Definition matchesBody (event condition : value)
    (r_any r_all : list (outcome bool)) (r_not r_additional : outcome bool)
  : outcome bool :=
  if negb (truthy condition) then Ret false
  else if truthy (prop condition "any") && isArray (prop condition "any")
  then some r_any
  else if truthy (prop condition "all") && isArray (prop condition "all")
  then every r_all
  else
    fieldValue ← getFieldValue event (prop condition "field");
    if equals_fails condition fieldValue then Ret false
    else if contains_fails condition fieldValue then Ret false
    else if contains_any_fails condition fieldValue then Ret false
    else if matches_fails condition fieldValue then Ret false
    else
      negated ← (if truthy (prop condition "not") then r_not else Ret false);
      if negated : bool then Ret false
      else if truthy (prop condition "additional") then r_additional
      else Ret true.

Fixpoint matchesCondition (event condition : value) {struct condition}
  : outcome bool :=
  match condition with
  | VObj fs =>
      let on_elems :=
        fix on_elems (k : string) (fs : list (string * value))
          : list (outcome bool) :=
          match fs with
          | [] => []
          | (k', v) :: rest =>
              if String.eqb k' k then
                match v with
                | VArr xs =>
                    (fix each (xs : list value) : list (outcome bool) :=
                       match xs with
                       | [] => []
                       | x :: xs' => matchesCondition event x :: each xs'
                       end) xs
                | _ => []
                end
              else on_elems k rest
          end in
      let on_field :=
        fix on_field (k : string) (fs : list (string * value))
          : outcome bool :=
          match fs with
          | [] => Ret false
          | (k', v) :: rest =>
              if String.eqb k' k then matchesCondition event v
              else on_field k rest
          end in
      matchesBody event condition
        (on_elems "any" fs) (on_elems "all" fs)
        (on_field "not" fs) (on_field "additional" fs)
  | _ => matchesBody event condition [] [] (Ret false) (Ret false)
  end.

(** The result on a node that carries no [any] and no [all] list. *)
Definition field_checks (event condition : value) : outcome bool :=
  fieldValue ← getFieldValue event (prop condition "field");
  if equals_fails condition fieldValue then Ret false
  else if contains_fails condition fieldValue then Ret false
  else if contains_any_fails condition fieldValue then Ret false
  else if matches_fails condition fieldValue then Ret false
  else
    negated ← (if truthy (prop condition "not")
               then matchesCondition event (prop condition "not")
               else Ret false);
    if negated : bool then Ret false
    else if truthy (prop condition "additional")
    then matchesCondition event (prop condition "additional")
    else Ret true.

(** Every check present on the node passes. *)
Definition checks_pass (event condition : value) : Prop :=
  ∃ fieldValue,
    getFieldValue event (prop condition "field") = Ret fieldValue
    ∧ equals_fails condition fieldValue = false
    ∧ contains_fails condition fieldValue = false
    ∧ contains_any_fails condition fieldValue = false
    ∧ matches_fails condition fieldValue = false
    ∧ (truthy (prop condition "not") = true →
       matchesCondition event (prop condition "not") = Ret false)
    ∧ (truthy (prop condition "additional") = true →
       matchesCondition event (prop condition "additional") = Ret true).

End WithRuntime.

(** *** The stateful rules

    The module-level [thresholdState] map and the state of the
    collaborators are threaded explicitly.  An exception leaves the
    mutations made before it in place. *)

Section WithSink.
Context (rt : Runtime) (sk : Sink).

Record World : Type := {
  thresholdState : gmap string WState;
  external : ext sk
}.

Definition M (A : Type) : Type := World -> outcome A * World.

#[export] Instance M_ret : MRet M := fun A a w => (Ret a, w).
#[export] Instance M_bind : MBind M := fun A B f m w =>
  match m w with
  | (Ret a, w') => f a w'
  | (Throw e, w') => (Throw e, w')
  end.

Definition lift {A : Type} (o : outcome A) : M A := fun w => (o, w).

(** [thresholdState.get(key)] *)
Definition state_get (key : string) : M (option WState) :=
  fun w => (Ret (thresholdState w !! key), w).

(** [thresholdState.set(key, st)] *)
Definition state_set (key : string) (st : WState) : M unit :=
  fun w => (Ret tt, {| thresholdState := <[key := st]> (thresholdState w);
                       external := external w |}).

(** [thresholdState.delete(key)] *)
Definition state_delete (key : string) : M unit :=
  fun w => (Ret tt, {| thresholdState := delete key (thresholdState w);
                       external := external w |}).

Definition new_uuid : M string :=
  fun w => let '(u, x) := uuidv4 sk (external w) in
           (Ret u, {| thresholdState := thresholdState w; external := x |}).

Definition sink (op : ext sk -> option (ext sk)) : M unit :=
  fun w => match op (external w) with
           | Some x => (Ret tt, {| thresholdState := thresholdState w;
                                   external := x |})
           | None => (Throw SinkError, w)
           end.

(** [createAlert]; the [console.log] is left out. *)
Definition createAlert (event : value) (rule : Rule) (details : string)
  : M Alert :=
  uid ← new_uuid;
  event_id ← lift (getProp event "id");
  let alert :=
    {| alert_id := uid;
       alert_event_id := event_id;
       alert_rule_id := id rule;
       alert_severity := severity rule;
       alert_status := "open";
       alert_title := name rule;
       alert_description :=
         toString (description rule) +:+ String "010" (String "010" "")
         +:+ "Details: " +:+ details;
       alert_endpoint_id := prop event "endpoint_id" |} in
  _ ← sink (alertOps_insert sk alert);
  _ ← sink (ruleOps_incrementMatchCount sk (id rule));
  mret alert.

(** [groupValue] and [stateKey], common to both stateful rules. *)
Definition groupValue (event group_by : value) : outcome value :=
  if truthy group_by then getFieldValue event group_by
  else Ret (VStr "global").

Definition stateKey (rule : Rule) (groupValue : value) : string :=
  id rule +:+ ":" +:+ toString groupValue.

(** [(now - new Date(e.timestamp).getTime()) < windowMs] *)
Definition recent (now : Z) (windowMs : option Z) (e : value * value) : bool :=
  num_lt (num_sub (Some now) (dateTime rt (snd e))) windowMs.

Definition num (v : value) : option Z := toNumber (strToNumber rt) v.

(** [processSignatureRule] *)
Definition processSignatureRule (event : value) (rule : Rule)
  : M (option Alert) :=
  ok ← lift (matchesCondition rt event (conditions rule));
  if ok : bool then
    a ← createAlert event rule ("Signature match: " +:+ name rule);
    mret (Some a)
  else mret None.

(** [processThresholdRule], [now] being the value of [Date.now()].
    [state.count++] acts on the object that is in the map when the window
    is reused, so the increment is visible there even if reading [event.id]
    throws. *)
Definition processThresholdRule (now : Z) (event : value) (rule : Rule)
  : M (option Alert) :=
  ok ← lift (matchesCondition rt event (conditions rule));
  if negb ok then mret None
  else
    let threshold := prop (conditions rule) "threshold" in
    let window_seconds := prop (conditions rule) "window_seconds" in
    let group_by := prop (conditions rule) "group_by" in
    g ← lift (groupValue event group_by);
    let key := stateKey rule g in
    let windowMs := num_mul (num (or_else window_seconds (VNum 60))) (Some 1000%Z) in
    found ← state_get key;
    let reused :=
      match found with
      | Some st =>
          if num_gt (Some (now - window_start st)%Z) windowMs then None
          else Some st
      | None => None
      end in
    let state := default (fresh now) reused in
    _ ← (if reused is Some st
         then state_set key {| count := count st + 1;
                               window_start := window_start st;
                               events := events st |}
         else mret tt);
    event_id ← lift (getProp event "id");
    let pushed := (events state ++ [(event_id, prop event "timestamp")])%list in
    let kept := List.filter (recent now windowMs) pushed in
    let state :=
      {| count := Z.of_nat (length kept);
         window_start := window_start state;
         events := kept |} in
    _ ← state_set key state;
    if num_ge (Some (count state)) (num (or_else threshold (VNum 5))) then
      _ ← state_set key (fresh now);
      a ← createAlert event rule
            ("Threshold exceeded: " +:+ pretty (count state)
             +:+ " events in " +:+ toString window_seconds
             +:+ "s (group: " +:+ toString g +:+ ")");
      mret (Some a)
    else mret None.

(** [processCorrelationRule].  The alert is returned from inside the
    stage-1 branch; the stage-0 branch runs when that [return] was not
    reached. *)
Definition processCorrelationRule (now : Z) (event : value) (rule : Rule)
  : M (option Alert) :=
  sequence ← lift (getProp (conditions rule) "sequence");
  let group_by := prop (conditions rule) "group_by" in
  if negb (truthy sequence) || num_lt (num (prop sequence "length")) (Some 2%Z)
  then mret None
  else
    g ← lift (groupValue event group_by);
    let key := stateKey rule g in
    let successPattern := optProp (prop sequence "1") "match" in
    ok1 ← (if truthy successPattern
           then lift (matchesCondition rt event successPattern)
           else mret false);
    fired ←
      (if ok1 : bool then
         found ← state_get key;
         let failurePattern := prop sequence "0" in
         window_seconds ← lift (getProp failurePattern "window_seconds");
         let windowMs :=
           num_mul (num (or_else window_seconds (VNum 300))) (Some 1000%Z) in
         let needed := num (or_else (prop failurePattern "count") (VNum 3)) in
         match found with
         | Some state =>
             if num_ge (Some (count state)) needed then
               let recentFailures :=
                 List.filter (recent now windowMs) (events state) in
               if num_ge (Some (Z.of_nat (length recentFailures))) needed
               then
                 _ ← state_delete key;
                 a ← createAlert event rule
                       ("Correlation match: Success after "
                        +:+ pretty (Z.of_nat (length recentFailures))
                        +:+ " failures");
                 mret (Some a)
               else mret None
             else mret None
         | None => mret None
         end
       else mret None);
    match fired with
    | Some a => mret (Some a)
    | None =>
        let failurePattern := optProp (prop sequence "0") "match" in
        ok0 ← (if truthy failurePattern
               then lift (matchesCondition rt event failurePattern)
               else mret false);
        if ok0 : bool then
          found ← state_get key;
          let state := default (fresh now) found in
          _ ← (if found is Some st
               then state_set key {| count := count st + 1;
                                     window_start := window_start st;
                                     events := events st |}
               else mret tt);
          event_id ← lift (getProp event "id");
          _ ← state_set key
                {| count := count state + 1;
                   window_start := window_start state;
                   events := (events state
                              ++ [(event_id, prop event "timestamp")])%list |};
          mret None
        else mret None
    end.

(** Feeding one rule a stream of events, each with the clock reading at
    which it is processed: the results in order. *)
Fixpoint feed (step : Z -> value -> M (option Alert))
    (stream : list (Z * value)) : M (list (option Alert)) :=
  match stream with
  | [] => mret []
  | (now, event) :: rest =>
      r ← step now event;
      rs ← feed step rest;
      mret (r :: rs)
  end.

Definition entry (event : value) : value * value :=
  (prop event "id", prop event "timestamp").

(** The parameters of a threshold rule as [processThresholdRule] computes
    them, the window state it works on (the one in the map unless it is
    absent or older than the window) and the map after a write. *)
Definition windowMs_of (rule : Rule) : option Z :=
  num_mul (num (or_else (prop (conditions rule) "window_seconds") (VNum 60)))
          (Some 1000%Z).

Definition threshold_of (rule : Rule) : option Z :=
  num (or_else (prop (conditions rule) "threshold") (VNum 5)).

Definition active (now : Z) (windowMs : option Z) (found : option WState)
  : WState :=
  match found with
  | Some st =>
      if num_gt (Some (now - window_start st)%Z) windowMs then fresh now
      else st
  | None => fresh now
  end.

Definition with_state (key : string) (st : WState) (w : World) : World :=
  {| thresholdState := <[key := st]> (thresholdState w);
     external := external w |}.

Definition without_state (key : string) (w : World) : World :=
  {| thresholdState := delete key (thresholdState w);
     external := external w |}.

(** The alert [createAlert] builds for [event], [rule] and [details], up
    to its identifier. *)
Definition alert_for (event : value) (rule : Rule) (details : string)
    (a : Alert) : Prop :=
  alert_event_id a = prop event "id"
  ∧ alert_rule_id a = id rule
  ∧ alert_severity a = severity rule
  ∧ alert_status a = "open"
  ∧ alert_title a = name rule
  ∧ alert_description a
    = toString (description rule) +:+ String "010" (String "010" "")
      +:+ "Details: " +:+ details
  ∧ alert_endpoint_id a = prop event "endpoint_id".

(** The parameters of a correlation rule as [processCorrelationRule]
    computes them: the two stages, the window and the count of stage 0,
    whether the stage-1 branch reaches its [return], and the window state
    after the stage-0 branch. *)
Definition stage (rule : Rule) (i : string) : value :=
  prop (prop (conditions rule) "sequence") i.

Definition has_sequence (rule : Rule) : bool :=
  truthy (prop (conditions rule) "sequence")
  && negb (num_lt (num (prop (prop (conditions rule) "sequence") "length"))
                  (Some 2%Z)).

Definition failure_windowMs (rule : Rule) : option Z :=
  num_mul (num (or_else (prop (stage rule "0") "window_seconds") (VNum 300)))
          (Some 1000%Z).

Definition failures_needed (rule : Rule) : option Z :=
  num (or_else (prop (stage rule "0") "count") (VNum 3)).

Definition recentFailures (now : Z) (rule : Rule) (st : WState)
  : list (value * value) :=
  List.filter (recent now (failure_windowMs rule)) (events st).

Definition fires (now : Z) (rule : Rule) (found : option WState) : bool :=
  match found with
  | Some st =>
      num_ge (Some (count st)) (failures_needed rule)
      && num_ge (Some (Z.of_nat (length (recentFailures now rule st))))
                (failures_needed rule)
  | None => false
  end.

Definition appended (now : Z) (event : value) (found : option WState)
  : WState :=
  let st := default (fresh now) found in
  {| count := count st + 1;
     window_start := window_start st;
     events := (events st ++ [entry event])%list |}.

(** A matching event of the group [g]. *)
Definition matching (rule : Rule) (g : value) (event : value) : Prop :=
  matchesCondition rt event (conditions rule) = Ret true
  ∧ groupValue event (prop (conditions rule) "group_by") = Ret g
  ∧ is_nullish event = false.

(** A stream that stays within the window of [windowMs] milliseconds:
    every event has a timestamp, is processed less than [windowMs] after
    it, and every later event is processed at most [windowMs] after this
    one was processed and less than [windowMs] after its timestamp. *)
Fixpoint within_window (windowMs : Z) (stream : list (Z * value)) : bool :=
  match stream with
  | [] => true
  | (now, event) :: rest =>
      match dateTime rt (prop event "timestamp") with
      | Some t =>
          (now - t <? windowMs)%Z
          && forallb (fun later =>
                        (fst later - now <=? windowMs)%Z
                        && (fst later - t <? windowMs)%Z) rest
      | None => false
      end
      && within_window windowMs rest
  end.

(** The window state found in the map fits the stream: it holds [acc],
    every entry of [acc] is still recent whenever an event of the stream
    is processed, and the window it opened has not expired by then. *)
Definition bucket_fits (windowMs : Z) (found : option WState)
    (acc : list (value * value)) (stream : list (Z * value)) : Prop :=
  match found with
  | Some st =>
      events st = acc
      ∧ Forall (λ later, (later.1 - window_start st ≤ windowMs)%Z) stream
  | None => acc = []
  end
  ∧ Forall (λ x, ∃ t, dateTime rt x.2 = Some t
                      ∧ Forall (λ later, (later.1 - t < windowMs)%Z) stream)
           acc.

(** The database accepts every statement. *)
Definition sink_accepts : Prop :=
  (∀ a x, is_Some (alertOps_insert sk a x))
  ∧ (∀ r x, is_Some (ruleOps_incrementMatchCount sk r x)).

End WithSink.

(** A runtime for closed examples: a timestamp is a number of
    milliseconds, [RegExp] rejects the pattern "(" and compiles any other
    pattern as a literal, and no string converts to a number. *)
Definition rt0 : Runtime :=
  {| dateTime := fun v => match v with VNum n => Some n | _ => None end;
     regExp := fun p =>
       if String.eqb (toString p) "(" then None
       else Some (fun s => includes (toLowerCase s) (toLowerCase (toString p)));
     strToNumber := fun _ => None |}.

(** A sink for closed examples: the alerts inserted so far, the match
    counts, and a counter from which the identifiers are drawn. *)
Definition sink0 : Sink :=
  {| ext := list Alert * gmap string nat * N;
     uuidv4 := fun '(alerts, counts, n) =>
       ("alert-" +:+ pretty n, (alerts, counts, (n + 1)%N));
     alertOps_insert := fun a '(alerts, counts, n) =>
       Some (a :: alerts, counts, n);
     ruleOps_incrementMatchCount := fun rid '(alerts, counts, n) =>
       Some (alerts, <[rid := S (default 0%nat (counts !! rid))]> counts, n) |}.

(** An event and three nodes for closed examples: [any_node] carries an
    [any] list beside an [equals] check, [broken_node] a pattern that does
    not compile, and [root_node] reads a field the event does not have. *)
Definition any_event : value := VObj [("a", VNum 1)].
Definition any_node : value :=
  VObj [("any", VArr [VObj [("field", VStr "a"); ("equals", VNum 1)]]);
        ("field", VStr "b"); ("equals", VNum 2)].
Definition broken_node : value :=
  VObj [("field", VStr "parsed_data.source_ip"); ("matches", VStr "(")].
Definition root_node : value :=
  VObj [("field", VStr "parsed_data.target_user"); ("equals", VStr "root")].

(** Events and rules for closed examples.  [brute_force t] is the default
    rule [brute-force-ssh] with the threshold [t], [login_after_failures]
    is the default rule of that name, and [attempts_then_success] is a
    correlation rule whose two stages are not exclusive: every
    authentication event is an attempt, and a success closes the
    sequence. *)
Definition auth_event (ident : string) (ts : Z) (result : string)
    (source : list (string * value)) : value :=
  VObj [("id", VStr ident); ("timestamp", VNum ts);
        ("event_type", VStr "authentication");
        ("endpoint_id", VStr "endpoint-1");
        ("parsed_data",
           VObj ([("auth_type", VStr "ssh"); ("auth_result", VStr result)]
                 ++ source)%list)].

Definition from_ip (ip : string) : list (string * value) :=
  [("source_ip", VStr ip)].

Definition brute_force (t : Z) : Rule :=
  {| id := "brute-force-ssh";
     name := "SSH Brute Force Detection";
     description :=
       VStr "Detects 5 or more failed SSH logins within 60 seconds from the same IP";
     severity := "critical";
     conditions :=
       VObj [("field", VStr "parsed_data.auth_type");
             ("equals", VStr "ssh");
             ("additional",
                VObj [("field", VStr "parsed_data.auth_result");
                      ("equals", VStr "failure")]);
             ("threshold", VNum t);
             ("window_seconds", VNum 60);
             ("group_by", VStr "parsed_data.source_ip")] |}.

Definition login_after_failures : Rule :=
  {| id := "login-after-failures";
     name := "Successful Login After Failures";
     description :=
       VStr "Detects successful login following 3+ failed attempts (potential compromise)";
     severity := "critical";
     conditions :=
       VObj [("sequence",
                VArr [VObj [("count", VNum 3);
                            ("window_seconds", VNum 300);
                            ("match",
                               VObj [("field", VStr "parsed_data.auth_result");
                                     ("equals", VStr "failure")])];
                      VObj [("match",
                               VObj [("field", VStr "parsed_data.auth_result");
                                     ("equals", VStr "success")])]]);
             ("group_by", VStr "parsed_data.source_ip")] |}.

Definition attempts_then_success : Rule :=
  {| id := "attempts-then-success";
     name := "Successful Login After Attempts";
     description := VNull;
     severity := "warning";
     conditions :=
       VObj [("sequence",
                VArr [VObj [("count", VNum 3);
                            ("window_seconds", VNum 300);
                            ("match",
                               VObj [("field", VStr "event_type");
                                     ("equals", VStr "authentication")])];
                      VObj [("match",
                               VObj [("field", VStr "parsed_data.auth_result");
                                     ("equals", VStr "success")])]]);
             ("group_by", VStr "parsed_data.source_ip")] |}.

Definition world0 : World sink0 :=
  Build_World sink0 ∅ ([], ∅, 0%N).

(** Four failed logins from one address, one second apart, each processed
    100 ms after its timestamp; a successful login from that address; and
    two failed logins that carry no source address. *)
Definition failure (n : Z) : Z * value :=
  ((n * 1000)%Z,
   auth_event ("event-" +:+ pretty n) (n * 1000 - 100) "failure"
              (from_ip "10.0.0.7")).

Definition success : value :=
  auth_event "event-9" 8900 "success" (from_ip "10.0.0.7").

Definition anonymous (n : Z) (host : string) : Z * value :=
  ((n * 1000)%Z,
   auth_event ("event-" +:+ pretty n) (n * 1000 - 100) "failure"
              [("hostname", VStr host)]).

(** The world after the rule [rule] has seen three failures. *)
Definition after_three_failures (rule : Rule) : World sink0 :=
  (feed sink0 (fun now event => processCorrelationRule rt0 sink0 now event rule)
        [failure 1; failure 2; failure 3] world0).2.

End Detection.

(** ** The dispatch loop, the periodic sweep and the default rules
    ([backend/services/detectionEngine.js]) *)

Module Dispatch.
Import JS Detection.

(** The default rules that are not among the examples of [Detection]. *)
Definition privilege_escalation_sudo : Rule :=
  {| id := "privilege-escalation-sudo";
     name := "Sudo to Root";
     description := VStr "Detects privilege escalation to root via sudo";
     severity := "warning";
     conditions :=
       VObj [("field", VStr "event_type");
             ("equals", VStr "privilege");
             ("additional",
                VObj [("field", VStr "parsed_data.target_user");
                      ("equals", VStr "root")])] |}.

Definition new_service_installed : Rule :=
  {| id := "new-service-installed";
     name := "New Service Installation";
     description :=
       VStr "Detects new Windows service installation (Event ID 7045/4697)";
     severity := "warning";
     conditions :=
       VObj [("any",
                VArr [VObj [("field", VStr "parsed_data.event_id");
                            ("equals", VNum 7045)];
                      VObj [("field", VStr "parsed_data.event_id");
                            ("equals", VNum 4697)]])] |}.

Definition process_from_temp : Rule :=
  {| id := "process-from-temp";
     name := "Process Execution from Temp Directory";
     description :=
       VStr "Detects processes running from temporary directories (common malware behavior)";
     severity := "warning";
     conditions :=
       VObj [("field", VStr "parsed_data.new_process_name");
             ("contains_any",
                VArr [VStr "\temp\"; VStr "\tmp\"; VStr "/tmp/";
                      VStr "appdata\local\temp"])] |}.

Definition audit_log_cleared : Rule :=
  {| id := "audit-log-cleared";
     name := "Security Audit Log Cleared";
     description :=
       VStr "Detects when security audit logs are cleared (Event ID 1102)";
     severity := "critical";
     conditions :=
       VObj [("field", VStr "parsed_data.event_id");
             ("equals", VNum 1102)] |}.

Definition external_ssh_login : Rule :=
  {| id := "external-ssh-login";
     name := "SSH Login from External IP";
     description := VStr "Detects SSH logins from non-RFC1918 IP addresses";
     severity := "warning";
     conditions :=
       VObj [("field", VStr "parsed_data.auth_type");
             ("equals", VStr "ssh");
             ("additional",
                VObj [("field", VStr "parsed_data.auth_result");
                      ("equals", VStr "success")]);
             ("not",
                VObj [("field", VStr "parsed_data.source_ip");
                      ("matches",
                         VStr "^(10\.|172\.(1[6-9]|2[0-9]|3[01])\.|192\.168\.|127\.|::1|localhost)")])] |}.

Definition failed_login_burst : Rule :=
  {| id := "failed-login-burst";
     name := "Failed Login Burst";
     description :=
       VStr "Detects 10 or more failed logins within 5 minutes (any auth type)";
     severity := "warning";
     conditions :=
       VObj [("field", VStr "parsed_data.auth_result");
             ("equals", VStr "failure");
             ("threshold", VNum 10);
             ("window_seconds", VNum 300);
             ("group_by", VStr "hostname")] |}.

(** [DEFAULT_RULES], each rule with its [rule_type]. *)
Definition DEFAULT_RULES : list (string * Rule) :=
  [("threshold", brute_force 5);
   ("correlation", login_after_failures);
   ("signature", privilege_escalation_sudo);
   ("signature", new_service_installed);
   ("signature", process_from_temp);
   ("signature", audit_log_cleared);
   ("signature", external_ssh_login);
   ("threshold", failed_login_burst)].

(** Every object of a condition tree has a [field] that is a string or is
    absent: the shape of the rule JSON. *)
Definition field_ok (v : value) : bool :=
  isString (prop v "field") || negb (truthy (prop v "field")).

Fixpoint fields_ok (v : value) : bool :=
  match v with
  | VObj fs =>
      field_ok v
      && (fix each (fs : list (string * value)) : bool :=
            match fs with
            | [] => true
            | (_, x) :: fs' => fields_ok x && each fs'
            end) fs
  | VArr xs =>
      (fix each (xs : list value) : bool :=
         match xs with
         | [] => true
         | x :: xs' => fields_ok x && each xs'
         end) xs
  | _ => true
  end.

(** The callback of [setInterval]: the states whose window started more
    than ten minutes before [now] are deleted. *)
Definition maxAge : Z := 10 * 60 * 1000.

Definition sweep (now : Z) (states : gmap string WState)
  : gmap string WState :=
  filter (λ kv, negb (maxAge <? now - window_start kv.2)%Z) states.

Section WithSink.
Context (rt : Runtime) (sk : Sink).

Definition sweep_world (now : Z) (w : World sk) : World sk :=
  {| thresholdState := sweep now (thresholdState sk w);
     external := external sk w |}.

(** An enabled rule as a turn of the loop of [processEvent]: its
    [rule_type], the rule, and the value [Date.now()] has in its
    handler. *)
Record Turn : Type := {
  rule_type : string;
  rule : Rule;
  now : Z
}.

(** The [switch] of [processEvent]. *)
Definition handler (event : value) (t : Turn) : M sk (option Alert) :=
  if String.eqb (rule_type t) "signature"
  then processSignatureRule rt sk event (rule t)
  else if String.eqb (rule_type t) "threshold"
  then processThresholdRule rt sk (now t) event (rule t)
  else if String.eqb (rule_type t) "correlation"
  then processCorrelationRule rt sk (now t) event (rule t)
  else mret None.

(** [processEvent], on the rules [ruleOps.getEnabled()] returned: the
    [try] catches what a handler throws, the [console.error] is left
    out, and the result is the [alerts] array. *)
Fixpoint processEvent (event : value) (turns : list Turn)
  : M sk (list Alert) :=
  match turns with
  | [] => mret []
  | t :: rest =>
      fun w =>
        let '(o, w') := handler event t w in
        let found :=
          match o with
          | Ret (Some a) => [a]
          | Ret None | Throw _ => []
          end in
        (rs ← processEvent event rest; mret (found ++ rs)%list) w'
  end.

End WithSink.

End Dispatch.

(** ** The values the model is exact on

    [JS.prop] reads own members and [JS.toString] always returns.  In
    JavaScript a read also finds what the value inherits from its
    prototype, and the conversion of an object to a string calls its
    [toString], which is a TypeError when the object has an own member of
    that name (a JSON value is never a function).  The predicates below
    describe the keys and the values on which the two agree with
    JavaScript; the properties that depend on a read by an arbitrary key
    or on a conversion to a string are stated on them. *)

Module Domain.
Import JS.

(** The members that an object, an array, a string, a number or a boolean
    inherits: those of [Object.prototype], [Array.prototype],
    [String.prototype] and [Number.prototype] (ECMAScript 2024 with its
    Annex B); [Boolean.prototype] adds none.  [length] and the indices are
    own members of arrays and strings and are read by [JS.prop]. *)
Definition inherited : list string :=
  [ "constructor"; "__defineGetter__"; "__defineSetter__"; "hasOwnProperty";
    "__lookupGetter__"; "__lookupSetter__"; "isPrototypeOf";
    "propertyIsEnumerable"; "toString"; "valueOf"; "__proto__";
    "toLocaleString";
    "at"; "concat"; "copyWithin"; "entries"; "every"; "fill"; "filter";
    "find"; "findIndex"; "findLast"; "findLastIndex"; "flat"; "flatMap";
    "forEach"; "includes"; "indexOf"; "join"; "keys"; "lastIndexOf"; "map";
    "pop"; "push"; "reduce"; "reduceRight"; "reverse"; "shift"; "slice";
    "some"; "sort"; "splice"; "toReversed"; "toSorted"; "toSpliced";
    "unshift"; "values"; "with";
    "anchor"; "big"; "blink"; "bold"; "charAt"; "charCodeAt"; "codePointAt";
    "endsWith"; "fixed"; "fontcolor"; "fontsize"; "isWellFormed"; "italics";
    "link"; "localeCompare"; "match"; "matchAll"; "normalize"; "padEnd";
    "padStart"; "repeat"; "replace"; "replaceAll"; "search"; "small";
    "split"; "strike"; "sub"; "substr"; "substring"; "sup"; "startsWith";
    "toLocaleLowerCase"; "toLocaleUpperCase"; "toLowerCase"; "toUpperCase";
    "toWellFormed"; "trim"; "trimEnd"; "trimLeft"; "trimRight"; "trimStart";
    "toExponential"; "toFixed"; "toPrecision" ].

(** A key that no value inherits: reading it finds an own member or
    nothing. *)
Definition data_key (k : string) : bool :=
  negb (existsb (String.eqb k) inherited).

(** A dotted path all of whose segments are such keys. *)
Definition data_path (p : string) : bool := forallb data_key (split "." p).

(** The key is not an own member of the object. *)
Fixpoint lacks (k : string) (fields : list (string * value)) : bool :=
  match fields with
  | [] => true
  | (k', _) :: rest => negb (String.eqb k' k) && lacks k rest
  end.

(** No object inside the value has an own member [toString]: the value
    and everything read from it convert to a string without exception. *)
Fixpoint plain (v : value) : bool :=
  match v with
  | VObj fs =>
      lacks "toString" fs
      && (fix each (fs : list (string * value)) : bool :=
            match fs with
            | [] => true
            | (_, x) :: fs' => plain x && each fs'
            end) fs
  | VArr xs =>
      (fix each (xs : list value) : bool :=
         match xs with
         | [] => true
         | x :: xs' => plain x && each xs'
         end) xs
  | _ => true
  end.

(** [String(v)] is [JS.toString v]: a number is written with all its
    digits (below 10^21), an object has no own [toString], and the
    elements of an array are such values. *)
Fixpoint printable (v : value) : bool :=
  match v with
  | VNum n => (Z.abs n <? 10 ^ 21)%Z
  | VObj fs => lacks "toString" fs
  | VArr xs =>
      (fix each (xs : list value) : bool :=
         match xs with
         | [] => true
         | x :: xs' => printable x && each xs'
         end) xs
  | _ => true
  end.

(** Every [field] of the condition tree is falsy or a path of data keys. *)
Definition field_safe (v : value) : bool :=
  match prop v "field" with
  | VStr p => data_path p
  | f => negb (truthy f)
  end.

Fixpoint fields_safe (v : value) : bool :=
  match v with
  | VObj fs =>
      field_safe v
      && (fix each (fs : list (string * value)) : bool :=
            match fs with
            | [] => true
            | (_, x) :: fs' => fields_safe x && each fs'
            end) fs
  | VArr xs =>
      (fix each (xs : list value) : bool :=
         match xs with
         | [] => true
         | x :: xs' => fields_safe x && each xs'
         end) xs
  | _ => true
  end.

(** The largest integer below which every integer is a number of
    JavaScript. *)
Definition max_safe : Z := 2 ^ 53.

End Domain.

(** ** Predicates of the properties

    What the theorems on the parsers, the matcher and the rule handlers
    are stated with. *)

Module RegexCheck.
Import Regex.

(** The characters. *)
Definition all_ascii : list ascii := ascii_of_nat <$> seq 0 256.

(** Every match of [r] consumes a character of the class [bad]: a
    sufficient syntactic condition. *)
Fixpoint must_hit (bad : ascii → bool) (r : re) : bool :=
  match r with
  | Cls p => forallb (λ c, implb (p c) (bad c)) all_ascii
  | Cat r1 r2 => must_hit bad r1 || must_hit bad r2
  | Alt r1 r2 => must_hit bad r1 && must_hit bad r2
  | Grp _ r1 => must_hit bad r1
  | Eps | Star _ _ | Bol | Eol => false
  end.

(** No character of [s] is in the class [bad]. *)
Fixpoint avoids (bad : ascii → bool) (s : string) : bool :=
  match s with
  | "" => true
  | String c s' => negb (bad c) && avoids bad s'
  end.

End RegexCheck.

Module WindowsRecord.
Import JS Windows.

(** The entry of [EVENT_MAPPINGS] for an event id, or the default. *)
Definition mapping_of (eventId : value) : value :=
  or_else (prop EVENT_MAPPINGS (toString eventId))
          (VObj [("type", VStr "windows"); ("severity", VStr "info");
                 ("desc", VStr ("Windows Event " +:+ toString eventId))]).

(** The record [parseWindowsEvent] has built when it reaches the parsers
    of the specific events. *)
Definition initial (rt : Runtime) (event : value) : value :=
  let eventId := eventId_of event in
  let mapping := mapping_of eventId in
  let parsed :=
    VObj
      [("timestamp",
          or_else (or_else (prop event "TimeCreated") (prop event "time_created"))
                  (VStr (nowISO rt)));
       ("source", VStr "windows");
       ("event_type", prop mapping "type");
       ("severity", prop mapping "severity");
       ("hostname",
          or_else (or_else (prop event "MachineName") (prop event "Computer"))
                  (prop event "hostname"));
       ("description", prop mapping "desc");
       ("raw_log", JSON_stringify rt event);
       ("parsed_data", VObj
          [("event_id", eventId);
           ("provider", or_else (prop event "ProviderName") (prop event "provider"));
           ("log_name",
              or_else (or_else (prop event "LogName") (prop event "log_name"))
                      (VStr "Security"));
           ("level", or_else (prop event "Level") (prop event "level"));
           ("keywords", or_else (prop event "Keywords") (prop event "keywords"));
           ("task", or_else (prop event "Task") (prop event "task"));
           ("opcode", or_else (prop event "Opcode") (prop event "opcode"))])] in
  if truthy (or_else (prop event "Properties") (prop event "properties"))
  then
    let props := or_else (prop event "Properties") (prop event "properties") in
    let parsed := setProp parsed "user" (extractUser props eventId) in
    set_data parsed "properties" props
  else parsed.

(** The event [parse] hands to [parseWindowsEvent], if any: what
    [JSON.parse] reads in a string, and any other input itself. *)
Definition decoded (rt : Runtime) (rawData : value) : option value :=
  match rawData with
  | VStr raw => JSON_parse rt raw
  | _ => Some rawData
  end.

(** A value that has a [split] method or is skipped by [?.]. *)
Definition path_ok (v : value) : bool :=
  match v with
  | VUndef | VNull | VStr _ => true
  | _ => false
  end.

(** The ids the parser has a specific parser for. *)
Definition enriched : list Z := [4624; 4625; 4688; 7045; 4697]%Z.

(** The parts of the description of a logon event. *)
Definition logonType_of (props : value) : string :=
  toString (or_else (prop LOGON_TYPES (toString (at_ props "8")))
                    (VStr "Unknown")).
Definition logonUser_of (props : value) : string := toString (at_ props "5").
Definition logonIp_of (props : value) : string :=
  toString (or_else (at_ props "18") (VStr "local")).

(** A failed logon over the network, with its id under the key [idKey]. *)
Definition logon_event (idKey : string) : value :=
  VObj [(idKey, VNum 4625);
        ("Properties",
           VArr [VStr "S-1-0-0"; VStr "-"; VStr "-"; VStr "0x0";
                 VStr "S-1-0-0"; VStr "alice"; VStr "CORP"; VStr "0xc000006d";
                 VNum 3; VStr "NtLmSsp"; VStr "NTLM"; VStr "WS-17"])].

End WindowsRecord.

Module Properties.
Import JS Regex AuthLog Detection Dispatch.

(** *** Conditions *)

(** The node carries no field-level check. *)
Definition no_checks (condition : value) : Prop :=
  isArray (prop condition "any") = false
  ∧ isArray (prop condition "all") = false
  ∧ field_ok condition = true
  ∧ prop condition "equals" = VUndef
  ∧ prop condition "contains" = VUndef
  ∧ isArray (prop condition "contains_any") = false
  ∧ prop condition "matches" = VUndef.

(** A condition that only compares one field: no [any], [all],
    [contains], [contains_any], [matches] or [not]. *)
Definition equals_only (condition : value) : Prop :=
  truthy condition = true
  ∧ isString (prop condition "field") = true
  ∧ prop condition "any" = VUndef ∧ prop condition "all" = VUndef
  ∧ prop condition "contains" = VUndef
  ∧ prop condition "contains_any" = VUndef
  ∧ prop condition "matches" = VUndef
  ∧ prop condition "not" = VUndef.

Definition returns (r : outcome bool) : Prop := ∃ b, r = Ret b.

(** What the induction on a condition carries: the value evaluates as a
    condition, and so does each of its elements if it is an array. *)
Definition evaluates (rt : Runtime) (event v : value) : Prop :=
  fields_ok v = true →
  returns (matchesCondition rt event v)
  ∧ Forall (λ x, returns (matchesCondition rt event x)) (elems v).

(** The event matches the condition: [matchesCondition] returns [true]. *)
Definition matched (rt : Runtime) (event condition : value) : bool :=
  match matchesCondition rt event condition with
  | Ret true => true
  | _ => false
  end.

(** *** Streams of events *)

(** The event is not recent when it is processed: it has no timestamp
    that [Date] reads, or one that is a window length old. *)
Definition stale (rt : Runtime) (W : Z) (x : Z * value) : Prop :=
  recent rt x.1 (Some W) (entry x.2) = false.

(** An event of the group [g] that matches stage 0 of a correlation rule
    and not its stage 1. *)
Definition failing (rt : Runtime) (rule : Rule) (g : value) (event : value)
  : Prop :=
  matchesCondition rt event (optProp (stage rule "0") "match") = Ret true
  ∧ matchesCondition rt event (optProp (stage rule "1") "match") = Ret false
  ∧ groupValue event (prop (conditions rule) "group_by") = Ret g
  ∧ is_nullish event = false.

(** A bucket of a correlation rule opened at time 0 that holds three
    failures of the last two seconds before 700 s. *)
Definition old_bucket : WState :=
  {| count := 3;
     window_start := 0;
     events := [(VStr "event-1", VNum 699000); (VStr "event-2", VNum 699500);
                (VStr "event-3", VNum 700000)] |}.

(** *** Computations *)

(** A computation that the sweep at [s] does not disturb: run after the
    sweep it gives the same outcome, and the state it leaves is the swept
    state it would have left without. *)
Definition unswept {sk : Sink} {A : Type} (s : Z) (m : M sk A) : Prop :=
  ∀ w, m (sweep_world sk s w) = ((m w).1, sweep_world sk s (m w).2).

(** What a computation returns, when it returns, satisfies [P]. *)
Definition yields {sk : Sink} {A : Type} (P : A → Prop) (m : M sk A) : Prop :=
  ∀ w a, (m w).1 = Ret a → P a.

(** The alerts of [event] and [rule]. *)
Definition alert_of (event : value) (rule : Rule) (o : option Alert) : Prop :=
  ∀ a, o = Some a → ∃ details, alert_for event rule details a.

(** The rule types [processEvent] has a case for. *)
Definition known (t : Turn) : bool :=
  String.eqb (rule_type t) "signature"
  || String.eqb (rule_type t) "threshold"
  || String.eqb (rule_type t) "correlation".

(** A signature rule whose conditions have the shape of the rule JSON. *)
Definition signature_turn (t : Turn) : Prop :=
  rule_type t = "signature" ∧ fields_ok (conditions (rule t)) = true.

(** An event of a sudo to root, and the signature rules among the
    default rules. *)
Definition sudo_event : value :=
  VObj [("event_type", VStr "privilege");
        ("parsed_data", VObj [("target_user", VStr "root")])].


Definition signature_turns : list Turn :=
  (λ r, {| rule_type := r.1; rule := r.2; now := 0 |})
  <$> List.filter (λ r, String.eqb r.1 "signature") DEFAULT_RULES.

(** *** The branches of the auth-log parser *)

(** The fields no branch writes. *)
Definition untouched (k : string) : Prop :=
  k ≠ "severity" ∧ k ≠ "user" ∧ k ≠ "description" ∧ k ≠ "event_type"
  ∧ k ≠ "parsed_data".

Definition branch_ok (b : re * (value → captures → value)) : Prop :=
  ∀ result m,
    isObj result = true →
    isObj (b.2 result m) = true
    ∧ (∀ k, untouched k → prop (b.2 result m) k = prop result k)
    ∧ prop (b.2 result m) "event_type"
      ∈ [prop result "event_type"; VStr "privilege"; VStr "account"]
    ∧ prop (b.2 result m) "severity" ∈ [VStr "warning"; VStr "info"].

(** The messages of the examples and what their patterns capture. *)
Definition ssh_failed_message : string :=
  "Failed password for root from 192.168.1.100 port 22 ssh2".
Definition ssh_failed_captures : captures :=
  Eval vm_compute in default [] (exec SSH_FAILED ssh_failed_message).

Definition sudo_message : string :=
  "admin : TTY=pts/0 ; PWD=/home/admin ; USER=root ; COMMAND=/bin/bash".
Definition sudo_captures : captures :=
  Eval vm_compute in default [] (exec SUDO_SUCCESS sudo_message).

End Properties.

(** * The repetition of the regular expressions *)

Module RegexFacts.
Import Regex.

Section Star.
Context {R : Type}.

Lemma go_star lazy r1 pos s cs (k : nat → string → captures → option R) :
  go (Star lazy r1) pos s cs k = star_loop lazy r1 k (String.length s) pos s cs.
Proof. reflexivity. Qed.

(** [go] only depends on what its continuation returns. *)
Lemma go_ext (r : re) :
  ∀ pos s cs (k k' : nat → string → captures → option R),
  (∀ pos' s' cs', k pos' s' cs' = k' pos' s' cs') →
  go r pos s cs k = go r pos s cs k'.
Proof.
  induction r as [|p|r1 IH1 r2 IH2|r1 IH1 r2 IH2|lazy r1 IH|i r1 IH| |];
    intros pos s cs k k' Hk; simpl.
  - apply Hk.
  - destruct s as [|c s]; [done|]. destruct (p c); [apply Hk|done].
  - apply IH1. intros. by apply IH2.
  - rewrite (IH1 _ _ _ k k' Hk). by rewrite (IH2 _ _ _ k k' Hk).
  - generalize (String.length s). intros fuel.
    revert pos s cs. induction fuel as [|fuel IHf]; intros pos s cs; [apply Hk|].
    rewrite (Hk pos s cs).
    erewrite (IH pos s cs); [reflexivity|].
    intros pos' s' cs'. simpl. destruct (_ <? _)%nat; [apply IHf|done].
  - apply IH. intros. apply Hk.
  - destruct (Nat.eqb pos 0); [apply Hk|done].
  - destruct s; [apply Hk|done].
Qed.

(** A continuation that always fails makes [go] fail. *)
Lemma go_fail (r : re) :
  ∀ pos s cs, go r pos s cs (λ _ _ _, None : option R) = None.
Proof.
  induction r as [|p|r1 IH1 r2 IH2|r1 IH1 r2 IH2|lazy r1 IH|i r1 IH| |];
    intros pos s cs; simpl; try done.
  - destruct s as [|c s]; [done|]. by destruct (p c).
  - erewrite go_ext; [apply IH1|]. intros. apply IH2.
  - by rewrite IH1, IH2.
  - generalize (String.length s). intros fuel. revert pos s cs.
    induction fuel as [|fuel IHf]; intros pos s cs; [done|].
    erewrite go_ext; [rewrite IH; by destruct lazy|].
    intros pos' s' cs'. simpl. destruct (_ <? _)%nat; [apply IHf|done].
  - by destruct (Nat.eqb pos 0).
  - by destruct s.
Qed.

Lemma star_loop_succ lazy r1 (k : nat → string → captures → option R) :
  ∀ fuel pos s cs, (String.length s ≤ fuel)%nat →
  star_loop lazy r1 k (S fuel) pos s cs = star_loop lazy r1 k fuel pos s cs.
Proof.
  induction fuel as [|fuel IHf]; intros pos s cs Hlen.
  - simpl. erewrite go_ext; [rewrite go_fail|].
    + destruct lazy; [by destruct (k pos s cs)|done].
    + intros pos' s' cs'. simpl.
      by destruct (Nat.ltb_spec (String.length s') (String.length s)); [lia|].
  - change (star_loop lazy r1 k (S (S fuel)) pos s cs) with
      (let again :=
         go r1 pos s cs (fun pos' s' cs' =>
           if (String.length s' <? String.length s)%nat
           then star_loop lazy r1 k (S fuel) pos' s' cs' else None) in
       if lazy then
         match k pos s cs with Some x => Some x | None => again end
       else match again with Some x => Some x | None => k pos s cs end).
    change (star_loop lazy r1 k (S fuel) pos s cs) with
      (let again :=
         go r1 pos s cs (fun pos' s' cs' =>
           if (String.length s' <? String.length s)%nat
           then star_loop lazy r1 k fuel pos' s' cs' else None) in
       if lazy then
         match k pos s cs with Some x => Some x | None => again end
       else match again with Some x => Some x | None => k pos s cs end).
    cbv zeta. erewrite go_ext; [reflexivity|].
    intros pos' s' cs'. simpl.
    destruct (Nat.ltb_spec (String.length s') (String.length s)); [|done].
    apply IHf. lia.
Qed.

(** Fuel beyond the length of the input changes nothing. *)
Lemma star_loop_fuel lazy r1 (k : nat → string → captures → option R)
    (extra : nat) :
  ∀ pos s cs,
  star_loop lazy r1 k (String.length s + extra) pos s cs
  = star_loop lazy r1 k (String.length s) pos s cs.
Proof.
  induction extra as [|extra IH]; intros pos s cs.
  - by rewrite Nat.add_0_r.
  - rewrite Nat.add_succ_r, star_loop_succ by lia. apply IH.
Qed.

(** The equation of a repetition: one more iteration that consumes
    something, or the continuation; which is tried first depends on the
    laziness. *)
Lemma go_star_unfold lazy r1 pos s cs
    (k : nat → string → captures → option R) :
  go (Star lazy r1) pos s cs k =
    let again :=
      go r1 pos s cs (fun pos' s' cs' =>
        if (String.length s' <? String.length s)%nat
        then go (Star lazy r1) pos' s' cs' k else None) in
    if lazy then
      match k pos s cs with Some x => Some x | None => again end
    else match again with Some x => Some x | None => k pos s cs end.
Proof.
  cbv zeta. rewrite go_star. destruct (String.length s) as [|n] eqn:Hlen.
  - simpl. erewrite go_ext; [rewrite go_fail|].
    + destruct lazy; [by destruct (k pos s cs)|done].
    + intros pos' s' cs'. simpl.
      by destruct (Nat.ltb_spec (String.length s') 0); [lia|].
  - change (star_loop lazy r1 k (S n) pos s cs) with
      (let again :=
         go r1 pos s cs (fun pos' s' cs' =>
           if (String.length s' <? String.length s)%nat
           then star_loop lazy r1 k n pos' s' cs' else None) in
       if lazy then
         match k pos s cs with Some x => Some x | None => again end
       else match again with Some x => Some x | None => k pos s cs end).
    cbv zeta. erewrite go_ext; [reflexivity|].
    intros pos' s' cs'. cbv beta. rewrite Hlen.
    destruct (Nat.ltb_spec (String.length s') (S n)); [|done].
    rewrite go_star.
    replace n with (String.length s' + (n - String.length s'))%nat by lia.
    apply star_loop_fuel.
Qed.

End Star.
End RegexFacts.

(** * Reading and writing properties *)

Module JSFacts.
Import JS.

Lemma own_set_own_eq fs k x : own (set_own fs k x) k = x.
Proof.
  induction fs as [|[k' v] fs IH]; simpl.
  - by rewrite String.eqb_refl.
  - destruct (String.eqb k' k) eqn:E; simpl; rewrite E; done.
Qed.

Lemma own_set_own_ne fs k k' x : k ≠ k' → own (set_own fs k x) k' = own fs k'.
Proof.
  intros Hne. induction fs as [|[k0 v] fs IH]; simpl.
  - by apply String.eqb_neq in Hne as ->.
  - destruct (String.eqb_spec k0 k) as [->|]; simpl.
    + by apply String.eqb_neq in Hne as ->.
    + by rewrite IH.
Qed.

Lemma isObj_setProp v k x : isObj (setProp v k x) = isObj v.
Proof. by destruct v. Qed.

Lemma prop_setProp_eq v k x : isObj v = true → prop (setProp v k x) k = x.
Proof. destruct v; try done. intros _. apply own_set_own_eq. Qed.

Lemma prop_setProp_ne v k k' x : k ≠ k' → prop (setProp v k x) k' = prop v k'.
Proof. destruct v; try done. apply own_set_own_ne. Qed.

End JSFacts.

(** * Properties of the syslog parser *)

Module SyslogSpec.
Import JS Syslog.

Lemma mapSeverity_spec (sev : Z) :
  mapSeverity sev =
    if decide (sev ≤ 2)%Z then "critical"
    else if decide (sev ≤ 4)%Z then "warning" else "info".
Proof.
  unfold mapSeverity.
  repeat case_decide; repeat case_match; try reflexivity; lia.
Qed.

(** A priority that [parseInt] reads as a non-zero number is decoded by
    division and remainder. *)
Lemma parsePriority_nonzero (priority : value) (pri : Z) :
  parseInt priority = VNum pri → pri ≠ 0%Z →
  parsePriority priority = ((pri / 8)%Z, Z.rem pri 8).
Proof.
  intros Hp Hnz. unfold parsePriority, or_else. rewrite Hp. simpl.
  destruct (Z.eqb_spec pri 0) as [->|_]; [done|reflexivity].
Qed.

(** The priority zero is falsy and is replaced by the default 13. *)
Lemma parsePriority_zero : parsePriority (VStr "0") = (1%Z, 5%Z).
Proof. reflexivity. Qed.

Lemma parsePriority_absent : parsePriority VUndef = (1%Z, 5%Z).
Proof. reflexivity. Qed.

(** C5, as the code has it: the sample line parses to an event of type
    authentication for host web-server-01, and its severity is info, the
    syslog severity 13 mod 8 = 5 (notice) being above 4. *)
Theorem parse_sample_line (rt : DateRt) :
  ∃ ev, parse rt (VStr sample_line) VUndef = Ret ev
        ∧ prop ev "event_type" = VStr "authentication"
        ∧ prop ev "severity" = VStr "info"
        ∧ prop ev "hostname" = VStr "web-server-01"
        ∧ prop (prop ev "parsed_data") "syslog_severity" = VNum 5.
Proof.
  eexists. split; [vm_compute; reflexivity|].
  repeat split.
Qed.

(** C5, as stated, fails: the severity of the parsed sample line is not
    warning. *)
Lemma parse_sample_line_not_warning :
  ¬ ∃ ev, parse rt0 (VStr sample_line) VUndef = Ret ev
          ∧ prop ev "event_type" = VStr "authentication"
          ∧ prop ev "severity" = VStr "warning"
          ∧ prop ev "hostname" = VStr "web-server-01".
Proof.
  intros (ev & Hev & _ & Hsev & _).
  vm_compute in Hev. injection Hev as <-. discriminate Hsev.
Qed.

(** C6 at the priority zero: the line is decoded as facility 1, syslog
    severity 5 and severity info, with a null priority, where the claim has
    facility 0, syslog severity 0 and critical. *)
Theorem parse_priority_zero (rt : DateRt) :
  ∃ ev, parse rt (VStr "<0>Jan 18 10:30:45 web-server-01 kernel: panic") VUndef
        = Ret ev
        ∧ prop (prop ev "parsed_data") "priority" = VNull
        ∧ prop (prop ev "parsed_data") "facility" = VNum 1
        ∧ prop (prop ev "parsed_data") "syslog_severity" = VNum 5
        ∧ prop ev "severity" = VStr "info".
Proof.
  eexists. split; [vm_compute; reflexivity|].
  repeat split.
Qed.

(** The fallback of the syslog parser: a string that matches neither
    format gives the degraded event. *)
Lemma parse_non_standard (rt : DateRt) (raw : string) (metadata : value) :
  Regex.exec SYSLOG_BSD_REGEX raw = None →
  Regex.exec SYSLOG_ISO_REGEX raw = None →
  metadata ≠ VNull →
  ∃ ev, parse rt (VStr raw) metadata = Ret ev
        ∧ prop ev "event_type" = VStr "system"
        ∧ prop ev "severity" = VStr "info"
        ∧ prop ev "description" = VStr (trim raw)
        ∧ prop (prop ev "parsed_data") "format" = VStr "non-standard".
Proof.
  intros Hbsd Hiso Hmeta. unfold parse. rewrite Hbsd, Hiso.
  destruct metadata; try done; simpl; eexists; (split; [reflexivity|]);
    repeat split.
Qed.

End SyslogSpec.

(** * Properties of the Windows event parser *)

Module WindowsSpec.
Import JS JSFacts Windows.

Lemma isObj_set_data p k x : isObj (set_data p k x) = isObj p.
Proof. apply isObj_setProp. Qed.

Lemma data_set_data p k x :
  isObj p = true →
  prop (set_data p k x) "parsed_data" = setProp (prop p "parsed_data") k x.
Proof. apply prop_setProp_eq. Qed.

Lemma prop_set_data_ne p k k' x :
  "parsed_data" ≠ k' → prop (set_data p k x) k' = prop p k'.
Proof. apply prop_setProp_ne. Qed.

(** Reads of a record after a chain of writes. *)
Ltac js_props :=
  repeat first
    [ rewrite isObj_set_data
    | rewrite isObj_setProp
    | rewrite data_set_data
    | rewrite prop_setProp_eq
    | rewrite prop_set_data_ne by discriminate
    | rewrite prop_setProp_ne by discriminate
    | done ].

(** The fallback of the Windows parser: a string that is not JSON gives
    the degraded event. *)
Lemma parse_non_json (rt : Runtime) (raw : string) (metadata : value) :
  JSON_parse rt raw = None →
  metadata ≠ VNull →
  ∃ ev, parse rt (VStr raw) metadata = Ret ev
        ∧ prop ev "event_type" = VStr "windows"
        ∧ prop ev "severity" = VStr "info"
        ∧ prop ev "description" = VStr raw
        ∧ prop (prop ev "parsed_data") "format" = VStr "non-json".
Proof.
  intros Hjson Hmeta. unfold parse. rewrite Hjson.
  destruct metadata; try done; simpl; eexists; (split; [reflexivity|]);
    repeat split.
Qed.

(** C7 fails on both parsers: a syslog line whose month is not a month
    name throws a RangeError from [toISOString], and the JSON document
    [null] throws a TypeError from [event.Id]. *)
Theorem parsers_throw (drt : Syslog.DateRt) (rt : Runtime) :
  JSON_parse rt "null" = Some VNull →
  Syslog.parse drt (VStr "<13>Foo 18 10:30:45 web-server-01 sshd[1234]: x")
               VUndef = Throw RangeError
  ∧ parse rt (VStr "null") VUndef = Throw TypeError.
Proof.
  intros Hnull. split; [vm_compute; reflexivity|].
  unfold parse. rewrite Hnull. reflexivity.
Qed.

(** [parsers_throw] with the runtimes of the examples. *)
Lemma parsers_throw_witness :
  Syslog.parse Syslog.rt0
    (VStr "<13>Foo 18 10:30:45 web-server-01 sshd[1234]: x") VUndef
  = Throw RangeError
  ∧ parse rt0 (VStr "null") VUndef = Throw TypeError.
Proof. apply (parsers_throw Syslog.rt0 rt0). reflexivity. Defined.

Lemma props_truthy (rt : Runtime) (event : value) :
  length_ge rt (props_of event) 10 = true →
  truthy (or_else (prop event "Properties") (prop event "properties")) = true.
Proof.
  unfold props_of. intros Hlen.
  destruct (truthy (or_else (prop event "Properties")
                            (prop event "properties"))) eqn:Ht; [done|].
  unfold or_else at 1 in Hlen. rewrite Ht in Hlen. discriminate.
Qed.

(** [parseProcessEvent] on a record under construction. *)
Lemma parseProcessEvent_from_temp (rt : Runtime) (parsed event : value)
    (path : string) :
  isObj parsed = true →
  isObj (prop parsed "parsed_data") = true →
  length_ge rt (props_of event) 10 = true →
  at_ (props_of event) "5" = VStr path →
  from_temp path = true →
  ∃ parsed', parseProcessEvent rt parsed event = Ret parsed'
    ∧ prop parsed' "severity" = VStr "warning"
    ∧ prop parsed' "description"
      = VStr ("Suspicious: Process from temp directory: "
              +:+ processName_of path).
Proof.
  intros Hobj Hdata Hlen Hpath Htemp.
  unfold parseProcessEvent. fold (props_of event). rewrite Hlen, Hpath.
  set (p4 := set_data (set_data (set_data (set_data parsed _ _) _ _) _ _) _ _).
  assert (prop (prop p4 "parsed_data") "new_process_name" = VStr path) as ->.
  { unfold p4. by js_props. }
  cbn [split_pop mbind outcome_bind].
  change (or_else (VStr path) (VStr "")) with
    (if negb (String.eqb path "") then VStr path else VStr "").
  assert (lowered (if negb (String.eqb path "") then VStr path else VStr "")
          = Ret (toLowerCase path)) as ->.
  { destruct (String.eqb_spec path "") as [->|]; reflexivity. }
  cbn [mbind outcome_bind]. unfold from_temp in Htemp. rewrite Htemp.
  eexists. split; [reflexivity|].
  assert (isObj p4 = true) by (unfold p4; by js_props).
  split; by js_props.
Qed.

(** C8, as the code has it: a process-create event with the numeric id
    4688 and at least ten properties, whose path (property 5) is a string
    containing [\temp\], [\tmp\] or [\appdata\local\temp] in any case, is
    given the severity warning and the Suspicious description. *)
Theorem process_from_temp (rt : Runtime) (event : value) (path : string) :
  is_nullish event = false →
  eventId_of event = VNum 4688 →
  length_ge rt (props_of event) 10 = true →
  at_ (props_of event) "5" = VStr path →
  from_temp path = true →
  ∃ parsed, parseWindowsEvent rt event = Ret parsed
    ∧ prop parsed "severity" = VStr "warning"
    ∧ prop parsed "description"
      = VStr ("Suspicious: Process from temp directory: "
              +:+ processName_of path).
Proof.
  intros Hev Hid Hlen Hpath Htemp.
  pose proof (props_truthy rt event Hlen) as Htruthy.
  unfold parseWindowsEvent, getProp. rewrite Hev.
  cbn [mbind outcome_bind]. cbv zeta.
  fold (eventId_of event). rewrite Hid, Htruthy.
  change (is_num (VNum 4688) 4624 || is_num (VNum 4688) 4625) with false.
  change (is_num (VNum 4688) 4688) with true. cbv iota.
  apply parseProcessEvent_from_temp; try done; by js_props.
Qed.

(** [process_from_temp] on a process started from a user's temporary
    directory. *)
Lemma process_from_temp_witness :
  ∃ parsed,
    parseWindowsEvent rt0
      (process_event "C:\Users\alice\AppData\Local\Temp\dropper.exe")
    = Ret parsed
    ∧ prop parsed "severity" = VStr "warning"
    ∧ prop parsed "description"
      = VStr "Suspicious: Process from temp directory: dropper.exe".
Proof.
  exact (process_from_temp rt0
           (process_event "C:\Users\alice\AppData\Local\Temp\dropper.exe")
           "C:\Users\alice\AppData\Local\Temp\dropper.exe"
           eq_refl eq_refl eq_refl eq_refl eq_refl).
Defined.

(** C8, as stated, fails: a 4688 event whose path contains [/tmp/] keeps
    the severity info and the plain description. *)
Lemma process_from_slash_tmp_not_escalated :
  includes (toLowerCase "/tmp/dropper.exe") "/tmp/" = true
  ∧ ∃ parsed,
      parse rt0 (process_event "/tmp/dropper.exe") VUndef = Ret parsed
      ∧ prop parsed "event_type" = VStr "process"
      ∧ prop parsed "severity" = VStr "info"
      ∧ prop parsed "description"
        = VStr "Process created: /tmp/dropper.exe".
Proof.
  split; [reflexivity|].
  eexists. split; [vm_compute; reflexivity|]. repeat split.
Qed.

End WindowsSpec.

(** * Properties of the condition matcher *)

Module MatcherSpec.
Import JS Detection.

Section WithRuntime.
Context (rt : Runtime).

(** [matchesCondition] satisfies the equation of the source function. *)
Lemma matchesCondition_unfold (event condition : value) :
  matchesCondition rt event condition =
  matchesBody rt event condition
    (map (matchesCondition rt event) (elems (prop condition "any")))
    (map (matchesCondition rt event) (elems (prop condition "all")))
    (matchesCondition rt event (prop condition "not"))
    (matchesCondition rt event (prop condition "additional")).
Proof.
  destruct condition as [| | | | | | |fs]; try reflexivity.
  assert (Helems : ∀ k l,
    (fix on_elems (k : string) (fs : list (string * value))
       : list (outcome bool) :=
       match fs with
       | [] => []
       | (k', v) :: rest =>
           if String.eqb k' k then
             match v with
             | VArr xs =>
                 (fix each (xs : list value) : list (outcome bool) :=
                    match xs with
                    | [] => []
                    | x :: xs' => matchesCondition rt event x :: each xs'
                    end) xs
             | _ => []
             end
           else on_elems k rest
       end) k l
    = map (matchesCondition rt event) (elems (own l k))).
  { intros k l. induction l as [|[k' v] l IH]; [reflexivity|].
    simpl own. destruct (String.eqb k' k); [|exact IH].
    by destruct v. }
  assert (Hfield : ∀ k l,
    (fix on_field (k : string) (fs : list (string * value)) : outcome bool :=
       match fs with
       | [] => Ret false
       | (k', v) :: rest =>
           if String.eqb k' k then matchesCondition rt event v
           else on_field k rest
       end) k l
    = matchesCondition rt event (own l k)).
  { intros k l. induction l as [|[k' v] l IH]; [reflexivity|].
    simpl own. destruct (String.eqb k' k); [reflexivity|exact IH]. }
  simpl matchesCondition. simpl prop.
  by rewrite !Helems, !Hfield.
Qed.

Lemma matchesCondition_falsy (event condition : value) :
  truthy condition = false → matchesCondition rt event condition = Ret false.
Proof.
  intros H. rewrite matchesCondition_unfold. unfold matchesBody. by rewrite H.
Qed.

Lemma matchesCondition_any (event condition : value) :
  truthy condition = true →
  isArray (prop condition "any") = true →
  matchesCondition rt event condition
  = some (map (matchesCondition rt event) (elems (prop condition "any"))).
Proof.
  intros Ht Hany. rewrite matchesCondition_unfold at 1. unfold matchesBody.
  rewrite Ht, Hany. by destruct (prop condition "any").
Qed.

Lemma matchesCondition_all (event condition : value) :
  truthy condition = true →
  isArray (prop condition "any") = false →
  isArray (prop condition "all") = true →
  matchesCondition rt event condition
  = every (map (matchesCondition rt event) (elems (prop condition "all"))).
Proof.
  intros Ht Hany Hall. rewrite matchesCondition_unfold at 1. unfold matchesBody.
  rewrite Ht, Hany, Hall, andb_false_r. by destruct (prop condition "all").
Qed.

Lemma matchesCondition_fields (event condition : value) :
  truthy condition = true →
  isArray (prop condition "any") = false →
  isArray (prop condition "all") = false →
  matchesCondition rt event condition = field_checks rt event condition.
Proof.
  intros Ht Hany Hall. rewrite matchesCondition_unfold at 1. unfold matchesBody.
  by rewrite Ht, Hany, Hall, !andb_false_r.
Qed.

Lemma field_checks_true (event condition : value) :
  field_checks rt event condition = Ret true
  ↔ checks_pass rt event condition.
Proof.
  unfold field_checks, checks_pass. split.
  - destruct (getFieldValue event (prop condition "field")) as [fv|];
      [|discriminate].
    cbn [mbind outcome_bind]. intros H. exists fv.
    destruct (equals_fails condition fv); [discriminate|].
    destruct (contains_fails condition fv); [discriminate|].
    destruct (contains_any_fails condition fv); [discriminate|].
    destruct (matches_fails rt condition fv); [discriminate|].
    repeat (split; [reflexivity|]).
    destruct (truthy (prop condition "not")).
    + destruct (matchesCondition rt event (prop condition "not")) as [[]|];
        try discriminate.
      split; [reflexivity|]. cbn in H. by destruct (truthy _).
    + split; [discriminate|]. cbn in H. by destruct (truthy _).
  - intros (fv & Hf & He & Hc & Hca & Hm & Hnot & Hadd).
    rewrite Hf. cbn [mbind outcome_bind]. rewrite He, Hc, Hca, Hm.
    destruct (truthy (prop condition "not")); [rewrite Hnot by done|];
      cbn; destruct (truthy (prop condition "additional")); auto.
Qed.

(** C3, as the code has it: a node that carries an [any] list is decided
    by that list alone, otherwise a node that carries an [all] list is
    decided by that list alone, and a node that carries neither matches
    if and only if every check present on it passes. *)
Theorem node_checks (event condition : value) :
  (truthy condition = true → isArray (prop condition "any") = true →
   matchesCondition rt event condition
   = some (map (matchesCondition rt event) (elems (prop condition "any"))))
  ∧ (truthy condition = true → isArray (prop condition "any") = false →
     isArray (prop condition "all") = true →
     matchesCondition rt event condition
     = every (map (matchesCondition rt event) (elems (prop condition "all"))))
  ∧ (isArray (prop condition "any") = false →
     isArray (prop condition "all") = false →
     (matchesCondition rt event condition = Ret true
      ↔ truthy condition = true ∧ checks_pass rt event condition)).
Proof.
  split; [apply matchesCondition_any|].
  split; [apply matchesCondition_all|].
  intros Hany Hall. destruct (truthy condition) eqn:Ht.
  - rewrite matchesCondition_fields, field_checks_true by done. tauto.
  - rewrite matchesCondition_falsy by done. split; [discriminate|].
    by intros [? _].
Qed.

Lemma getFieldValue_returns (obj fieldPath : value) :
  isString fieldPath || negb (truthy fieldPath) = true →
  ∃ v, getFieldValue obj fieldPath = Ret v.
Proof.
  unfold getFieldValue. intros H.
  destruct (truthy fieldPath); [|by eexists].
  destruct (truthy obj); [|by eexists].
  destruct fieldPath; try discriminate; by eexists.
Qed.

Lemma strict_eq_undef (v : value) : strict_eq VUndef v = strict_eq v VUndef.
Proof. by destruct v. Qed.

(** C9: on a node without an [any] or [all] list whose [field] is absent
    or a path of data keys, a [matches] pattern that does not compile
    makes the node not match, whatever the other checks, when no object
    of the event or of the condition has an own member [toString]; and
    so does a field value that is undefined under an [equals],
    [contains] or [matches] check.  The result is a value, not an
    exception. *)
Theorem fails_closed (event condition : value) :
  isArray (prop condition "any") = false →
  isArray (prop condition "all") = false →
  Domain.field_safe condition = true →
  (Domain.plain event = true →
   Domain.plain condition = true →
   present (prop condition "matches") = true →
   regExp rt (prop condition "matches") = None →
   matchesCondition rt event condition = Ret false)
  ∧ (getFieldValue event (prop condition "field") = Ret VUndef →
     present (prop condition "equals")
     || present (prop condition "contains")
     || present (prop condition "matches") = true →
     matchesCondition rt event condition = Ret false).
Proof.
  intros Hany Hall Hfield.
  assert (Hok : isString (prop condition "field")
                || negb (truthy (prop condition "field")) = true).
  { unfold Domain.field_safe in Hfield. by destruct (prop condition "field"). }
  destruct (truthy condition) eqn:Ht;
    [|split; intros; by apply matchesCondition_falsy].
  rewrite matchesCondition_fields by done. unfold field_checks. split.
  - destruct (getFieldValue_returns event _ Hok) as [fv ->].
    intros _ _ Hpresent Hregex.
    cbn [mbind outcome_bind].
    assert (matches_fails rt condition fv = true) as ->.
    { unfold matches_fails. by rewrite Hpresent, Hregex. }
    by repeat case_match.
  - intros -> Hpresent. cbn [mbind outcome_bind].
    unfold equals_fails, contains_fails, matches_fails.
    rewrite strict_eq_undef. fold (present (prop condition "equals")).
    destruct (present (prop condition "equals")); [done|].
    destruct (present (prop condition "contains")); [done|].
    simpl in Hpresent. rewrite Hpresent. cbn [andb negb truthy orb].
    destruct (contains_any_fails condition VUndef); [done|].
    by destruct (regExp rt (prop condition "matches")).
Qed.

End WithRuntime.

(** C3, as stated, fails: the node carries an [any] list that matches and
    an [equals] check that fails, and the node matches. *)
Lemma any_overrides_field_checks :
  matchesCondition rt0 any_event any_node = Ret true
  ∧ getFieldValue any_event (prop any_node "field") = Ret VUndef
  ∧ equals_fails any_node VUndef = true.
Proof. repeat split. Qed.

(** [fails_closed] on a pattern that does not compile and on a missing
    field. *)
Lemma fails_closed_witness :
  matchesCondition rt0 any_event broken_node = Ret false
  ∧ matchesCondition rt0 any_event root_node = Ret false.
Proof.
  split.
  - exact (proj1 (fails_closed rt0 any_event broken_node eq_refl eq_refl
                    eq_refl)
                 eq_refl eq_refl eq_refl eq_refl).
  - exact (proj2 (fails_closed rt0 any_event root_node eq_refl eq_refl
                    eq_refl)
                 eq_refl eq_refl).
Defined.

(** C9, as stated, fails: on a node whose [field] is a number, the
    pattern that does not compile is never reached, and the evaluation
    throws the TypeError of [fieldPath.split]. *)
Lemma number_field_throws :
  isArray (prop (VObj [("field", VNum 1); ("matches", VStr "(")]) "any")
  = false
  ∧ regExp rt0 (VStr "(") = None
  ∧ matchesCondition rt0 any_event
      (VObj [("field", VNum 1); ("matches", VStr "(")]) = Throw TypeError.
Proof. repeat split. Qed.

End MatcherSpec.

(** * Properties of the stateful rules *)

Module EngineSpec.
Import JS Detection.
#[local] Open Scope list_scope.

Section WithSink.
Context (rt : Runtime) (sk : Sink).

#[local] Abbreviation World := (World sk).
#[local] Abbreviation with_state := (with_state sk).
#[local] Abbreviation without_state := (without_state sk).

Lemma with_state_twice key st st' (w : World) :
  with_state key st (with_state key st' w) = with_state key st w.
Proof. unfold Detection.with_state. simpl. by rewrite insert_insert_eq. Qed.

(** The laws of the monad [M] that the proofs compute with. *)
Lemma bind_lift_ret {A B} (a : A) (f : A → M sk B) (w : World) :
  (lift sk (Ret a) ≫= f) w = f a w.
Proof. reflexivity. Qed.

Lemma bind_mret {A B} (a : A) (f : A → M sk B) (w : World) :
  (mret a ≫= f) w = f a w.
Proof. reflexivity. Qed.

Lemma bind_state_get {B} key (f : option WState → M sk B) (w : World) :
  (state_get sk key ≫= f) w = f (thresholdState sk w !! key) w.
Proof. reflexivity. Qed.

Lemma bind_state_set {B} key st (f : unit → M sk B) (w : World) :
  (state_set sk key st ≫= f) w = f tt (with_state key st w).
Proof. reflexivity. Qed.

Lemma bind_state_delete {B} key (f : unit → M sk B) (w : World) :
  (state_delete sk key ≫= f) w = f tt (without_state key w).
Proof. reflexivity. Qed.

Lemma bind_assoc {A B C} (m : M sk A) (f : A → M sk B) (g : B → M sk C)
    (w : World) :
  ((m ≫= f) ≫= g) w = (m ≫= λ a, f a ≫= g) w.
Proof. unfold mbind, M_bind. by destruct (m w) as [[a|e] w']. Qed.

Ltac monad_step :=
  first [ rewrite bind_lift_ret | rewrite bind_mret | rewrite bind_state_get
        | rewrite bind_state_set | rewrite bind_state_delete ];
  cbv beta.

(** [createAlert] returns the alert and leaves [thresholdState] alone. *)
Lemma createAlert_returns (event : value) (rule : Rule) (details : string)
    (w : World) :
  sink_accepts sk → is_nullish event = false →
  ∃ a x, createAlert sk event rule details w
         = (Ret a, {| thresholdState := thresholdState sk w; external := x |})
         ∧ alert_for event rule details a.
Proof.
  intros [Hins Hinc] Hev.
  unfold createAlert, mbind, M_bind, new_uuid, lift, getProp, sink, mret, M_ret.
  rewrite Hev. destruct (uuidv4 sk (external sk w)) as [uid x1]. simpl.
  match goal with |- context [alertOps_insert sk ?a x1] =>
    destruct (Hins a x1) as [x2 ->] end.
  simpl. destruct (Hinc (id rule) x2) as [x3 ->]. simpl.
  eexists _, x3. split; [reflexivity|]. by repeat split.
Qed.

(** One call of [processThresholdRule] on a matching event. *)
Lemma threshold_step (now : Z) (event : value) (rule : Rule) (g : value)
    (w : World) :
  matchesCondition rt event (conditions rule) = Ret true →
  groupValue event (prop (conditions rule) "group_by") = Ret g →
  is_nullish event = false →
  let key := stateKey rule g in
  let windowMs := windowMs_of rt rule in
  let base := active now windowMs (thresholdState sk w !! key) in
  let kept := List.filter (recent rt now windowMs) (events base ++ [entry event]) in
  processThresholdRule rt sk now event rule w =
    if num_ge (Some (Z.of_nat (length kept))) (threshold_of rt rule) then
      (a ← createAlert sk event rule
             ("Threshold exceeded: " +:+ pretty (Z.of_nat (length kept))
              +:+ " events in "
              +:+ toString (prop (conditions rule) "window_seconds")
              +:+ "s (group: " +:+ toString g +:+ ")");
       mret (Some a)) (with_state key (fresh now) w)
    else
      (Ret None,
       with_state key {| count := Z.of_nat (length kept);
                         window_start := window_start base;
                         events := kept |} w).
Proof.
  intros Hmatch Hgroup Hev key windowMs base kept.
  unfold processThresholdRule.
  rewrite Hmatch, Hgroup. monad_step. cbn [negb]. do 2 monad_step.
  unfold getProp. rewrite Hev.
  fold (windowMs_of rt rule) (threshold_of rt rule) (entry event).
  fold key. fold windowMs.
  subst kept base. unfold active.
  destruct (thresholdState sk w !! key) as [st|];
    [destruct (num_gt (Some (now - window_start st)%Z) windowMs)|];
    cbn [default from_option]; repeat monad_step; cbn [count];
    destruct (num_ge _ _); repeat monad_step;
    by rewrite ?with_state_twice.
Qed.

(** *** Threshold rules *)

Section Threshold.
Context (rule : Rule) (g : value) (T : nat) (W : Z).
Hypothesis Hthreshold :
  prop (conditions rule) "threshold" = VNum (Z.of_nat T).
Hypothesis HT : (1 ≤ T)%nat.
Hypothesis Hwindow : prop (conditions rule) "window_seconds" = VNum W.
Hypothesis HW : (0 < W)%Z.
Hypothesis Hsink : sink_accepts sk.

Let key : string := stateKey rule g.
Let windowMs : Z := (W * 1000)%Z.
Let step := fun now event => processThresholdRule rt sk now event rule.
Let details : string :=
  "Threshold exceeded: " +:+ pretty (Z.of_nat T) +:+ " events in "
  +:+ pretty W +:+ "s (group: " +:+ toString g +:+ ")".

Lemma threshold_of_rule : threshold_of rt rule = Some (Z.of_nat T).
Proof.
  unfold threshold_of, or_else. rewrite Hthreshold. simpl.
  destruct (Z.eqb_spec (Z.of_nat T) 0); [lia|done].
Qed.

Lemma windowMs_of_rule : windowMs_of rt rule = Some windowMs.
Proof.
  unfold windowMs_of, or_else. rewrite Hwindow. simpl.
  destruct (Z.eqb_spec W 0); [lia|done].
Qed.

Lemma filter_all_recent now (l : list (value * value)) :
  Forall (λ x, ∃ t, dateTime rt x.2 = Some t ∧ (now - t < windowMs)%Z) l →
  List.filter (recent rt now (Some windowMs)) l = l.
Proof.
  induction 1 as [|x l (t & Ht & Hlt) _ IH]; [done|].
  simpl. rewrite IH. unfold recent at 1. rewrite Ht. simpl.
  by destruct (Z.ltb_spec (now - t) windowMs); [|lia].
Qed.

(** From a window state holding [acc], as many matching events as are
    missing to the threshold: silence, then one alert on the last event,
    which leaves the fresh state. *)
Lemma run_to_fire (stream : list (Z * value)) :
  ∀ (acc : list (value * value)) (w : World),
  bucket_fits rt windowMs (thresholdState sk w !! key) acc stream →
  Forall (matching rt rule g) stream.*2 →
  within_window rt windowMs stream = true →
  (length acc + length stream = T)%nat →
  stream ≠ [] →
  ∃ now event a w',
    last stream = Some (now, event)
    ∧ feed sk step stream w
      = (Ret (replicate (length stream - 1) None ++ [Some a]), w')
    ∧ alert_for event rule details a
    ∧ thresholdState sk w' = <[key := fresh now]> (thresholdState sk w).
Proof.
  induction stream as [|[now event] rest IH]; [done|].
  intros acc w [Hfound Hacc] Hmatch Hwin Hlen _.
  apply Forall_cons in Hmatch as [(Hm & Hg & Hev) Hmatch].
  simpl in Hwin. apply andb_true_iff in Hwin as [Hhere Hwin].
  destruct (dateTime rt (prop event "timestamp")) as [t|] eqn:Ht; [|done].
  apply andb_true_iff in Hhere as [Hself Hlater].
  apply Z.ltb_lt in Hself. rewrite forallb_forall in Hlater.
  (* the state the step works on *)
  assert (Hbase : events (active now (Some windowMs)
                            (thresholdState sk w !! key)) = acc).
  { unfold active. destruct (thresholdState sk w !! key) as [st|].
    - destruct Hfound as [<- Hws]. apply Forall_cons in Hws as [Hws _].
      simpl in Hws. simpl.
      by destruct (Z.ltb_spec windowMs (now - window_start st)); [lia|].
    - by subst acc. }
  assert (Hkept : List.filter (recent rt now (Some windowMs))
                    (acc ++ [entry event]) = acc ++ [entry event]).
  { apply filter_all_recent, Forall_app. split.
    - eapply Forall_impl; [exact Hacc|]. intros x (t' & Ht' & Hall).
      apply Forall_cons in Hall as [Hx _]. eauto.
    - apply Forall_singleton. eauto. }
  pose proof (threshold_step now event rule g w Hm Hg Hev) as Hstep.
  cbv zeta in Hstep. fold key in Hstep.
  rewrite windowMs_of_rule, threshold_of_rule, Hbase, Hkept in Hstep.
  rewrite length_app, Hwindow in Hstep. simpl length in Hstep.
  simpl feed. unfold mbind at 1, M_bind at 1. fold (step now event).
  unfold step at 1. rewrite Hstep. clear Hstep.
  destruct rest as [|next rest].
  - (* the last missing event: the threshold is reached *)
    simpl in Hlen.
    replace (length acc + 1)%nat with T by lia. simpl.
    destruct (Z.leb_spec (Z.of_nat T) (Z.of_nat T)); [|lia].
    destruct (createAlert_returns event rule details
                (with_state key (fresh now) w) Hsink Hev)
      as (a & x & Hcreate & Halert).
    exists now, event, a. eexists. split; [done|].
    unfold mbind, M_bind. fold details. rewrite Hcreate. simpl.
    unfold mret, M_ret.
    split; [reflexivity|]. split; [exact Halert|reflexivity].
  - (* below the threshold: the event is recorded *)
    simpl in Hlen. simpl num_ge.
    destruct (Z.leb_spec (Z.of_nat T) (Z.of_nat (length acc + 1))); [lia|].
    set (st1 := {| count := _; window_start := _; events := _ |}).
    destruct (IH (acc ++ [entry event]) (with_state key st1 w))
      as (now' & event' & a & w' & Hlast & Hfeed & Halert & Hstate).
    + unfold bucket_fits. simpl. rewrite lookup_insert_eq. simpl.
      split; [split; [done|]|].
      * unfold active. destruct (thresholdState sk w !! key) as [st|].
        -- destruct Hfound as [_ Hws]. apply Forall_cons in Hws as [Hnow Hws].
           simpl in Hnow. simpl.
           destruct (Z.ltb_spec windowMs (now - window_start st)); [lia|].
           exact Hws.
        -- simpl. apply Forall_forall. intros later Hin.
           apply list_elem_of_In, Hlater, andb_true_iff in Hin as [Hin _].
           by apply Z.leb_le in Hin.
      * apply Forall_app. split.
        -- eapply Forall_impl; [exact Hacc|]. intros x (t' & Ht' & Hall).
           apply Forall_cons in Hall as [_ Hall]. eauto.
        -- apply Forall_singleton. exists t. split; [done|].
           apply Forall_forall. intros later Hin.
           apply list_elem_of_In, Hlater, andb_true_iff in Hin as [_ Hin].
           by apply Z.ltb_lt in Hin.
    + done.
    + done.
    + rewrite length_app. simpl. simpl in Hlen. lia.
    + done.
    + exists now', event', a, w'. split; [exact Hlast|].
      unfold mbind, M_bind, mret, M_ret. fold step. rewrite Hfeed.
      split; [|split; [exact Halert|]].
      * simpl. by rewrite Nat.sub_0_r.
      * rewrite Hstate. simpl. by rewrite insert_insert_eq.
Qed.

End Threshold.

Lemma within_window_app (windowMs : Z) (l1 l2 : list (Z * value)) :
  within_window rt windowMs (l1 ++ l2) = true →
  within_window rt windowMs l1 = true
  ∧ within_window rt windowMs l2 = true
  ∧ Forall (λ x, Forall (λ later, (later.1 - x.1 ≤ windowMs)%Z) l2) l1.
Proof.
  induction l1 as [|[now event] l1 IH]; simpl; [by auto|].
  destruct (dateTime rt (prop event "timestamp")) as [t|]; [|done].
  rewrite forallb_app, !andb_true_iff.
  intros [(Hself & Hl1 & Hl2) Hrest].
  destruct (IH Hrest) as (H1 & H2 & Hcross).
  repeat split; try done.
  apply Forall_cons. split; [|done].
  apply Forall_forall. intros later Hin. simpl.
  rewrite forallb_forall in Hl2.
  apply list_elem_of_In, Hl2, andb_true_iff in Hin as [Hin _].
  by apply Z.leb_le in Hin.
Qed.


(** *** Correlation rules *)

Section Correlation.
Context (now : Z) (event : value) (rule : Rule) (g : value) (w : World).
Hypothesis Hseq : has_sequence rt rule = true.
Hypothesis Hgroup :
  groupValue event (prop (conditions rule) "group_by") = Ret g.
Hypothesis Hev : is_nullish event = false.

Let key : string := stateKey rule g.
Let found : option WState := thresholdState sk w !! key.

Lemma conditions_not_nullish : is_nullish (conditions rule) = false.
Proof.
  unfold has_sequence in Hseq. by destruct (conditions rule).
Qed.

Lemma pattern_result (pattern : value) (ok : bool) :
  matchesCondition rt event pattern = Ret ok →
  (if truthy pattern then lift sk (matchesCondition rt event pattern)
   else mret false) = lift sk (Ret ok).
Proof.
  intros H. destruct (truthy pattern) eqn:Ht; [by rewrite H|].
  rewrite MatcherSpec.matchesCondition_falsy in H by done. by injection H as <-.
Qed.

(** The stage-1 branch reaches its [return]: the state of the group is
    deleted and the alert is the result; the stage-0 branch does not run. *)
Lemma correlation_fires :
  matchesCondition rt event (optProp (stage rule "1") "match") = Ret true →
  is_nullish (stage rule "0") = false →
  fires rt now rule found = true →
  processCorrelationRule rt sk now event rule w =
    (a ← createAlert sk event rule
           ("Correlation match: Success after "
            +:+ pretty (Z.of_nat (length (recentFailures rt now rule
                                            (default (fresh now) found))))
            +:+ " failures");
     mret (Some a)) (without_state key w).
Proof.
  intros H1 Hs0 Hfires. unfold processCorrelationRule, getProp.
  rewrite conditions_not_nullish. monad_step.
  unfold has_sequence in Hseq. apply andb_true_iff in Hseq as [-> Hlen].
  apply negb_true_iff in Hlen. fold (num rt) in Hlen. rewrite Hlen.
  cbn [negb orb]. rewrite Hgroup. monad_step. fold key.
  fold (stage rule "1") (stage rule "0").
  rewrite (pattern_result _ _ H1). monad_step.
  rewrite bind_assoc. monad_step. fold found.
  rewrite Hs0, bind_assoc. monad_step.
  fold (failure_windowMs rt rule) (failures_needed rt rule).
  unfold fires in Hfires. destruct found as [st|]; [|done].
  apply andb_true_iff in Hfires as [Hcount Hrecent].
  rewrite Hcount. fold (recentFailures rt now rule st). rewrite Hrecent.
  rewrite !bind_assoc. monad_step. rewrite bind_assoc.
  unfold mbind, M_bind.
  by destruct (createAlert _ _ _ _ _) as [[a|e] w'].
Qed.

(** The stage-1 branch does not reach its [return]: the stage-0 branch
    runs, and records the event if it matches stage 0. *)
Lemma correlation_records (ok1 ok0 : bool) :
  matchesCondition rt event (optProp (stage rule "1") "match") = Ret ok1 →
  matchesCondition rt event (optProp (stage rule "0") "match") = Ret ok0 →
  (ok1 = true → is_nullish (stage rule "0") = false) →
  ok1 && fires rt now rule found = false →
  processCorrelationRule rt sk now event rule w =
    if ok0 then (Ret None, with_state key (appended now event found) w)
    else (Ret None, w).
Proof.
  intros H1 H0 Hs0 Hquiet. unfold processCorrelationRule, getProp.
  rewrite conditions_not_nullish. monad_step.
  unfold has_sequence in Hseq. apply andb_true_iff in Hseq as [-> Hlen].
  apply negb_true_iff in Hlen. fold (num rt) in Hlen. rewrite Hlen.
  cbn [negb orb]. rewrite Hgroup. monad_step. fold key.
  fold (stage rule "1") (stage rule "0").
  rewrite (pattern_result _ _ H1). monad_step.
  assert (Hrest :
    ((let failurePattern := optProp (stage rule "0") "match" in
      ok ← (if truthy failurePattern
            then lift sk (matchesCondition rt event failurePattern)
            else mret false);
      if ok : bool then
        found ← state_get sk key;
        let state := default (fresh now) found in
        _ ← (if found is Some st
             then state_set sk key {| count := count st + 1;
                                      window_start := window_start st;
                                      events := events st |}
             else mret ());
        event_id ← lift sk (getProp event "id");
        _ ← state_set sk key
              {| count := count state + 1;
                 window_start := window_start state;
                 events := events state ++ [(event_id, prop event "timestamp")] |};
        mret None
      else mret None) : M sk (option Alert)) w
    = if ok0 then (Ret None, with_state key (appended now event found) w)
      else (Ret None, w)).
  { cbv zeta. rewrite (pattern_result _ _ H0). monad_step.
    destruct ok0; [|done]. monad_step. fold found. unfold getProp.
    rewrite Hev. unfold appended, entry.
    destruct found as [st|]; cbn [default from_option]; repeat monad_step;
      by rewrite ?with_state_twice. }
  destruct ok1.
  - rewrite bind_assoc. monad_step. fold found.
    rewrite (Hs0 eq_refl), bind_assoc. monad_step.
    fold (failure_windowMs rt rule) (failures_needed rt rule).
    cbn [andb] in Hquiet. unfold fires in Hquiet.
    destruct found as [st|] eqn:Hfound.
    + fold (recentFailures rt now rule st).
      destruct (num_ge (Some (count st)) _); cbn [andb] in Hquiet;
        [rewrite Hquiet|]; monad_step; exact Hrest.
    + monad_step. exact Hrest.
  - monad_step. exact Hrest.
Qed.

End Correlation.

Lemma matches_truthy (event pattern : value) :
  matchesCondition rt event pattern = Ret true → truthy pattern = true.
Proof.
  intros H. destruct (truthy pattern) eqn:Ht; [done|].
  by rewrite MatcherSpec.matchesCondition_falsy in H.
Qed.

Lemma optProp_truthy (v : value) (k : string) :
  truthy (optProp v k) = true → is_nullish v = false.
Proof. by destruct v. Qed.

Lemma two_stages (rule : Rule) (s0 s1 : value) :
  prop (conditions rule) "sequence" = VArr [s0; s1] →
  has_sequence rt rule = true ∧ stage rule "0" = s0 ∧ stage rule "1" = s1.
Proof.
  intros Hseq. unfold has_sequence, stage. rewrite Hseq.
  repeat split; vm_compute; reflexivity.
Qed.




End WithSink.

(** *** Closed examples *)

Lemma sink0_accepts : sink_accepts sink0.
Proof. split; intros ? [[alerts counts] n]; by eexists. Qed.








(** Two failed logins on different hosts, neither carrying a source
    address, reach the threshold of two together. *)
Example anonymous_events_counted_together :
  ∃ a w',
    feed sink0
      (λ now event, processThresholdRule rt0 sink0 now event (brute_force 2))
      [anonymous 1 "web-01"; anonymous 2 "db-02"] world0
    = (Ret [None; Some a], w')
    ∧ alert_description a
      = "Detects 5 or more failed SSH logins within 60 seconds from the same IP"
        +:+ String "010" (String "010" "")
        +:+ "Details: Threshold exceeded: 2 events in 60s (group: undefined)".
Proof.
  eexists _, _. split; vm_compute; reflexivity.
Qed.

End EngineSpec.

(** * More of the condition matcher *)

Module MatcherLaws.
Import JS Detection Dispatch Properties.
#[local] Open Scope list_scope.

Lemma split_nonempty (c : ascii) (s : string) : split c s ≠ [].
Proof.
  destruct s as [|a s]; simpl; [done|].
  destruct (Ascii.eqb a c); [done|]. by destruct (split c s).
Qed.

Lemma split_app (c : ascii) (p q : string) :
  split c (p +:+ String c q) = split c p ++ split c q.
Proof.
  induction p as [|a p IH]; simpl.
  - by rewrite Ascii.eqb_refl.
  - change (String.append p (String c q)) with (p +:+ String c q).
    rewrite IH. destruct (Ascii.eqb a c); [done|].
    pose proof (split_nonempty c p). by destruct (split c p).
Qed.

Lemma walk_nullish (parts : list string) (v : value) :
  is_nullish v = true → parts ≠ [] → walk parts v = VUndef.
Proof. intros Hv. destruct parts; [done|]. simpl. by rewrite Hv. Qed.

Lemma walk_app (l1 l2 : list string) (v : value) :
  walk (l1 ++ l2) v = walk l2 (walk l1 v).
Proof.
  revert v. induction l1 as [|part l1 IH]; intros v; simpl; [done|].
  destruct (is_nullish v); [|apply IH].
  destruct l2; [done|reflexivity].
Qed.

(** A value that is falsy without being nullish or the empty string has
    no property. *)
Lemma walk_falsy (parts : list string) (v : value) :
  truthy v = false → v ≠ VStr "" → parts ≠ [] → walk parts v = VUndef.
Proof.
  intros Hv Hne Hparts. destruct parts as [|part rest]; [done|].
  destruct v as [| |[]|n| |s|xs|fs]; try done; simpl.
  - by destruct rest.
  - by destruct rest.
  - by destruct rest.
  - destruct s; [done|discriminate].
Qed.

(** X2: On a path of data keys, reading [p.q] is reading [q] in what [p]
    reads, unless that is the empty string, whose [length] a path can
    read while [getFieldValue] takes it for a missing object. *)
Theorem getFieldValue_compose (obj : value) (p q : string) :
  p ≠ "" → q ≠ "" →
  Domain.data_path (p +:+ String "." q) = true →
  getFieldValue obj (VStr p) ≠ Ret (VStr "") →
  getFieldValue obj (VStr (p +:+ String "." q))
  = (v ← getFieldValue obj (VStr p); getFieldValue v (VStr q)).
Proof.
  intros Hp Hq _ Hmid. unfold getFieldValue in *.
  assert (truthy (VStr p) = true) as Htp by (by destruct p).
  assert (truthy (VStr q) = true) as Htq by (by destruct q).
  assert (truthy (VStr (p +:+ String "." q)) = true) as ->
    by (by destruct p).
  rewrite Htp in *. rewrite Htq. simpl in *.
  destruct (truthy obj); simpl in *; [|done].
  rewrite split_app, walk_app.
  destruct (truthy (walk (split "." p) obj)) eqn:Hv; simpl; [done|].
  f_equal. apply walk_falsy; [done|congruence|apply split_nonempty].
Qed.

Section WithRuntime.
Context (rt : Runtime).

Lemma some_true (rs : list (outcome bool)) :
  some rs = Ret true
  ↔ ∃ i, rs !! i = Some (Ret true)
         ∧ ∀ j, (j < i)%nat → rs !! j = Some (Ret false).
Proof.
  induction rs as [|[[]|e] rs IH]; simpl.
  - split; [discriminate|]. by intros (i & ? & _).
  - split; [|done]. intros _. exists 0%nat. split; [done|]. lia.
  - rewrite IH. split.
    + intros (i & Hi & Hlt). exists (S i). split; [done|].
      intros [|j] ?; [done|]. apply Hlt. lia.
    + intros ([|i] & Hi & Hlt); [done|]. exists i. split; [done|].
      intros j ?. apply (Hlt (S j)). lia.
  - split; [discriminate|]. intros ([|i] & Hi & Hlt); [done|].
    by specialize (Hlt 0%nat ltac:(lia)).
Qed.

Lemma every_true (rs : list (outcome bool)) :
  every rs = Ret true ↔ Forall (λ r, r = Ret true) rs.
Proof.
  induction rs as [|[[]|e] rs IH]; simpl.
  - split; [by constructor|done].
  - rewrite IH. split; [by constructor|by inversion 1].
  - split; [discriminate|by inversion 1].
  - split; [discriminate|by inversion 1].
Qed.

(** X3: A node with an [any] list matches when one of the conditions of the
    list matches and the ones before it evaluate to false; in particular
    an empty list never matches. *)
Theorem any_node_matches (event condition : value) (xs : list value) :
  truthy condition = true →
  prop condition "any" = VArr xs →
  matchesCondition rt event condition = Ret true
  ↔ ∃ i x, xs !! i = Some x
           ∧ matchesCondition rt event x = Ret true
           ∧ ∀ j y, (j < i)%nat → xs !! j = Some y →
                    matchesCondition rt event y = Ret false.
Proof.
  intros Ht Hany.
  rewrite MatcherSpec.matchesCondition_any by (by rewrite ?Hany).
  rewrite Hany. simpl elems. rewrite some_true. split.
  - intros (i & Hi & Hlt).
    apply list_lookup_fmap_Some in Hi as (x & Hx & Hmx).
    exists i, x. split; [done|]. split; [done|].
    intros j y Hj Hy. specialize (Hlt j Hj).
    rewrite list_lookup_fmap, Hy in Hlt. by injection Hlt.
  - intros (i & x & Hx & Hmx & Hlt). exists i.
    rewrite list_lookup_fmap, Hx. split; [by rewrite <- Hmx|].
    intros j Hj. rewrite list_lookup_fmap.
    destruct (xs !! j) as [y|] eqn:Hy.
    + simpl. by rewrite (Hlt j y Hj Hy).
    + apply lookup_ge_None in Hy. apply lookup_lt_Some in Hx. lia.
Qed.

(** X4: A node with an [all] list and no [any] list matches when every
    condition of the list matches; in particular an empty list always
    matches. *)
Theorem all_node_matches (event condition : value) (xs : list value) :
  truthy condition = true →
  isArray (prop condition "any") = false →
  prop condition "all" = VArr xs →
  matchesCondition rt event condition = Ret true
  ↔ ∀ x, x ∈ xs → matchesCondition rt event x = Ret true.
Proof.
  intros Ht Hany Hall.
  rewrite MatcherSpec.matchesCondition_all by (by rewrite ?Hall).
  rewrite Hall. simpl elems. rewrite every_true, Forall_fmap, Forall_forall.
  done.
Qed.

Lemma no_checks_fields (event condition : value) :
  truthy condition = true → no_checks condition →
  matchesCondition rt event condition =
    (negated ← (if truthy (prop condition "not")
                then matchesCondition rt event (prop condition "not")
                else Ret false);
     if negated : bool then Ret false
     else if truthy (prop condition "additional")
     then matchesCondition rt event (prop condition "additional")
     else Ret true).
Proof.
  intros Ht (Hany & Hall & Hfield & Heq & Hcont & Hca & Hm).
  rewrite MatcherSpec.matchesCondition_fields by done. unfold field_checks.
  destruct (MatcherSpec.getFieldValue_returns event _ Hfield) as [fv ->].
  cbn [mbind outcome_bind].
  unfold equals_fails, contains_fails, contains_any_fails, matches_fails.
  rewrite Heq, Hcont, Hm, Hca. simpl. by rewrite andb_false_r.
Qed.



End WithRuntime.

(** [getFieldValue_compose] on the address of a login event. *)
Lemma getFieldValue_compose_witness :
  getFieldValue success (VStr "parsed_data.source_ip")
  = (v ← getFieldValue success (VStr "parsed_data");
     getFieldValue v (VStr "source_ip")).
Proof.
  apply (getFieldValue_compose success "parsed_data" "source_ip");
    [done|done|reflexivity|done].
Defined.

(** [any_node_matches] on the rule of the service installations. *)
Lemma any_node_matches_witness :
  matchesCondition rt0 (VObj [("parsed_data", VObj [("event_id", VNum 4697)])])
    (conditions new_service_installed) = Ret true
  ↔ ∃ i x,
      elems (prop (conditions new_service_installed) "any") !! i = Some x
      ∧ matchesCondition rt0
          (VObj [("parsed_data", VObj [("event_id", VNum 4697)])]) x
        = Ret true
      ∧ ∀ j y, (j < i)%nat →
               elems (prop (conditions new_service_installed) "any") !! j
               = Some y →
               matchesCondition rt0
                 (VObj [("parsed_data", VObj [("event_id", VNum 4697)])]) y
               = Ret false.
Proof.
  apply (any_node_matches rt0 _ (conditions new_service_installed)); reflexivity.
Defined.

(** [all_node_matches] on a list of two conditions. *)
Lemma all_node_matches_witness :
  matchesCondition rt0 success
    (VObj [("all", VArr [conditions (brute_force 5); root_node])]) = Ret true
  ↔ ∀ x, x ∈ [conditions (brute_force 5); root_node] →
         matchesCondition rt0 success x = Ret true.
Proof.
  apply (all_node_matches rt0 success
           (VObj [("all", VArr [conditions (brute_force 5); root_node])]));
    reflexivity.
Defined.



End MatcherLaws.

(** * Conditions that evaluate without exceptions *)

Module MatcherTotal.
Import JS Detection Dispatch Properties.
#[local] Open Scope list_scope.

(** Induction on a value through its arrays and objects. *)
Lemma value_rect_deep (P : value → Prop) :
  P VUndef → P VNull → (∀ b, P (VBool b)) → (∀ n, P (VNum n)) → P VNaN →
  (∀ s, P (VStr s)) →
  (∀ xs, Forall P xs → P (VArr xs)) →
  (∀ fs, Forall (λ kv, P kv.2) fs → P (VObj fs)) →
  ∀ v, P v.
Proof.
  intros Hu Hn Hb Hz Hnan Hs Ha Ho.
  fix IH 1. intros [| |b|n| |s|xs|fs].
  - exact Hu.
  - exact Hn.
  - apply Hb.
  - apply Hz.
  - exact Hnan.
  - apply Hs.
  - apply Ha. induction xs as [|x xs IHxs]; constructor; [apply IH|exact IHxs].
  - apply Ho. induction fs as [|[k x] fs IHfs]; constructor;
      [apply IH|exact IHfs].
Qed.

Lemma fields_ok_arr (xs : list value) :
  fields_ok (VArr xs) = true ↔ Forall (λ x, fields_ok x = true) xs.
Proof.
  induction xs as [|x xs IH].
  - split; [by constructor|done].
  - change (fields_ok (VArr (x :: xs)))
      with (fields_ok x && fields_ok (VArr xs)).
    rewrite andb_true_iff, IH. split; [by intros []; constructor|by inversion 1].
Qed.

Lemma fields_ok_obj (fs : list (string * value)) :
  fields_ok (VObj fs) = true
  ↔ field_ok (VObj fs) = true ∧ Forall (λ kv, fields_ok kv.2 = true) fs.
Proof.
  cbn [fields_ok]. rewrite andb_true_iff. apply and_iff_compat_l.
  induction fs as [|[k x] fs IH]; [by split; constructor|].
  rewrite andb_true_iff, IH.
  split; [by intros []; constructor|by inversion 1].
Qed.

Lemma field_safe_ok (v : value) :
  Domain.field_safe v = true → field_ok v = true.
Proof. unfold Domain.field_safe, field_ok. by destruct (prop v "field"). Qed.

(** A path of data keys is in particular a string. *)
Lemma fields_safe_ok (v : value) :
  Domain.fields_safe v = true → fields_ok v = true.
Proof.
  induction v as [| | | | | |xs IH|fs IH] using value_rect_deep; try done.
  - intros Hsafe. apply fields_ok_arr.
    induction IH as [|x xs Hx _ IHxs]; [by constructor|].
    change (Domain.fields_safe (VArr (x :: xs)))
      with (Domain.fields_safe x && Domain.fields_safe (VArr xs)) in Hsafe.
    apply andb_true_iff in Hsafe as [Hx' Hxs]. constructor; [by apply Hx|].
    exact (IHxs Hxs).
  - intros Hsafe. apply fields_ok_obj. cbn [Domain.fields_safe] in Hsafe.
    apply andb_true_iff in Hsafe as [Hfield Heach].
    split; [by apply field_safe_ok|]. clear Hfield.
    induction IH as [|[k x] fs Hx _ IHfs]; [by constructor|].
    apply andb_true_iff in Heach as [Hx' Hfs]. constructor; [by apply Hx|].
    exact (IHfs Hfs).
Qed.

Lemma own_Forall (Q : value → Prop) (fs : list (string * value)) (k : string) :
  Q VUndef → Forall (λ kv, Q kv.2) fs → Q (own fs k).
Proof.
  intros Hu. induction 1 as [|[k' x] fs Hx _ IH]; simpl; [done|].
  by destruct (String.eqb k' k).
Qed.

Section WithRuntime.
Context (rt : Runtime) (event : value).

Lemma some_returns (rs : list (outcome bool)) :
  Forall returns rs → returns (some rs).
Proof.
  induction 1 as [|r rs [[] ->] _ IH]; simpl; [by exists false| |done].
  by exists true.
Qed.

Lemma every_returns (rs : list (outcome bool)) :
  Forall returns rs → returns (every rs).
Proof.
  induction 1 as [|r rs [[] ->] _ IH]; simpl; [by exists true|done|].
  by exists false.
Qed.

#[local] Abbreviation evaluates := (Properties.evaluates rt event).

Lemma evaluates_all (v : value) : evaluates v.
Proof.
  induction v as [| | | | | |xs IH|fs IH] using value_rect_deep;
    intros Hok; try (split; [|by constructor]).
  1-6: rewrite MatcherSpec.matchesCondition_unfold; unfold matchesBody;
       simpl; try by eexists.
  - by destruct b; eexists.
  - by destruct (n =? 0)%Z; eexists.
  - destruct (String.eqb s ""); simpl; by eexists.
  - (* an array: it has none of the keys of a condition *)
    apply fields_ok_arr in Hok. split.
    + rewrite MatcherSpec.matchesCondition_unfold. unfold matchesBody.
      simpl. by eexists.
    + simpl. rewrite Forall_forall in IH, Hok |- *. intros x Hx.
      by apply (IH x Hx), Hok.
  - (* an object *)
    apply fields_ok_obj in Hok as [Hfield Hok].
    assert (Hsub : ∀ k, evaluates (own fs k)).
    { intros k. apply (own_Forall evaluates); [|done].
      intros _. split; [|by constructor].
      rewrite MatcherSpec.matchesCondition_falsy by done. by eexists. }
    assert (Hsubok : ∀ k, fields_ok (own fs k) = true).
    { intros k. by apply (own_Forall (λ x, fields_ok x = true)). }
    rewrite MatcherSpec.matchesCondition_unfold. unfold matchesBody.
    simpl truthy. cbn [negb]. simpl prop.
    destruct (truthy (own fs "any") && isArray (own fs "any")).
    { apply some_returns, Forall_fmap. apply (Hsub "any"), Hsubok. }
    destruct (truthy (own fs "all") && isArray (own fs "all")).
    { apply every_returns, Forall_fmap. apply (Hsub "all"), Hsubok. }
    destruct (MatcherSpec.getFieldValue_returns event _ Hfield) as [fv Hfv].
    simpl prop in Hfv. rewrite Hfv. cbn [mbind outcome_bind].
    destruct (equals_fails _ _); [by eexists|].
    destruct (contains_fails _ _); [by eexists|].
    destruct (contains_any_fails _ _); [by eexists|].
    destruct (matches_fails _ _ _); [by eexists|].
    destruct (proj1 (Hsub "not" (Hsubok _))) as [bn Hn].
    destruct (proj1 (Hsub "additional" (Hsubok _))) as [ba Ha].
    simpl prop. rewrite Hn, Ha.
    destruct (truthy (own fs "not")); cbn [mbind outcome_bind];
      [destruct bn|]; try (by eexists);
      destruct (truthy (own fs "additional")); by eexists.
Qed.

(** X7: A condition in which every [field] is absent or a path of data
    keys evaluates to a boolean on every event, when no object of the
    condition or of the event has an own member [toString]:
    [matchesCondition] does not throw on it. *)
Theorem matchesCondition_returns (condition : value) :
  Domain.fields_safe condition = true →
  Domain.plain condition = true →
  Domain.plain event = true →
  ∃ b, matchesCondition rt event condition = Ret b.
Proof.
  intros Hsafe _ _.
  exact (proj1 (evaluates_all condition (fields_safe_ok _ Hsafe))).
Qed.

End WithRuntime.

(** [matchesCondition_returns] on the default rules. *)
Lemma matchesCondition_returns_witness :
  Forall (λ r, ∃ b, matchesCondition rt0 success (conditions r.2) = Ret b)
         DEFAULT_RULES.
Proof.
  repeat (constructor;
          [apply (matchesCondition_returns rt0 success); reflexivity|]).
  constructor.
Defined.

End MatcherTotal.

(** * More of the stateful rules *)

Module EngineLaws.
Import JS Detection Dispatch Properties EngineSpec.
#[local] Open Scope list_scope.

Section WithSink.
Context (rt : Runtime) (sk : Sink).

#[local] Abbreviation World := (World sk).
#[local] Abbreviation with_state := (with_state sk).
#[local] Abbreviation without_state := (without_state sk).

(** Whatever [createAlert] does, it leaves [thresholdState] alone, and an
    alert it returns is the alert of its arguments. *)
Lemma createAlert_frame (event : value) (rule : Rule) (details : string)
    (w : World) :
  thresholdState sk (createAlert sk event rule details w).2
  = thresholdState sk w
  ∧ ∀ a, (createAlert sk event rule details w).1 = Ret a →
         alert_for event rule details a.
Proof.
  unfold createAlert, mbind, M_bind, new_uuid, lift, getProp, sink, mret, M_ret.
  destruct (uuidv4 sk (external sk w)) as [uid x1]. simpl.
  destruct (is_nullish event); simpl; [by split|].
  destruct (alertOps_insert sk _ x1) as [x2|]; simpl; [|by split].
  destruct (ruleOps_incrementMatchCount sk _ x2) as [x3|]; simpl; [|by split].
  split; [done|]. intros a [= <-]. by repeat split.
Qed.

(** A signature rule gives the alert of the rule when the event matches
    its conditions and nothing otherwise, and never touches the window
    states. *)
Lemma signature_rule (event : value) (rule : Rule) (ok : bool) (w : World) :
  sink_accepts sk →
  is_nullish event = false →
  matchesCondition rt event (conditions rule) = Ret ok →
  if ok then
    ∃ a x, processSignatureRule rt sk event rule w
           = (Ret (Some a),
              {| thresholdState := thresholdState sk w; external := x |})
           ∧ alert_for event rule ("Signature match: " +:+ name rule) a
  else processSignatureRule rt sk event rule w = (Ret None, w).
Proof.
  intros Hsink Hev Hmatch. unfold processSignatureRule.
  rewrite Hmatch, bind_lift_ret. destruct ok; [|done].
  destruct (createAlert_returns sk event rule
              ("Signature match: " +:+ name rule) w Hsink Hev)
    as (a & x & Hcreate & Halert).
  exists a, x. unfold mbind, M_bind. by rewrite Hcreate.
Qed.

Section Threshold.
Context (rule : Rule) (g : value) (T W : Z).
Hypothesis Hthreshold : threshold_of rt rule = Some T.
Hypothesis HT : (0 < T)%Z.
Hypothesis Hwindow : windowMs_of rt rule = Some W.

Let key : string := stateKey rule g.




End Threshold.

End WithSink.




End EngineLaws.

(** * Sequences of the correlation rule *)

Module CorrelationLaws.
Import JS Detection Dispatch Properties EngineSpec.
#[local] Open Scope list_scope.

Section WithSink.
Context (rt : Runtime) (sk : Sink).

#[local] Abbreviation World := (World sk).
#[local] Abbreviation with_state := (with_state sk).
#[local] Abbreviation without_state := (without_state sk).

(** A stream fed in two parts: the second part starts from the state the
    first one leaves. *)
Lemma feed_app (step : Z → value → M sk (option Alert))
    (first rest : list (Z * value)) (w : World) :
  feed sk step (first ++ rest) w
  = (rs1 ← feed sk step first;
     rs2 ← feed sk step rest;
     mret (rs1 ++ rs2)) w.
Proof.
  revert w. induction first as [|[now event] first IH]; intros w.
  - simpl. unfold mbind, M_bind, mret, M_ret.
    by destruct (feed sk step rest w) as [[rs|e] w'].
  - simpl. unfold mbind, M_bind, mret, M_ret in *.
    destruct (step now event w) as [[r|e] w1]; [|done].
    rewrite IH.
    destruct (feed sk step first w1) as [[rs1|e] w2]; [|done].
    by destruct (feed sk step rest w2) as [[rs2|e] w3].
Qed.

Section Correlation.
Context (rule : Rule) (g : value).
Hypothesis Hseq : has_sequence rt rule = true.

Let key : string := stateKey rule g.
Let step := λ now event, processCorrelationRule rt sk now event rule.

(** What a run of failures leaves in the bucket of its group. *)
Lemma failures_recorded (stream : list (Z * value)) :
  ∀ (w : World) (now0 : Z),
  Forall (failing rt rule g) stream.*2 →
  head stream.*1 = Some now0 →
  let st0 := default (fresh now0) (thresholdState sk w !! key) in
  feed sk step stream w
  = (Ret (replicate (length stream) None),
     with_state key
       {| count := count st0 + Z.of_nat (length stream);
          window_start := window_start st0;
          events := events st0 ++ (entry <$> stream.*2) |} w).
Proof.
  induction stream as [|[now event] rest IH]; intros w now0 Hfail Hhead;
    [done|].
  apply Forall_cons in Hfail as [(H0 & H1 & Hg & Hev) Hfail].
  simpl in Hhead. injection Hhead as ->. simpl in H0, H1, Hg, Hev.
  simpl feed. unfold mbind at 1, M_bind at 1. unfold step at 1.
  rewrite (correlation_records rt sk now0 event rule g w Hseq Hg Hev
             false true H1 H0 (λ H, ltac:(discriminate)) eq_refl).
  fold key. destruct rest as [|[now' event'] rest].
  - simpl. unfold appended, mbind, M_bind, mret, M_ret. simpl.
    reflexivity.
  - unfold mbind at 1, M_bind at 1.
    rewrite (IH _ now' Hfail eq_refl). cbv zeta.
    replace (thresholdState sk (with_state key
               (appended now0 event (thresholdState sk w !! key)) w) !! key)
      with (Some (appended now0 event (thresholdState sk w !! key)))
      by (simpl; by rewrite lookup_insert_eq).
    rewrite with_state_twice. unfold appended, mret, M_ret.
    cbn [default from_option Datatypes.id count window_start events].
    do 3 f_equal.
    + simpl length. lia.
    + by rewrite <- app_assoc.
Qed.



End Correlation.

End WithSink.



End CorrelationLaws.

(** * The periodic sweep *)

Module SweepLaws.
Import JS Detection Dispatch Properties EngineSpec.
#[local] Open Scope list_scope.

(** What the sweep keeps and what it deletes. *)
Lemma sweep_lookup (now : Z) (states : gmap string WState) (key : string) :
  sweep now states !! key
  = st ← states !! key;
    if (maxAge <? now - window_start st)%Z then None else Some st.
Proof.
  unfold sweep. rewrite map_lookup_filter.
  destruct (states !! key) as [st|]; [|done]. simpl.
  by destruct (maxAge <? now - window_start st)%Z.
Qed.

Lemma sweep_insert (now : Z) (states : gmap string WState) key st :
  (now - window_start st ≤ maxAge)%Z →
  sweep now (<[key := st]> states) = <[key := st]> (sweep now states).
Proof.
  intros H. unfold sweep. rewrite map_filter_insert_True; [done|].
  simpl. by destruct (Z.ltb_spec maxAge (now - window_start st)); [lia|].
Qed.

Section WithSink.
Context (rt : Runtime) (sk : Sink).

#[local] Abbreviation World := (World sk).
#[local] Abbreviation sweep_world := (sweep_world sk).

Lemma unswept_ret {A} s (a : A) : unswept (sk := sk) s (mret a).
Proof. done. Qed.

Lemma unswept_lift {A} s (o : outcome A) : unswept s (lift sk o).
Proof. done. Qed.

Lemma unswept_bind {A B} s (m : M sk A) (f : A → M sk B) :
  unswept s m → (∀ a, unswept s (f a)) → unswept s (m ≫= f).
Proof.
  intros Hm Hf w. unfold mbind, M_bind. rewrite Hm.
  destruct (m w) as [[a|e] w']; simpl; [apply Hf|done].
Qed.

Lemma unswept_set s key st :
  (s - window_start st ≤ maxAge)%Z → unswept s (state_set sk key st).
Proof.
  intros H w. unfold state_set, Dispatch.sweep_world. simpl.
  by rewrite sweep_insert.
Qed.

Lemma unswept_createAlert s event rule details :
  unswept s (createAlert sk event rule details).
Proof.
  intros w.
  unfold createAlert, mbind, M_bind, new_uuid, lift, getProp, sink, mret, M_ret.
  simpl. destruct (uuidv4 sk (external sk w)) as [uid x1]. simpl.
  destruct (is_nullish event); simpl; [done|].
  destruct (alertOps_insert sk _ x1) as [x2|]; simpl; [|done].
  by destruct (ruleOps_incrementMatchCount sk _ x2) as [x3|].
Qed.

(** X13: The periodic sweep is invisible to a threshold rule whose window is
    at most ten minutes: a state the sweep deletes is one the rule would
    have replaced anyway. *)
Theorem sweep_invisible_to_threshold (rule : Rule) (W s now : Z)
    (event : value) :
  windowMs_of rt rule = Some W →
  (W ≤ maxAge)%Z →
  (s ≤ now)%Z →
  unswept s (processThresholdRule rt sk now event rule).
Proof.
  intros HW Hle Hs. unfold processThresholdRule.
  apply unswept_bind; [apply unswept_lift|]. intros ok.
  destruct ok; cbn [negb]; [|apply unswept_ret].
  apply unswept_bind; [apply unswept_lift|]. intros g.
  fold (windowMs_of rt rule). rewrite HW.
  set (key := stateKey rule g).
  intros w. rewrite !bind_state_get. simpl thresholdState.
  rewrite sweep_lookup.
  assert (Hfresh : (s - window_start (fresh now) ≤ maxAge)%Z)
    by (unfold maxAge; simpl; lia).
  assert (Htail : ∀ reused : option WState,
            (∀ st, reused = Some st → (s - window_start st ≤ maxAge)%Z) →
            unswept s
              (_ ← (if reused is Some st
                    then state_set sk key {| count := count st + 1;
                                             window_start := window_start st;
                                             events := events st |}
                    else mret tt);
               event_id ← lift sk (getProp event "id");
               let state := default (fresh now) reused in
               let pushed := events state ++ [(event_id, prop event "timestamp")] in
               let kept := List.filter (recent rt now (Some W)) pushed in
               let state := {| count := Z.of_nat (length kept);
                               window_start := window_start state;
                               events := kept |} in
               _ ← state_set sk key state;
               if num_ge (Some (count state))
                    (num rt (or_else (prop (conditions rule) "threshold") (VNum 5)))
               then
                 _ ← state_set sk key (fresh now);
                 a ← createAlert sk event rule
                       ("Threshold exceeded: " +:+ pretty (count state)
                        +:+ " events in "
                        +:+ toString (prop (conditions rule) "window_seconds")
                        +:+ "s (group: " +:+ toString g +:+ ")");
                 mret (Some a)
               else mret None)).
  { intros reused Hreused.
    apply unswept_bind.
    { destruct reused as [st|]; [|apply unswept_ret].
      apply unswept_set. simpl. by apply Hreused. }
    intros _. apply unswept_bind; [apply unswept_lift|]. intros event_id.
    cbv zeta. apply unswept_bind.
    { apply unswept_set. simpl.
      destruct reused as [st|]; [by apply Hreused|exact Hfresh]. }
    intros _. destruct (num_ge _ _); [|apply unswept_ret].
    apply unswept_bind; [by apply unswept_set|]. intros _.
    apply unswept_bind; [apply unswept_createAlert|]. intros a.
    apply unswept_ret. }
  destruct (thresholdState sk w !! key) as [st|] eqn:Hst; simpl.
  - destruct (Z.ltb_spec maxAge (s - window_start st)) as [Hold|Hyoung];
      destruct (Z.ltb_spec W (now - window_start st)) as [Hout|Hin];
      try lia.
    + apply (Htail None). by intros.
    + apply (Htail None). by intros.
    + apply (Htail (Some st)). intros ? [= <-]. lia.
  - apply (Htail None). by intros.
Qed.


End WithSink.

(** [sweep_invisible_to_threshold] on the brute-force rule, whose window
    is one minute. *)
Lemma sweep_invisible_to_threshold_witness :
  unswept 500
    (processThresholdRule rt0 sink0 1000 (failure 1).2 (brute_force 5)).
Proof.
  apply (sweep_invisible_to_threshold rt0 sink0 (brute_force 5) 60000%Z
           500%Z 1000%Z (failure 1).2 eq_refl); by vm_compute.
Defined.


End SweepLaws.

(** * The dispatch loop *)

Module DispatchLaws.
Import JS Detection Dispatch Properties EngineSpec.
#[local] Open Scope list_scope.

Section WithSink.
Context (rt : Runtime) (sk : Sink).

#[local] Abbreviation World := (World sk).
#[local] Abbreviation processEvent := (processEvent rt sk).
#[local] Abbreviation handler := (handler rt sk).

Lemma yields_ret {A} (P : A → Prop) (a : A) :
  P a → yields (sk := sk) P (mret a).
Proof. intros H w a' [= <-]. exact H. Qed.

Lemma yields_bind {A B} (P : A → Prop) (Q : B → Prop) (m : M sk A)
    (f : A → M sk B) :
  yields P m → (∀ x, P x → yields Q (f x)) → yields Q (m ≫= f).
Proof.
  intros Hm Hf w b. unfold mbind, M_bind.
  pose proof (Hm w) as Hw.
  destruct (m w) as [[x|e] w']; simpl in *; [|done].
  apply Hf. by apply Hw.
Qed.

Lemma yields_any {A} (m : M sk A) : yields (λ _, True) m.
Proof. done. Qed.

Lemma yields_then {A B} (Q : B → Prop) (m : M sk A) (f : A → M sk B) :
  (∀ x, yields Q (f x)) → yields Q (m ≫= f).
Proof. intros Hf. eapply yields_bind; [apply yields_any|]. by intros. Qed.

Lemma yields_createAlert (event : value) (rule : Rule) (details : string) :
  yields (alert_for event rule details) (createAlert sk event rule details).
Proof.
  intros w a.
  unfold createAlert, mbind, M_bind, new_uuid, lift, getProp, sink, mret, M_ret.
  destruct (uuidv4 sk (external sk w)) as [uid x1]. simpl.
  destruct (is_nullish event); simpl; [done|].
  destruct (alertOps_insert sk _ x1) as [x2|]; simpl; [|done].
  destruct (ruleOps_incrementMatchCount sk _ x2) as [x3|]; simpl; [|done].
  intros [= <-]. by repeat split.
Qed.

Lemma yields_alert (event : value) (rule : Rule) (details : string) :
  yields (alert_of event rule)
    (a ← createAlert sk event rule details; mret (Some a)).
Proof.
  eapply yields_bind; [apply yields_createAlert|]. intros a Ha.
  apply yields_ret. intros ? [= <-]. by exists details.
Qed.

Lemma alert_of_None event rule : alert_of event rule None.
Proof. by intros a. Qed.

Ltac quiet := apply yields_ret, alert_of_None.

Lemma signature_yields (event : value) (rule : Rule) :
  yields (alert_of event rule) (processSignatureRule rt sk event rule).
Proof.
  unfold processSignatureRule. apply yields_then. intros [|]; [|quiet].
  apply yields_alert.
Qed.

Lemma threshold_yields (now : Z) (event : value) (rule : Rule) :
  yields (alert_of event rule) (processThresholdRule rt sk now event rule).
Proof.
  unfold processThresholdRule. apply yields_then. intros [|]; [|quiet].
  cbn [negb]. do 5 (apply yields_then; intros ?). cbv zeta.
  destruct (num_ge _ _); [|quiet].
  apply yields_then. intros _. apply yields_alert.
Qed.

Lemma correlation_yields (now : Z) (event : value) (rule : Rule) :
  yields (alert_of event rule) (processCorrelationRule rt sk now event rule).
Proof.
  unfold processCorrelationRule. apply yields_then. intros sequence.
  destruct (_ || _); [quiet|].
  do 2 (apply yields_then; intros ?).
  eapply (yields_bind (alert_of event rule)).
  - match goal with |- context [if ?b then _ else mret None] =>
      destruct b end; [|quiet].
    do 2 (apply yields_then; intros ?).
    match goal with |- context [match ?x with Some _ => _ | None => _ end] =>
      destruct x end; [|quiet].
    repeat (destruct (num_ge _ _); [|quiet]).
    apply yields_then. intros _. apply yields_alert.
  - intros [a|] Ha; [by apply yields_ret|].
    cbv zeta. apply yields_then. intros [|]; [|quiet].
    do 4 (apply yields_then; intros ?). quiet.
Qed.

Lemma handler_yields (event : value) (t : Turn) :
  yields (alert_of event (rule t)) (handler event t).
Proof.
  unfold Dispatch.handler.
  repeat (destruct (String.eqb _ _));
    [apply signature_yields|apply threshold_yields|apply correlation_yields|].
  quiet.
Qed.

(** [processEvent] returns, whatever the rules and their handlers do. *)
Lemma processEvent_returns (event : value) (turns : list Turn) (w : World) :
  ∃ alerts, (processEvent event turns w).1 = Ret alerts.
Proof.
  revert w. induction turns as [|t rest IH]; intros w; [by exists []|].
  simpl. destruct (handler event t w) as [o w1].
  unfold mbind, M_bind. destruct (IH w1) as [rs Hrs].
  destruct (processEvent event rest w1) as [[rs'|e] w2]; [|done].
  by eexists.
Qed.

(** X15: Every alert [processEvent] returns is an alert of the event, made
    for one of the rules it was given; the alerts come in the order of the
    rules, at most one for each. *)
Theorem processEvent_alerts (event : value) (turns : list Turn) (w : World) :
  ∃ alerts,
    (processEvent event turns w).1 = Ret alerts
    ∧ (∃ fired, fired `sublist_of` turns
                ∧ Forall2 (λ a t, ∃ details,
                             alert_for event (rule t) details a)
                          alerts fired).
Proof.
  revert w. induction turns as [|t rest IH]; intros w.
  - exists []. split; [done|]. by exists [].
  - simpl. pose proof (handler_yields event t w) as Hy.
    destruct (handler event t w) as [o w1]. simpl in Hy.
    unfold mbind, M_bind. destruct (IH w1) as (rs & Hrs & fired & Hsub & Hall).
    destruct (processEvent event rest w1) as [[rs'|e] w2]; [|done].
    simpl in Hrs. injection Hrs as ->.
    destruct o as [[a|]|e].
    + exists (a :: rs). split; [done|]. exists (t :: fired).
      split; [by constructor|]. constructor; [|done].
      by apply (Hy (Some a)).
    + exists rs. split; [done|]. exists fired. split; [by constructor|done].
    + exists rs. split; [done|]. exists fired. split; [by constructor|done].
Qed.

(** A rule whose [rule_type] is none of the three is skipped: the loop
    does as if only the rules of the known types were there. *)
Lemma processEvent_known (event : value) (turns : list Turn) (w : World) :
  processEvent event turns w
  = processEvent event (List.filter known turns) w.
Proof.
  revert w. induction turns as [|t rest IH]; intros w; [done|].
  cbn [List.filter]. destruct (known t) eqn:Hk.
  - simpl. destruct (handler event t w) as [o w1].
    unfold mbind, M_bind. by rewrite IH.
  - simpl. unfold Dispatch.handler, known in *.
    destruct (String.eqb _ _); [done|].
    destruct (String.eqb _ _); [done|].
    destruct (String.eqb _ _); [done|].
    unfold mbind, M_bind, mret, M_ret. rewrite IH.
    by destruct (processEvent event _ w) as [[rs|e] w'].
Qed.

(** The rules are run one after the other on the same event: a list of
    rules in two parts gives the alerts of the first part, then those of
    the second part run from the state the first part left. *)
Lemma processEvent_app (event : value) (first rest : list Turn) (w : World) :
  processEvent event (first ++ rest) w
  = (rs1 ← processEvent event first;
     rs2 ← processEvent event rest;
     mret (rs1 ++ rs2)) w.
Proof.
  revert w. induction first as [|t first IH]; intros w.
  - simpl. unfold mbind, M_bind, mret, M_ret.
    by destruct (processEvent event rest w) as [[rs|e] w'].
  - simpl. unfold mbind, M_bind, mret, M_ret in *.
    destruct (handler event t w) as [o w1]. rewrite IH.
    destruct (processEvent event first w1) as [[rs1|e] w2]; [|done].
    destruct (processEvent event rest w2) as [[rs2|e] w3]; [|done].
    by rewrite app_assoc.
Qed.

End WithSink.
End DispatchLaws.

(** * Signature rules in the dispatch loop *)

Module SignatureLaws.
Import JS Detection Dispatch Properties EngineSpec.
#[local] Open Scope list_scope.

Section WithSink.
Context (rt : Runtime) (sk : Sink).

#[local] Abbreviation World := (World sk).
#[local] Abbreviation processEvent := (processEvent rt sk).

(** X16: With only signature rules, [processEvent] gives one alert for each
    rule the event matches, in the order of the rules, and leaves the
    window states as they were. *)
Theorem processEvent_signatures (event : value) (turns : list Turn)
    (w : World) :
  sink_accepts sk →
  is_nullish event = false →
  Forall signature_turn turns →
  ∃ alerts x,
    processEvent event turns w
    = (Ret alerts,
       {| thresholdState := thresholdState sk w; external := x |})
    ∧ Forall2 (λ a t, alert_for event (rule t)
                        ("Signature match: " +:+ name (rule t)) a)
              alerts
              (List.filter (λ t, matched rt event (conditions (rule t))) turns).
Proof.
  intros Hsink Hev Hturns. revert w.
  induction Hturns as [|t rest [Htype Hok] _ IH]; intros w.
  - exists [], (external sk w). split; [by destruct w|constructor].
  - cbn [Dispatch.processEvent List.filter].
    unfold Dispatch.handler. rewrite Htype, String.eqb_refl.
    unfold processSignatureRule, matched at 1.
    destruct (proj1 (MatcherTotal.evaluates_all rt event _ Hok)) as [ok Hm].
    rewrite Hm, bind_lift_ret. destruct ok.
    + destruct (createAlert_returns sk event (rule t)
                  ("Signature match: " +:+ name (rule t)) w Hsink Hev)
        as (a & x & Hcreate & Halert).
      assert (Hstep : (createAlert sk event (rule t)
                         ("Signature match: " +:+ name (rule t))
                       ≫= λ a, mret (Some a)) w
                      = (Ret (Some a),
                         {| thresholdState := thresholdState sk w;
                            external := x |}))
        by (unfold mbind, M_bind; by rewrite Hcreate).
      rewrite Hstep.
      destruct (IH {| thresholdState := thresholdState sk w; external := x |})
        as (rs & x' & Hrs & Hall).
      unfold mbind, M_bind, mret, M_ret. rewrite Hrs. simpl.
      exists (a :: rs), x'. split; [done|]. by constructor.
    + unfold mret at 1, M_ret at 1.
      destruct (IH w) as (rs & x' & Hrs & Hall).
      unfold mbind, M_bind, mret, M_ret. rewrite Hrs. simpl.
      by exists rs, x'.
Qed.

End WithSink.

(** [processEvent_signatures] on the signature rules among the default
    rules and a sudo event. *)
Lemma processEvent_signatures_witness :
  ∃ alerts x,
    processEvent rt0 sink0 sudo_event signature_turns world0
    = (Ret alerts,
       {| thresholdState := thresholdState sink0 world0; external := x |})
    ∧ Forall2 (λ a t, alert_for sudo_event (rule t)
                        ("Signature match: " +:+ name (rule t)) a)
              alerts
              (List.filter
                 (λ t, matched rt0 sudo_event (conditions (rule t)))
                 signature_turns).
Proof.
  apply (processEvent_signatures rt0 sink0 sudo_event signature_turns world0
           sink0_accepts eq_refl).
  repeat constructor.
Defined.

End SignatureLaws.

(** * Patterns that need a character, and more of the syslog parser *)

Module RegexLaws.
Import Regex RegexCheck.

Lemma in_all_ascii (c : ascii) : In c all_ascii.
Proof.
  unfold all_ascii. apply list_elem_of_In, list_elem_of_fmap.
  exists (nat_of_ascii c). split; [by rewrite ascii_nat_embedding|].
  apply elem_of_seq. pose proof (nat_ascii_bounded c). lia.
Qed.

Section Avoiding.
Context {R : Type} (bad : ascii → bool).

(** On an input without bad characters, a continuation that fails on
    every such input makes [go] fail. *)
Lemma go_avoiding (r : re) :
  ∀ pos s cs (k : nat → string → captures → option R),
  avoids bad s = true →
  (∀ pos' s' cs', avoids bad s' = true → k pos' s' cs' = None) →
  go r pos s cs k = None.
Proof.
  induction r as [|p|r1 IH1 r2 IH2|r1 IH1 r2 IH2|lazy r1 IH|i r1 IH| |];
    intros pos s cs k Hs Hk; simpl.
  - by apply Hk.
  - destruct s as [|c s]; [done|]. simpl in Hs.
    apply andb_true_iff in Hs as [_ Hs]. destruct (p c); [by apply Hk|done].
  - apply IH1; [done|]. intros. by apply IH2.
  - by rewrite IH1, IH2.
  - generalize (String.length s). intros fuel. revert pos s cs Hs.
    induction fuel as [|fuel IHf]; intros pos s cs Hs; [by apply Hk|].
    rewrite (Hk pos s cs Hs). rewrite IH; [by destruct lazy|done|].
    intros pos' s' cs' Hs'. destruct (_ <? _)%nat; [by apply IHf|done].
  - apply IH; [done|]. intros. by apply Hk.
  - destruct (Nat.eqb pos 0); [by apply Hk|done].
  - destruct s; [by apply Hk|done].
Qed.

Lemma go_must_hit (r : re) :
  must_hit bad r = true →
  ∀ pos s cs (k : nat → string → captures → option R),
  avoids bad s = true → go r pos s cs k = None.
Proof.
  induction r as [|p|r1 IH1 r2 IH2|r1 IH1 r2 IH2|lazy r1 IH|i r1 IH| |];
    intros Hr pos s cs k Hs; cbn [must_hit] in Hr; simpl go; try done.
  - destruct s as [|c s]; [done|]. simpl in Hs.
    apply andb_true_iff in Hs as [Hc _]. apply negb_true_iff in Hc.
    rewrite forallb_forall in Hr. specialize (Hr c (in_all_ascii c)).
    rewrite Hc in Hr. by destruct (p c).
  - apply orb_true_iff in Hr as [Hr|Hr]; [by apply IH1|].
    apply go_avoiding; [done|]. intros. by apply IH2.
  - apply andb_true_iff in Hr as [Hr1 Hr2]. by rewrite IH1, IH2.
  - by apply IH.
Qed.

End Avoiding.

Lemma avoids_tail bad c s : avoids bad (String c s) = true → avoids bad s = true.
Proof. simpl. by intros [_ ?]%andb_true_iff. Qed.

(** A pattern that cannot match without consuming a character of some
    class finds nothing in a string that has no such character. *)
Lemma exec_must_hit (bad : ascii → bool) (r : re) (s : string) :
  must_hit bad r = true → avoids bad s = true → exec r s = None.
Proof.
  intros Hr. unfold exec. generalize 0%nat.
  induction s as [|c s IH]; intros pos Hs; simpl.
  - by rewrite (go_must_hit bad r Hr).
  - rewrite (go_must_hit bad r Hr) by done. apply IH.
    by apply avoids_tail in Hs.
Qed.

(** The pattern [\d+:] finds nothing in a string without colon. *)
Example digits_colon_not_found :
  exec (Cat (plus d) (chr ":")) "port 22 ssh2" = None.
Proof. by apply (exec_must_hit (Ascii.eqb ":")). Qed.

End RegexLaws.

Module SyslogLaws.
Import JS Regex RegexCheck Syslog.

(** X17: A line without a colon matches neither format, whatever else it
    holds: it gives the degraded event, with the trimmed line as its
    description and the host name of the metadata. *)
Theorem parse_without_colon (rt : DateRt) (raw : string) (metadata : value) :
  avoids (Ascii.eqb ":") raw = true →
  metadata ≠ VNull →
  ∃ ev, parse rt (VStr raw) metadata = Ret ev
        ∧ prop ev "source" = VStr "syslog"
        ∧ prop ev "event_type" = VStr "system"
        ∧ prop ev "severity" = VStr "info"
        ∧ prop ev "hostname"
          = or_else (prop (if metadata is VUndef then VObj [] else metadata)
                          "hostname")
                    (VStr "unknown")
        ∧ prop ev "description" = VStr (trim raw)
        ∧ prop ev "raw_log" = VStr raw
        ∧ prop ev "parsed_data" = VObj [("format", VStr "non-standard")].
Proof.
  intros Hraw Hmeta. unfold parse.
  rewrite (RegexLaws.exec_must_hit (Ascii.eqb ":") SYSLOG_BSD_REGEX raw) by done.
  rewrite (RegexLaws.exec_must_hit (Ascii.eqb ":") SYSLOG_ISO_REGEX raw) by done.
  destruct metadata; try done; simpl; eexists; (split; [reflexivity|]);
    repeat split.
Qed.

Lemma parse_without_colon_witness :
  ∃ ev, parse rt0 (VStr "  kernel panic  ")
          (VObj [("hostname", VStr "db-01")]) = Ret ev
        ∧ prop ev "hostname" = VStr "db-01"
        ∧ prop ev "description" = VStr "kernel panic".
Proof.
  destruct (parse_without_colon rt0 "  kernel panic  "
              (VObj [("hostname", VStr "db-01")]) eq_refl ltac:(done))
    as (ev & Hev & _ & _ & _ & Hhost & Hdesc & _).
  exists ev. by repeat split.
Defined.

(** *** The fields every parsed line has *)

Lemma mapSeverity_range (sev : Z) :
  mapSeverity sev ∈ ["critical"; "warning"; "info"].
Proof.
  unfold mapSeverity. repeat case_match; set_solver.
Qed.

Lemma classifyEvent_range (program message : string) :
  classifyEvent program message
  ∈ ["authentication"; "firewall"; "network"; "system"; "process"].
Proof.
  unfold classifyEvent. cbv zeta. repeat case_match; set_solver.
Qed.

(** X18: Whatever the line, an event the parser returns has the source
    [syslog], carries the line unchanged, and has one of three
    severities, one of five event types and one of three formats. *)
Theorem parse_invariants (rt : DateRt) (rawLog metadata ev : value) :
  parse rt rawLog metadata = Ret ev →
  prop ev "source" = VStr "syslog"
  ∧ prop ev "raw_log" = rawLog
  ∧ isString rawLog = true
  ∧ (∃ sev, prop ev "severity" = VStr sev
            ∧ sev ∈ ["critical"; "warning"; "info"])
  ∧ (∃ ty, prop ev "event_type" = VStr ty
           ∧ ty ∈ ["authentication"; "firewall"; "network"; "system";
                   "process"])
  ∧ (∃ fmt, prop (prop ev "parsed_data") "format" = VStr fmt
            ∧ fmt ∈ ["bsd"; "iso"; "non-standard"]).
Proof.
  unfold parse. destruct rawLog as [| | | | |raw| |]; try done.
  destruct (exec SYSLOG_BSD_REGEX raw) as [m|].
  { destruct (parsePriority _) as [facility sev].
    destruct (parseTimestamp rt _) as [ts|]; [|done].
    intros [= <-]. do 3 (split; [done|]).
    split; [eexists; split; [reflexivity|apply mapSeverity_range]|].
    split; [eexists; split; [reflexivity|apply classifyEvent_range]|].
    eexists. split; [reflexivity|set_solver]. }
  destruct (exec SYSLOG_ISO_REGEX raw) as [m|].
  { destruct (parseDate rt _) as [dt|]; [|done].
    intros [= <-]. do 3 (split; [done|]).
    split; [eexists; split; [reflexivity|set_solver]|].
    split; [eexists; split; [reflexivity|apply classifyEvent_range]|].
    eexists. split; [reflexivity|set_solver]. }
  destruct (getProp _ "hostname") as [host|]; [|done].
  intros [= <-]. do 3 (split; [done|]).
  split; [eexists; split; [reflexivity|set_solver]|].
  split; [eexists; split; [reflexivity|set_solver]|].
  eexists. split; [reflexivity|set_solver].
Qed.

Lemma parse_invariants_witness :
  ∃ ev, parse rt0 (VStr sample_line) VUndef = Ret ev
        ∧ prop ev "source" = VStr "syslog"
        ∧ prop ev "raw_log" = VStr sample_line.
Proof.
  eexists. split; [vm_compute; reflexivity|].
  refine (let H := parse_invariants rt0 (VStr sample_line) VUndef _ _ in
          conj (proj1 H) (proj1 (proj2 H))).
  vm_compute. reflexivity.
Defined.

(** X19: What the parser throws: a TypeError for a line that is not a string
    or for the metadata [null], and otherwise only the RangeError of a
    date that cannot be written. *)
Theorem parse_throws (rt : DateRt) (rawLog metadata : value) (e : exn) :
  parse rt rawLog metadata = Throw e →
  (e = TypeError ∧ (isString rawLog = false ∨ metadata = VNull))
  ∨ (e = RangeError ∧ isString rawLog = true).
Proof.
  unfold parse.
  destruct rawLog as [| | | | |raw| |];
    try (intros [= <-]; left; split; [done|by left]).
  destruct (exec SYSLOG_BSD_REGEX raw) as [m|].
  { destruct (parsePriority _) as [facility sev].
    unfold parseTimestamp. destruct (exec TIMESTAMP_REGEX _); [|done].
    cbv zeta. repeat case_match; try done; intros [= <-]; by right. }
  destruct (exec SYSLOG_ISO_REGEX raw) as [m|].
  { destruct (parseDate rt _) as [dt|]; [done|]. intros [= <-]. by right. }
  unfold getProp. destruct metadata; try done.
  intros [= <-]. left. split; [done|by right].
Qed.

Lemma parse_throws_witness :
  (TypeError = TypeError ∧ (isString (VNum 7) = false ∨ VUndef = VNull))
  ∨ (TypeError = RangeError ∧ isString (VNum 7) = true).
Proof. apply (parse_throws rt0 (VNum 7) VUndef). reflexivity. Defined.

(** *** Decimal numerals *)

Lemma digits_val_app (s1 s2 : string) :
  ∀ acc, digits_val acc (s1 +:+ s2)
         = acc' ← digits_val acc s1; digits_val acc' s2.
Proof.
  induction s1 as [|c s1 IH]; intros acc; [done|].
  simpl. destruct (digit_val c); [apply IH|done].
Qed.

Lemma leading_digits_app (s1 t : string) :
  ∀ acc, is_Some (digits_val acc s1) →
  leading_digits (s1 +:+ t) = s1 +:+ leading_digits t.
Proof.
  induction s1 as [|c s1 IH]; intros acc Hs; [done|].
  simpl in *. destruct (digit_val c); [|by destruct Hs].
  by rewrite (IH _ Hs).
Qed.

Lemma digit_val_char (x : N) :
  (x < 10)%N → digit_val (pretty_N_char x) = Some x.
Proof.
  intros Hx.
  assert (x = 0 ∨ x = 1 ∨ x = 2 ∨ x = 3 ∨ x = 4 ∨ x = 5 ∨ x = 6 ∨ x = 7
          ∨ x = 8 ∨ x = 9)%N by lia.
  repeat (destruct H as [->|H]; [done|]). by subst.
Qed.

Lemma append_assoc (a b c : string) : (a +:+ b) +:+ c = a +:+ (b +:+ c).
Proof.
  induction a as [|x a IH]; [done|].
  change (String x ((a +:+ b) +:+ c) = String x (a +:+ b +:+ c)).
  by rewrite IH.
Qed.

Lemma append_empty (a : string) : a +:+ "" = a.
Proof.
  induction a as [|x a IH]; [done|].
  change (String x (a +:+ "") = String x a). by rewrite IH.
Qed.

(** The decimal numeral of [x] is a string of digits whose value is [x]. *)
Lemma pretty_N_go_digits (x : N) :
  ∀ s, ∃ ds, pretty_N_go x s = ds +:+ s ∧ digits_val 0 ds = Some x.
Proof.
  induction (N.lt_wf_0 x) as [x _ IH]. intros s.
  destruct (decide (x = 0)%N) as [->|Hx]; [by exists ""|].
  rewrite pretty_N_go_step by lia.
  destruct (IH (x `div` 10)%N (N.div_lt x 10 ltac:(lia) eq_refl)
              (String (pretty_N_char (x `mod` 10)) s)) as (ds & -> & Hds).
  exists (ds +:+ String (pretty_N_char (x `mod` 10)) ""). split.
  - by rewrite append_assoc.
  - rewrite digits_val_app, Hds. simpl.
    rewrite digit_val_char by (apply N.mod_lt; lia).
    f_equal. pose proof (N.div_mod x 10 ltac:(lia)). lia.
Qed.

Lemma digit_not_sign (c : ascii) :
  is_Some (digit_val c) →
  is_space c = false ∧ c ≠ "-"%char ∧ c ≠ "+"%char.
Proof.
  destruct c as [[] [] [] [] [] [] [] []]; intros [x Hx]; by vm_compute in Hx.
Qed.

(** [parseInt] reads a decimal numeral back. *)
Lemma parseInt_pretty (x : N) : parseInt (VStr (pretty x)) = VNum (Z.of_N x).
Proof.
  unfold pretty, pretty_N. destruct (decide (x = 0)%N) as [->|Hx]; [done|].
  destruct (pretty_N_go_digits x "") as (ds & -> & Hds).
  rewrite append_empty. destruct ds as [|c ds]; [simpl in Hds; congruence|].
  assert (Hc : is_Some (digit_val c)).
  { simpl in Hds. by destruct (digit_val c). }
  destruct (digit_not_sign c Hc) as (Hsp & Hminus & Hplus).
  unfold parseInt. cbn [toString trimStart]. rewrite Hsp.
  assert (Hbody : (match String c ds with
                   | String "-" s' => (true, s')
                   | String "+" s' => (false, s')
                   | _ => (false, String c ds)
                   end) = (false, String c ds)).
  { destruct c as [[] [] [] [] [] [] [] []]; done. }
  rewrite Hbody.
  pose proof (leading_digits_app (String c ds) "" 0%N (mk_is_Some _ _ Hds))
    as Hlead.
  change (leading_digits "") with "" in Hlead.
  rewrite !append_empty in Hlead. by rewrite Hlead, Hds.
Qed.

(** X20: Every priority other than zero and below 2^53, written in
    decimal, is decoded into its facility and its severity: the two give
    the priority back, and the severity is below eight. *)
Theorem parsePriority_decodes (pri : N) :
  (0 < pri)%N →
  (Z.of_N pri < Domain.max_safe)%Z →
  ∃ facility sev,
    parsePriority (VStr (pretty pri)) = (facility, sev)
    ∧ (8 * facility + sev = Z.of_N pri)%Z
    ∧ (0 ≤ facility)%Z ∧ (0 ≤ sev < 8)%Z.
Proof.
  intros Hpri _. unfold parsePriority, or_else.
  rewrite parseInt_pretty. simpl truthy.
  destruct (Z.eqb_spec (Z.of_N pri) 0) as [|_]; [lia|]. simpl.
  eexists _, _. split; [reflexivity|].
  rewrite Z.rem_mod_nonneg by lia.
  pose proof (Z.div_mod (Z.of_N pri) 8 ltac:(lia)).
  pose proof (Z.mod_pos_bound (Z.of_N pri) 8 ltac:(lia)).
  pose proof (Z.div_pos (Z.of_N pri) 8 ltac:(lia) ltac:(lia)).
  lia.
Qed.

Lemma parsePriority_decodes_witness :
  ∃ facility sev,
    parsePriority (VStr "165") = (facility, sev)
    ∧ (8 * facility + sev = 165)%Z
    ∧ (0 ≤ facility)%Z ∧ (0 ≤ sev < 8)%Z.
Proof. apply (parsePriority_decodes 165); [lia|reflexivity]. Defined.

End SyslogLaws.

(** * More of the Windows event parser *)

Module WindowsLaws.
Import JS JSFacts Domain Windows WindowsRecord WindowsSpec.

Section WithRuntime.
Context (rt : Runtime).

(** [parseWindowsEvent] in two steps: the record, then the parser of the
    event id. *)
Lemma parseWindowsEvent_eq (event : value) :
  parseWindowsEvent rt event =
    if is_nullish event then Throw TypeError
    else
      let eventId := eventId_of event in
      let parsed := initial rt event in
      if is_num eventId 4624 || is_num eventId 4625
      then Ret (parseLogonEvent rt parsed event)
      else if is_num eventId 4688
      then parseProcessEvent rt parsed event
      else if is_num eventId 7045 || is_num eventId 4697
      then Ret (parseServiceEvent rt parsed event)
      else Ret parsed.
Proof.
  unfold parseWindowsEvent, getProp. by destruct (is_nullish event).
Qed.

Lemma initial_isObj (event : value) : isObj (initial rt event) = true.
Proof. unfold initial. cbv zeta. by destruct (truthy _). Qed.

Lemma initial_data_isObj (event : value) :
  isObj (prop (initial rt event) "parsed_data") = true.
Proof.
  unfold initial. cbv zeta. destruct (truthy _); [|done]. by js_props.
Qed.

Ltac initial_field :=
  unfold initial; cbv zeta; destruct (truthy _); [by js_props|done].

Lemma initial_source (event : value) :
  prop (initial rt event) "source" = VStr "windows".
Proof. initial_field. Qed.

Lemma initial_severity (event : value) :
  prop (initial rt event) "severity"
  = prop (mapping_of (eventId_of event)) "severity".
Proof. initial_field. Qed.

Lemma initial_event_type (event : value) :
  prop (initial rt event) "event_type"
  = prop (mapping_of (eventId_of event)) "type".
Proof. initial_field. Qed.

Lemma initial_description (event : value) :
  prop (initial rt event) "description"
  = prop (mapping_of (eventId_of event)) "desc".
Proof. initial_field. Qed.

Lemma initial_raw_log (event : value) :
  prop (initial rt event) "raw_log" = JSON_stringify rt event.
Proof. initial_field. Qed.

(** *** What the parser throws *)

Lemma parseProcessEvent_throws (parsed event : value) (e : exn) :
  isObj parsed = true →
  isObj (prop parsed "parsed_data") = true →
  parseProcessEvent rt parsed event = Throw e
  ↔ e = TypeError
    ∧ length_ge rt (props_of event) 10 = true
    ∧ path_ok (at_ (props_of event) "5") = false.
Proof.
  intros Hobj Hdata. unfold parseProcessEvent. fold (props_of event).
  destruct (length_ge rt (props_of event) 10); [|by split; [|intros (_&?&_)]].
  set (p4 := set_data (set_data (set_data (set_data parsed _ _) _ _) _ _) _ _).
  assert (prop (prop p4 "parsed_data") "new_process_name"
          = at_ (props_of event) "5") as ->.
  { unfold p4. by js_props. }
  destruct (at_ (props_of event) "5") as [| |b|n| |path|xs|fs] eqn:Hat;
    cbn [split_pop path_ok mbind outcome_bind].
  1,2: cbn; split; [by repeat case_match|by intros (_&_&?)].
  1,2,3,5,6: split; [by intros [= <-]|by intros (->&_)].
  change (or_else (VStr path) (VStr "")) with
    (if negb (String.eqb path "") then VStr path else VStr "").
  assert (lowered (if negb (String.eqb path "") then VStr path else VStr "")
          = Ret (toLowerCase path)) as ->.
  { destruct (String.eqb_spec path "") as [->|]; reflexivity. }
  cbn [mbind outcome_bind].
  split; [by repeat case_match|by intros (_&_&?)].
Qed.

(** X21: On an event in which no object has an own member [toString],
    [parseWindowsEvent] throws in two cases only, a TypeError both
    times: the event is [null] or [undefined]; or it is a process
    creation with the numeric id 4688 and at least ten properties whose
    sixth is neither absent nor a string. *)
Theorem parseWindowsEvent_throws (event : value) (e : exn) :
  plain event = true →
  parseWindowsEvent rt event = Throw e
  ↔ e = TypeError
    ∧ (is_nullish event = true
       ∨ (is_num (eventId_of event) 4688 = true
          ∧ length_ge rt (props_of event) 10 = true
          ∧ path_ok (at_ (props_of event) "5") = false)).
Proof.
  intros _.
  rewrite parseWindowsEvent_eq. destruct (is_nullish event) eqn:Hev.
  { split; [intros [= <-]; split; [done|by left]|by intros (->&_)]. }
  cbv zeta.
  destruct (is_num (eventId_of event) 4624 || is_num (eventId_of event) 4625)
    eqn:Hlogon.
  { split; [done|]. intros (_ & [?|(H4688 & _)]); [done|].
    unfold is_num in *. destruct (eventId_of event); try done.
    simpl in *. lia. }
  destruct (is_num (eventId_of event) 4688) eqn:Hproc.
  { rewrite (parseProcessEvent_throws _ _ _ (initial_isObj event)
               (initial_data_isObj event)).
    split; [intros (->&?&?); split; [done|by right]|].
    by intros (-> & [?|(_&?&?)]). }
  split; [by repeat case_match|]. by intros (_ & [?|(?&_)]).
Qed.

(** *** Events without a specific parser *)

Lemma not_enriched (eventId : value) :
  (∀ n, n ∈ enriched → eventId ≠ VNum n) →
  is_num eventId 4624 = false ∧ is_num eventId 4625 = false
  ∧ is_num eventId 4688 = false ∧ is_num eventId 7045 = false
  ∧ is_num eventId 4697 = false.
Proof.
  intros Hne. unfold is_num, enriched in *.
  destruct eventId as [| | |n| | | |]; try done. simpl.
  repeat split; apply Z.eqb_neq; intros ->; (eapply Hne; [|done]);
    repeat first [apply list_elem_of_here|apply list_elem_of_further].
Qed.

(** X22: Only a number among 4624, 4625, 4688, 7045 and 4697 is
    enriched: with any other id whose text is a data key, in particular
    an id given as a string of digits, the parser returns the record of
    the mapping table and never throws. *)
Theorem parseWindowsEvent_plain (event : value) :
  is_nullish event = false →
  (∀ n, n ∈ enriched → eventId_of event ≠ VNum n) →
  printable (eventId_of event) = true →
  data_key (toString (eventId_of event)) = true →
  ∃ parsed,
    parseWindowsEvent rt event = Ret parsed
    ∧ prop parsed "source" = VStr "windows"
    ∧ prop parsed "event_type" = prop (mapping_of (eventId_of event)) "type"
    ∧ prop parsed "severity" = prop (mapping_of (eventId_of event)) "severity"
    ∧ prop parsed "description" = prop (mapping_of (eventId_of event)) "desc"
    ∧ prop (prop parsed "parsed_data") "event_id" = eventId_of event.
Proof.
  intros Hev Hid _ _. rewrite parseWindowsEvent_eq, Hev. cbv zeta.
  destruct (not_enriched _ Hid) as (-> & -> & -> & -> & ->). simpl.
  exists (initial rt event). split; [done|].
  rewrite initial_source, initial_event_type, initial_severity,
    initial_description.
  do 4 (split; [done|]).
  unfold initial. cbv zeta. destruct (truthy _); [|done]. by js_props.
Qed.

(** *** Logon events *)

(** X23: A logon event with at least ten properties is described by its
    logon type, user and address, when these convert to a string as in
    the model and the logon type is looked up by a data key.  Whether
    the description says [Failed] is decided by [event.Id] alone: a
    failed logon whose id comes in [EventId] or [event_id] is described
    as a logon, and has no failure reason. *)
Theorem parseWindowsEvent_logon (event : value) :
  is_nullish event = false →
  is_num (eventId_of event) 4624 || is_num (eventId_of event) 4625 = true →
  length_ge rt (props_of event) 10 = true →
  printable (prop (props_of event) "length") = true →
  printable (at_ (props_of event) "8") = true →
  data_key (toString (at_ (props_of event) "8")) = true →
  printable (at_ (props_of event) "5") = true →
  printable (or_else (at_ (props_of event) "18") (VStr "local")) = true →
  ∃ parsed,
    parseWindowsEvent rt event = Ret parsed
    ∧ prop parsed "severity" = prop (mapping_of (eventId_of event)) "severity"
    ∧ prop parsed "description"
      = VStr ((if is_num (prop event "Id") 4625 then "Failed " else "")
              +:+ logonType_of (props_of event) +:+ " logon for "
              +:+ logonUser_of (props_of event) +:+ " from "
              +:+ logonIp_of (props_of event))
    ∧ prop (prop parsed "parsed_data") "failure_reason"
      = (if is_num (prop event "Id") 4625 then at_ (props_of event) "13"
         else VUndef).
Proof.
  intros Hev Hid Hlen _ _ _ _ _. rewrite parseWindowsEvent_eq, Hev. cbv zeta.
  rewrite Hid. eexists. split; [reflexivity|].
  pose proof (initial_isObj event) as Hobj.
  pose proof (initial_data_isObj event) as Hdata.
  pose proof (initial_severity event) as Hsev.
  assert (Hnone : prop (prop (initial rt event) "parsed_data") "failure_reason"
                  = VUndef).
  { unfold initial. cbv zeta. destruct (truthy _); [|done]. by js_props. }
  unfold parseLogonEvent. fold (props_of event). rewrite Hlen. cbv zeta.
  set (p0 := initial rt event) in *.
  set (p6 := set_data (set_data (set_data (set_data (set_data
               (set_data p0 _ _) _ _) _ _) _ _) _ _) _ _).
  assert (Hobj6 : isObj p6 = true) by (unfold p6; by js_props).
  assert (Hdata6 : isObj (prop p6 "parsed_data") = true)
    by (unfold p6; by js_props).
  assert (Htype : prop (prop p6 "parsed_data") "logon_type"
                  = or_else (prop LOGON_TYPES
                               (toString (at_ (props_of event) "8")))
                            (VStr "Unknown"))
    by (unfold p6; by js_props).
  assert (Huser : prop (prop p6 "parsed_data") "target_user"
                  = at_ (props_of event) "5") by (unfold p6; by js_props).
  assert (Hip : prop (prop p6 "parsed_data") "source_ip"
                = or_else (at_ (props_of event) "18") (VStr "local"))
    by (unfold p6; by js_props).
  assert (Hsev6 : prop p6 "severity" = prop p0 "severity")
    by (unfold p6; by js_props).
  assert (Hnone6 : prop (prop p6 "parsed_data") "failure_reason" = VUndef)
    by (unfold p6; js_props; exact Hnone).
  rewrite Htype, Huser, Hip.
  fold (logonType_of (props_of event)) (logonUser_of (props_of event))
       (logonIp_of (props_of event)).
  destruct (is_num (prop event "Id") 4625).
  - split; [by js_props; rewrite Hsev6|]. split; by js_props.
  - split; [by js_props; rewrite Hsev6|]. split; by js_props.
Qed.

(** *** The generic extraction of the user *)

(** X24: The user found by scanning the properties is a non-empty string
    without backslash or hyphen; when there is none the user is [null]. *)
Theorem first_user_clean (properties : list value) :
  first_user properties = VNull
  ∨ ∃ val, first_user properties = VStr val
           ∧ val ≠ ""
           ∧ includes val "\" = false
           ∧ includes val "-" = false.
Proof.
  induction properties as [|p rest IH]; [by left|].
  simpl. destruct (or_else (optProp p "Value") p); try exact IH.
  destruct (0 <? String.length s)%nat eqn:Hlen; [|exact IH].
  destruct (includes s "\") eqn:Hb; [exact IH|].
  destruct (includes s "-") eqn:Hh; [exact IH|].
  right. exists s. repeat split; try done. intros ->. done.
Qed.

(** *** The fields every parsed event has *)

Lemma mapping_severity (eventId : value) :
  prop (mapping_of eventId) "severity"
  ∈ [VStr "info"; VStr "warning"; VStr "critical"].
Proof.
  unfold mapping_of, EVENT_MAPPINGS. generalize (toString eventId) as k.
  intros k. cbn [prop own].
  repeat (destruct (String.eqb _ k);
          [repeat first [apply list_elem_of_here|apply list_elem_of_further]|]).
  apply list_elem_of_here.
Qed.

Lemma parseLogonEvent_fields (parsed event : value) :
  isObj parsed = true → isObj (prop parsed "parsed_data") = true →
  prop (parseLogonEvent rt parsed event) "source" = prop parsed "source"
  ∧ prop (parseLogonEvent rt parsed event) "severity" = prop parsed "severity".
Proof.
  intros Hobj Hdata. unfold parseLogonEvent. cbv zeta.
  destruct (length_ge rt _ 10); [|done].
  destruct (is_num _ 4625); split; by js_props.
Qed.

Lemma parseServiceEvent_fields (parsed event : value) :
  isObj parsed = true → isObj (prop parsed "parsed_data") = true →
  prop (parseServiceEvent rt parsed event) "source" = prop parsed "source"
  ∧ prop (parseServiceEvent rt parsed event) "severity"
    = prop parsed "severity".
Proof.
  intros Hobj Hdata. unfold parseServiceEvent. cbv zeta.
  destruct (length_ge rt _ 5); [|done]. split; by js_props.
Qed.

Lemma parseProcessEvent_fields (parsed event ev : value) :
  isObj parsed = true → isObj (prop parsed "parsed_data") = true →
  parseProcessEvent rt parsed event = Ret ev →
  prop ev "source" = prop parsed "source"
  ∧ (prop ev "severity" = prop parsed "severity"
     ∨ prop ev "severity" = VStr "warning").
Proof.
  intros Hobj Hdata. unfold parseProcessEvent. cbv zeta.
  destruct (length_ge rt _ 10); [|intros [= <-]; by split; [|left]].
  destruct (split_pop _) as [last|]; [|done]. cbn [mbind outcome_bind].
  destruct (lowered _) as [path|]; [|done]. cbn [mbind outcome_bind].
  destruct (_ || _); intros [= <-].
  - split; [by js_props|right; by js_props].
  - split; [by js_props|left; by js_props].
Qed.

(** X25: An event the parser returns has the source [windows] and one of
    three severities, when the event it decoded has an id whose text is a
    data key and no object with an own member [toString]. *)
Theorem parse_fields (rawData metadata ev : value) :
  (∀ event, decoded rt rawData = Some event →
     plain event = true
     ∧ printable (eventId_of event) = true
     ∧ data_key (toString (eventId_of event)) = true) →
  parse rt rawData metadata = Ret ev →
  prop ev "source" = VStr "windows"
  ∧ prop ev "severity" ∈ [VStr "info"; VStr "warning"; VStr "critical"].
Proof.
  intros _.
  assert (Hevent : ∀ event, parseWindowsEvent rt event = Ret ev →
            prop ev "source" = VStr "windows"
            ∧ prop ev "severity"
              ∈ [VStr "info"; VStr "warning"; VStr "critical"]).
  { intros event. rewrite parseWindowsEvent_eq.
    destruct (is_nullish event); [done|]. cbv zeta.
    pose proof (initial_isObj event) as Hobj.
    pose proof (initial_data_isObj event) as Hdata.
    pose proof (mapping_severity (eventId_of event)) as Hsev.
    rewrite <- initial_severity in Hsev.
    pose proof (initial_source event) as Hsrc.
    destruct (_ || _).
    { intros [= <-].
      destruct (parseLogonEvent_fields _ event Hobj Hdata) as [-> ->].
      by rewrite Hsrc. }
    destruct (is_num _ 4688).
    { intros Hp.
      destruct (parseProcessEvent_fields _ _ _ Hobj Hdata Hp) as [-> [->| ->]];
        (split; [done|]); [done|].
      apply list_elem_of_further, list_elem_of_here. }
    destruct (_ || _); intros [= <-]; [|done].
    destruct (parseServiceEvent_fields _ event Hobj Hdata) as [-> ->].
    by rewrite Hsrc. }
  unfold parse. destruct rawData as [| | | | |raw| |]; try apply Hevent.
  destruct (JSON_parse rt raw) as [event|]; [apply Hevent|].
  destruct (getProp _ "hostname"); [|done].
  intros [= <-]. split; [done|apply list_elem_of_here].
Qed.

End WithRuntime.

Lemma parseWindowsEvent_throws_witness :
  parseWindowsEvent rt0
    (VObj [("Id", VNum 4688);
           ("Properties", VArr (replicate 10 (VNum 7)))])
  = Throw TypeError.
Proof.
  apply (parseWindowsEvent_throws rt0); [reflexivity|].
  split; [done|]. right. by vm_compute.
Defined.

Lemma parseWindowsEvent_plain_witness :
  ∃ parsed,
    parseWindowsEvent rt0
      (VObj [("Id", VStr "4688");
             ("Properties",
                VArr (replicate 10 (VStr "C:\Temp\dropper.exe")))])
    = Ret parsed
    ∧ prop parsed "event_type" = VStr "process"
    ∧ prop parsed "severity" = VStr "info"
    ∧ prop parsed "description" = VStr "New process created".
Proof.
  destruct (parseWindowsEvent_plain rt0
              (VObj [("Id", VStr "4688");
                     ("Properties",
                        VArr (replicate 10 (VStr "C:\Temp\dropper.exe")))])
              eq_refl ltac:(done) eq_refl eq_refl)
    as (parsed & Hp & _ & Hty & Hsev & Hdesc & _).
  exists parsed. by repeat split.
Defined.

Lemma parseWindowsEvent_logon_witness :
  ∃ parsed,
    parseWindowsEvent rt0 (logon_event "EventId") = Ret parsed
    ∧ prop parsed "severity" = VStr "warning"
    ∧ prop parsed "description" = VStr "Network logon for alice from local"
    ∧ prop (prop parsed "parsed_data") "failure_reason" = VUndef.
Proof.
  exact (parseWindowsEvent_logon rt0 (logon_event "EventId")
           eq_refl eq_refl eq_refl eq_refl eq_refl eq_refl eq_refl eq_refl).
Defined.

Lemma parse_fields_witness :
  ∃ ev, parse rt0 (logon_event "Id") VUndef = Ret ev
        ∧ prop ev "source" = VStr "windows"
        ∧ prop ev "severity"
          ∈ [VStr "info"; VStr "warning"; VStr "critical"].
Proof.
  eexists. split; [vm_compute; reflexivity|].
  apply (parse_fields rt0 (logon_event "Id") VUndef).
  - intros event [= <-]. by repeat split.
  - vm_compute. reflexivity.
Defined.

End WindowsLaws.

(** * The auth-log parser *)

Module AuthLogLaws.
Import JS JSFacts Regex RegexCheck AuthLog Properties.
#[local] Open Scope list_scope.

Ltac reads :=
  repeat first
    [ rewrite isObj_setProp
    | rewrite prop_setProp_eq
    | rewrite prop_setProp_ne by congruence
    | done ].

Ltac in_list :=
  repeat first [apply list_elem_of_here | apply list_elem_of_further].

(** *** What a branch writes *)

Lemma branches_ok : Forall branch_ok branches.
Proof.
  unfold branches.
  repeat (constructor; [intros result m Hobj; cbn [snd];
    cbv delta [ssh_failed ssh_success ssh_invalid_user sudo_success
               sudo_failure su_success su_failure pam_auth_failure
               pam_session password_changed user_added extend_data];
    cbv beta zeta;
    try destruct (strict_eq _ (VStr "root"));
    (split; [by reads|]);
    (split; [intros k (?&?&?&?&?); by reads|]);
    (split; [reads; in_list|reads; in_list])|]).
  constructor.
Qed.

Lemma first_match_ok (bs : list (re * (value → captures → value)))
    (msg : string) (result : value) :
  Forall branch_ok bs →
  isObj result = true →
  isObj (first_match bs msg result) = true
  ∧ (∀ k, untouched k → prop (first_match bs msg result) k = prop result k)
  ∧ prop (first_match bs msg result) "event_type"
    ∈ [prop result "event_type"; VStr "privilege"; VStr "account"]
  ∧ prop (first_match bs msg result) "severity"
    ∈ [prop result "severity"; VStr "warning"; VStr "info"].
Proof.
  intros Hbs Hobj. induction Hbs as [|[pattern branch] bs Hb _ IH]; simpl.
  - repeat split; try done; apply list_elem_of_here.
  - destruct (exec pattern msg) as [m|]; [|exact IH].
    destruct (Hb result m Hobj) as (? & ? & ? & Hsev).
    repeat split; try done. by apply list_elem_of_further.
Qed.

(** *** The syslog event underneath *)

Lemma cap_string (m : captures) (i : nat) :
  cap m i = VUndef ∨ ∃ s, cap m i = VStr s.
Proof.
  induction m as [|[j s] m IH]; [by left|]. simpl.
  destruct (Nat.eqb j i); [right; by eexists|exact IH].
Qed.

Lemma syslog_parse_shape (rt : Syslog.DateRt) (rawLog metadata base : value) :
  Syslog.parse rt rawLog metadata = Ret base →
  isObj base = true
  ∧ isString (or_else (optProp (prop base "parsed_data") "message")
                      (prop base "description")) = true.
Proof.
  unfold Syslog.parse. destruct rawLog as [| | | | |raw| |]; try done.
  destruct (exec Syslog.SYSLOG_BSD_REGEX raw) as [m|].
  { destruct (Syslog.parsePriority _) as [facility sev].
    destruct (Syslog.parseTimestamp rt _) as [ts|]; [|done].
    intros [= <-]. split; [done|]. cbn [prop own String.eqb Ascii.eqb Bool.eqb
      optProp is_nullish].
    unfold or_else.
    destruct (cap_string m 6) as [->|[msg ->]]; simpl; [done|].
    by destruct (String.eqb msg ""). }
  destruct (exec Syslog.SYSLOG_ISO_REGEX raw) as [m|].
  { destruct (Syslog.parseDate rt _) as [dt|]; [|done].
    intros [= <-]. split; [done|]. cbn [prop own String.eqb Ascii.eqb Bool.eqb
      optProp is_nullish].
    unfold or_else.
    destruct (cap_string m 5) as [->|[msg ->]]; simpl; [done|].
    by destruct (String.eqb msg ""). }
  destruct (getProp _ "hostname") as [host|]; [|done].
  intros [= <-]. split; [done|]. done.
Qed.

Section WithDate.
Context (rt : Syslog.DateRt).

(** X26: The auth-log parser throws exactly what the syslog parser throws
    on the same input: the pass over the message adds no exception. *)
Theorem parse_throws_as_syslog (rawLog metadata : value) (e : exn) :
  parse rt rawLog metadata = Throw e
  ↔ Syslog.parse rt rawLog metadata = Throw e.
Proof.
  unfold parse.
  destruct (Syslog.parse rt rawLog metadata) as [base|e'] eqn:Hbase; [|done].
  cbn [mbind outcome_bind].
  destruct (syslog_parse_shape rt _ _ _ Hbase) as [_ Hmsg].
  unfold parseAuthEvent.
  by destruct (or_else _ _).
Qed.

(** X27: On every line it parses, the auth-log parser keeps the time stamp,
    the host name and the raw line of the syslog event, sets the source
    to [auth], gives one of three event types, and keeps the severity of
    the syslog event unless a pattern matched, which makes it warning or
    info. *)
Theorem parse_over_syslog (rawLog metadata ev : value) :
  parse rt rawLog metadata = Ret ev →
  ∃ base,
    Syslog.parse rt rawLog metadata = Ret base
    ∧ prop ev "source" = VStr "auth"
    ∧ prop ev "timestamp" = prop base "timestamp"
    ∧ prop ev "hostname" = prop base "hostname"
    ∧ prop ev "raw_log" = prop base "raw_log"
    ∧ prop ev "event_type"
      ∈ [VStr "authentication"; VStr "privilege"; VStr "account"]
    ∧ prop ev "severity"
      ∈ [prop base "severity"; VStr "warning"; VStr "info"].
Proof.
  unfold parse.
  destruct (Syslog.parse rt rawLog metadata) as [base|e'] eqn:Hbase; [|done].
  cbn [mbind outcome_bind].
  destruct (syslog_parse_shape rt _ _ _ Hbase) as [Hobj Hmsg].
  unfold parseAuthEvent.
  destruct (or_else _ _) as [| | | | |msg| |]; try done.
  cbn [mbind outcome_bind]. intros [= <-]. exists base. split; [done|].
  destruct base as [| | | | | | |fs]; try done. cbn [spread].
  set (result := setProp (VObj fs) "event_type" (VStr "authentication")).
  destruct (first_match_ok branches msg result branches_ok eq_refl)
    as (Hobj' & Hkept & Hty & Hsev).
  assert (Hk : ∀ k, untouched k → k ≠ "source" →
            prop (setProp (first_match branches msg result) "source"
                    (VStr "auth")) k = prop (VObj fs) k).
  { intros k Hk Hsrc. rewrite prop_setProp_ne by congruence.
    rewrite (Hkept k Hk). unfold result.
    destruct Hk as (_&_&_&?&_). by rewrite prop_setProp_ne by congruence. }
  split; [by rewrite prop_setProp_eq|].
  do 3 (split; [by apply Hk|]).
  rewrite !prop_setProp_ne by congruence.
  unfold result in Hty, Hsev.
  rewrite prop_setProp_eq in Hty by done.
  rewrite prop_setProp_ne in Hsev by congruence.
  done.
Qed.

End WithDate.

(** *** Messages no pattern can match *)

(** X28: Every pattern needs a space: a message without one is left with the
    event type [authentication] and the fields of the syslog event. *)
Theorem parseAuthEvent_without_space (msg : string) (base : value) :
  avoids (Ascii.eqb " ") msg = true →
  parseAuthEvent (VStr msg) base
  = Ret (setProp (spread base) "event_type" (VStr "authentication")).
Proof.
  intros Hmsg. unfold parseAuthEvent. f_equal.
  assert (Hall : Forall (λ b, must_hit (Ascii.eqb " ") b.1 = true) branches)
    by (repeat constructor).
  induction Hall as [|[pattern branch] bs Hb _ IH]; [done|].
  cbn [fst] in Hb. cbn [first_match].
  by rewrite (RegexLaws.exec_must_hit _ _ _ Hb Hmsg).
Qed.

(** [parse_throws_as_syslog] on a line that is not a string. *)
Lemma parse_throws_as_syslog_witness :
  parse Syslog.rt0 (VNum 7) VUndef = Throw TypeError.
Proof. apply (parse_throws_as_syslog Syslog.rt0). reflexivity. Defined.

Lemma parseAuthEvent_without_space_witness :
  parseAuthEvent (VStr "rebooting") (VObj [("event_type", VStr "system")])
  = Ret (VObj [("event_type", VStr "authentication")]).
Proof.
  exact (parseAuthEvent_without_space "rebooting"
           (VObj [("event_type", VStr "system")]) eq_refl).
Defined.

Lemma parse_over_syslog_witness :
  ∃ ev base,
    parse Syslog.rt0 (VStr sudo_line) VUndef = Ret ev
    ∧ Syslog.parse Syslog.rt0 (VStr sudo_line) VUndef = Ret base
    ∧ prop ev "source" = VStr "auth"
    ∧ prop ev "hostname" = prop base "hostname".
Proof.
  eexists. 
  destruct (parse_over_syslog Syslog.rt0 (VStr sudo_line) VUndef _
              ltac:(vm_compute; reflexivity))
    as (base & Hbase & Hsrc & _ & Hhost & _).
  exists base. by repeat split.
Defined.

End AuthLogLaws.

(** * From the auth-log parser to the rules *)

Module PipelineLaws.
Import JS JSFacts Regex AuthLog Detection Dispatch Properties.
Import AuthLogLaws.
#[local] Open Scope list_scope.

Section WithRuntime.
Context (rt : Runtime).

(** A condition that only compares a field is the comparison, and then
    its [additional] condition if it has one. *)
Lemma equals_only_matches (event condition fieldValue : value) :
  equals_only condition →
  getFieldValue event (prop condition "field") = Ret fieldValue →
  matchesCondition rt event condition
  = if equals_fails condition fieldValue then Ret false
    else if truthy (prop condition "additional")
    then matchesCondition rt event (prop condition "additional")
    else Ret true.
Proof.
  intros (Ht & _ & Hany & Hall & Hc & Hca & Hm & Hn) Hfield.
  rewrite MatcherSpec.matchesCondition_fields by (by rewrite ?Hany, ?Hall).
  unfold field_checks. rewrite Hfield. cbn [mbind outcome_bind].
  destruct (equals_fails condition fieldValue); [done|].
  unfold contains_fails, contains_any_fails, matches_fails, present.
  by rewrite Hc, Hca, Hm, Hn.
Qed.

(** Reading [parsed_data.k] and a top-level field of a record. *)
Lemma getFieldValue_nested (ev : value) (path k : string) :
  isObj ev = true →
  isObj (prop ev "parsed_data") = true →
  split "." path = ["parsed_data"; k] →
  getFieldValue ev (VStr path) = Ret (prop (prop ev "parsed_data") k).
Proof.
  intros Hev Hdata Hpath. unfold getFieldValue.
  destruct ev as [| | | | | | |fs]; try done.
  assert (path ≠ "") as Hne by (by intros ->).
  simpl truthy. destruct (String.eqb_spec path ""); [done|]. simpl.
  rewrite Hpath. simpl.
  destruct (own fs "parsed_data"); try done.
Qed.

Lemma getFieldValue_top (ev : value) (k : string) :
  isObj ev = true →
  k ≠ "" →
  split "." k = [k] →
  getFieldValue ev (VStr k) = Ret (prop ev k).
Proof.
  intros Hev Hne Hpath. unfold getFieldValue.
  destruct ev as [| | | | | | |fs]; try done.
  simpl truthy. destruct (String.eqb_spec k ""); [done|]. simpl.
  by rewrite Hpath.
Qed.

Lemma spread_isObj (v : value) : isObj (spread v) = true.
Proof. by destruct v. Qed.

Ltac data_reads :=
  cbv delta [ssh_failed ssh_success sudo_success extend_data]; cbv beta zeta;
  try match goal with |- context [strict_eq ?a (VStr "root")] =>
    destruct (strict_eq a (VStr "root")) end;
  cbn [assign];
  repeat first
    [ rewrite isObj_setProp
    | rewrite spread_isObj
    | rewrite prop_setProp_eq
    | rewrite prop_setProp_ne by discriminate
    | done ].

(** X29: A failed SSH login, as the auth-log parser returns it, is an event
    the brute-force rule counts and the correlation rule records as a
    failure, both under the address the line gives. *)
Theorem ssh_failure_feeds_rules (msg : string) (base : value) (m : captures)
    (T : Z) :
  exec SSH_FAILED msg = Some m →
  ∃ ev,
    parseAuthEvent (VStr msg) base = Ret ev
    ∧ matching rt (brute_force T) (cap m 2) ev
    ∧ matchesCondition rt ev
        (optProp (stage login_after_failures "0") "match") = Ret true
    ∧ matchesCondition rt ev
        (optProp (stage login_after_failures "1") "match") = Ret false
    ∧ groupValue ev (prop (conditions login_after_failures) "group_by")
      = Ret (cap m 2).
Proof.
  intros Hm. unfold parseAuthEvent. cbn [branches first_match]. rewrite Hm.
  set (result := setProp (spread base) "event_type" (VStr "authentication")).
  assert (Hres : isObj result = true)
    by (unfold result; by rewrite isObj_setProp, spread_isObj).
  eexists. split; [reflexivity|].
  set (ev := ssh_failed result m).
  assert (Hev : isObj ev = true) by (unfold ev; data_reads).
  assert (Hdata : isObj (prop ev "parsed_data") = true)
    by (unfold ev; data_reads).
  assert (Htype : prop (prop ev "parsed_data") "auth_type" = VStr "ssh")
    by (unfold ev; data_reads).
  assert (Hresult : prop (prop ev "parsed_data") "auth_result" = VStr "failure")
    by (unfold ev; data_reads).
  assert (Hip : prop (prop ev "parsed_data") "source_ip" = cap m 2)
    by (unfold ev; data_reads).
  assert (Hgroup : groupValue ev (VStr "parsed_data.source_ip")
                   = Ret (cap m 2)).
  { unfold groupValue. simpl truthy. cbv iota.
    by rewrite (getFieldValue_nested ev _ "source_ip"), Hip. }
  assert (Hfailure :
    matchesCondition rt ev
      (VObj [("field", VStr "parsed_data.auth_result");
             ("equals", VStr "failure")]) = Ret true).
  { rewrite (equals_only_matches ev _ (VStr "failure"));
      [done|by repeat split|].
    simpl prop. by rewrite (getFieldValue_nested ev _ "auth_result"), Hresult. }
  split; [|split; [exact Hfailure|split; [|exact Hgroup]]].
  - split; [|split; [exact Hgroup|by destruct ev]].
    rewrite (equals_only_matches ev _ (VStr "ssh")); [|by repeat split|].
    + cbn -[matchesCondition]. exact Hfailure.
    + simpl prop. by rewrite (getFieldValue_nested ev _ "auth_type"), Htype.
  - rewrite (equals_only_matches ev _ (VStr "failure"));
      [done|by repeat split|].
    simpl prop. by rewrite (getFieldValue_nested ev _ "auth_result"), Hresult.
Qed.

(** X30: A sudo line, as the auth-log parser returns it, matches the
    sudo-to-root rule exactly when its [USER] is root. *)
Theorem sudo_feeds_privilege_rule (msg : string) (base : value)
    (m : captures) :
  exec SSH_FAILED msg = None →
  exec SSH_SUCCESS msg = None →
  exec SSH_INVALID_USER msg = None →
  exec SUDO_SUCCESS msg = Some m →
  ∃ ev,
    parseAuthEvent (VStr msg) base = Ret ev
    ∧ matchesCondition rt ev (conditions privilege_escalation_sudo)
      = Ret (strict_eq (cap m 4) (VStr "root")).
Proof.
  intros H1 H2 H3 Hm. unfold parseAuthEvent. cbn [branches first_match].
  rewrite H1, H2, H3, Hm.
  set (result := setProp (spread base) "event_type" (VStr "authentication")).
  assert (Hres : isObj result = true)
    by (unfold result; by rewrite isObj_setProp, spread_isObj).
  assert (Hres_type : prop result "event_type" = VStr "authentication")
    by (unfold result; by rewrite prop_setProp_eq by apply spread_isObj).
  eexists. split; [reflexivity|].
  set (ev := sudo_success result m).
  assert (Hev : isObj ev = true) by (unfold ev; data_reads).
  assert (Hdata : isObj (prop ev "parsed_data") = true)
    by (unfold ev; data_reads).
  assert (Htarget : prop (prop ev "parsed_data") "target_user" = cap m 4)
    by (unfold ev; data_reads).
  assert (Htype : prop ev "event_type"
                  = VStr (if strict_eq (cap m 4) (VStr "root")
                          then "privilege" else "authentication")).
  { unfold ev. cbv delta [sudo_success extend_data]. cbv beta zeta.
    destruct (strict_eq (cap m 4) (VStr "root"));
      repeat first [rewrite prop_setProp_eq by (by rewrite ?isObj_setProp)
                   |rewrite prop_setProp_ne by discriminate]; done. }
  rewrite (equals_only_matches ev _ (prop ev "event_type"));
    [|by repeat split|by apply getFieldValue_top].
  unfold equals_fails, present. simpl prop. rewrite Htype.
  destruct (strict_eq (cap m 4) (VStr "root")) eqn:Hroot; [|done].
  cbn -[matchesCondition].
  rewrite (equals_only_matches ev _ (cap m 4)); [|by repeat split|].
  - unfold equals_fails, present. simpl prop. by rewrite Hroot.
  - simpl prop. by rewrite (getFieldValue_nested ev _ "target_user"), Htarget.
Qed.

End WithRuntime.

Lemma ssh_failure_feeds_rules_witness :
  ∃ ev,
    parseAuthEvent (VStr ssh_failed_message) (VObj []) = Ret ev
    ∧ matching rt0 (brute_force 5) (VStr "192.168.1.100") ev.
Proof.
  destruct (ssh_failure_feeds_rules rt0 ssh_failed_message (VObj [])
              ssh_failed_captures 5 eq_refl) as (ev & Hev & Hm & _).
  by exists ev.
Defined.

Lemma sudo_feeds_privilege_rule_witness :
  ∃ ev,
    parseAuthEvent (VStr sudo_message) (VObj []) = Ret ev
    ∧ matchesCondition rt0 ev (conditions privilege_escalation_sudo)
      = Ret true.
Proof.
  exact (sudo_feeds_privilege_rule rt0 sudo_message (VObj []) sudo_captures
           eq_refl eq_refl eq_refl eq_refl).
Defined.

End PipelineLaws.
